(** * Ultima Underworld strings and conversation tools

    A shallow embedding of the Python programs of the repository and the
    properties proved about them:

    - [ArkCompressor]: the run-length codec of [uw_cnv_compiler.py];
    - [Huffman]: the string encoder of [uw-strings-packer.py] and the
      string decoder of [uw-strings-extractor.py];
    - [UltimaUnderworldVM]: the conversation machine of [uw_cnv_runner.py];
    - [UWScript]: the code generator of [UWScript/uwscript_compiler.py].

    Python integers are [Z]; byte strings are lists of [Z]; text is
    [string]; dictionaries are [gmap]s or association lists; a function
    that can raise returns a [Py.result]; the methods of the machine and of
    the code generator pass their object explicitly. *)

From stdpp Require Import base numbers list option gmap strings pretty.
From Stdlib Require Import ZArith Lia Ascii.
Local Open Scope Z_scope.

(** * Python primitives *)
Module Py.

(** Exceptions the modelled code can raise.  [OutOfFuel] is not a Python
    exception: it marks a loop or recursion that did not end within the
    bound of the model. *)
Inductive exn :=
  | IndexError | ValueError | TypeError | AttributeError | NameError
  | SyntaxError | EOFError | OutOfFuel.

Inductive result (A : Type) :=
  | Ok (a : A)
  | Raise (e : exn).
Arguments Ok {A} a.
Arguments Raise {A} e.

#[global] Instance result_ret : MRet result := λ A a, Ok a.
#[global] Instance result_bind : MBind result := λ A B f m,
  match m with Ok a => f a | Raise e => Raise e end.

(** [l[i]] with Python's negative indices. *)
Definition index {A} (l : list A) (i : Z) : result A :=
  let n := Z.of_nat (length l) in
  let j := if bool_decide (i < 0) then i + n else i in
  if bool_decide (0 ≤ j < n) then
    match l !! Z.to_nat j with Some a => Ok a | None => Raise IndexError end
  else Raise IndexError.

(** [chr(i)]: the character is represented by its code point. *)
Definition chr (i : Z) : result Z :=
  if bool_decide (0 ≤ i < 0x110000) then Ok i else Raise ValueError.

(** ** Text.  A [str] is a [string]; its characters are the code points
    0..255. *)

(** [ord(c)] *)
Definition ord (c : ascii) : Z := Z.of_N (N_of_ascii c).

(** [c.isspace()] *)
Definition isspace (c : ascii) : bool :=
  let n := ord c in
  bool_decide (9 ≤ n ≤ 13 ∨ 28 ≤ n ≤ 32 ∨ n = 133 ∨ n = 160).

Fixpoint lstrip (s : string) : string :=
  match s with
  | String c s' => if isspace c then lstrip s' else s
  | EmptyString => EmptyString
  end.

Fixpoint rstrip (s : string) : string :=
  match s with
  | String c s' =>
      match rstrip s' with
      | EmptyString => if isspace c then EmptyString else String c EmptyString
      | t => String c t
      end
  | EmptyString => EmptyString
  end.

(** [s.strip()] *)
Definition strip (s : string) : string := rstrip (lstrip s).

(** [s.startswith(p)] *)
Definition startswith (s p : string) : bool := String.prefix p s.

(** [sub in s] *)
Fixpoint contains (s sub : string) : bool :=
  if String.prefix sub s then true
  else match s with
       | String _ s' => contains s' sub
       | EmptyString => false
       end.

Fixpoint drop_chars (n : nat) (s : string) : string :=
  match n, s with
  | S n', String _ s' => drop_chars n' s'
  | _, _ => s
  end.

(** [s.split(sep, maxsplit)] for a non-empty [sep]; [fuel] bounds the scan
    and [cur] holds the characters of the piece being read, in reverse. *)
Fixpoint split_go (fuel : nat) (sep : string) (maxsplit : option nat)
    (s : string) (cur : string) : list string :=
  match fuel with
  | O => [String.rev cur]
  | S fuel' =>
      match s with
      | EmptyString => [String.rev cur]
      | String c s' =>
          if bool_decide (maxsplit ≠ Some O) && String.prefix sep s then
            String.rev cur ::
              split_go fuel' sep (pred <$> maxsplit)
                (drop_chars (String.length sep) s) EmptyString
          else split_go fuel' sep maxsplit s' (String c cur)
      end
  end.

Definition split (s sep : string) : list string :=
  split_go (S (String.length s)) sep None s EmptyString.

Definition split_max (s sep : string) (maxsplit : nat) : list string :=
  split_go (S (String.length s)) sep (Some maxsplit) s EmptyString.

(** [c.upper()] on the letters a..z. *)
Definition upper_char (c : ascii) : ascii :=
  let n := N_of_ascii c in
  if bool_decide (97 ≤ n ≤ 122)%N then ascii_of_N (n - 32) else c.

Fixpoint upper (s : string) : string :=
  match s with
  | String c s' => String (upper_char c) (upper s')
  | EmptyString => EmptyString
  end.

Definition lower_char (c : ascii) : ascii :=
  let n := N_of_ascii c in
  if bool_decide (65 ≤ n ≤ 90)%N then ascii_of_N (n + 32) else c.

(** [s.isdigit()] *)
Definition isdigit_char (c : ascii) : bool :=
  let n := ord c in
  bool_decide (48 ≤ n ≤ 57 ∨ n = 178 ∨ n = 179 ∨ n = 185).

Fixpoint all_chars (p : ascii → bool) (s : string) : bool :=
  match s with
  | String c s' => p c && all_chars p s'
  | EmptyString => true
  end.

Definition isdigit (s : string) : bool :=
  bool_decide (s ≠ EmptyString) && all_chars isdigit_char s.

(** The value of a digit in base 10 or 16. *)
Definition digit_value (base : Z) (c : ascii) : option Z :=
  let n := ord c in
  if bool_decide (48 ≤ n ≤ 57) then Some (n - 48)
  else if bool_decide (base = 16 ∧ 97 ≤ n ≤ 102) then Some (n - 87)
  else if bool_decide (base = 16 ∧ 65 ≤ n ≤ 70) then Some (n - 55)
  else None.

(** Digits with single underscores between them.  [us_ok] tells whether an
    underscore may come next and [seen] whether a digit was read. *)
Fixpoint digits (base : Z) (s : string) (acc : Z) (us_ok seen : bool) : option Z :=
  match s with
  | EmptyString => if seen && us_ok then Some acc else None
  | String c s' =>
      if bool_decide (c = "_"%char) then
        if us_ok then digits base s' acc false seen else None
      else
        match digit_value base c with
        | Some d => digits base s' (acc * base + d) true true
        | None => None
        end
  end.

Definition unsigned (base : Z) (s : string) : option Z :=
  if bool_decide (base = 16) && (String.prefix "0x" s || String.prefix "0X" s)
  then digits base (drop_chars 2 s) 0 true false
  else digits base s 0 false false.

(** [int(s, base)] for a [str] argument and [base] 10 or 16. *)
Definition int (s : string) (base : Z) : result Z :=
  let s := strip s in
  let r :=
    match s with
    | String "-" s' => Z.opp <$> unsigned base s'
    | String "+" s' => unsigned base s'
    | _ => unsigned base s
    end in
  match r with Some v => Ok v | None => Raise ValueError end.

(** [str(i)] *)
Definition str (i : Z) : string := pretty i.

End Py.

(** * uw_cnv_compiler.py: the CNV.ARK codec

    A [bytes] value is the list of its bytes.  The loops of the two
    functions run on a bound [fuel]; [compress] and [decompress] pass the
    length of the input, and every turn of a loop consumes at least one
    byte of it. *)
Module ArkCompressor.

(** Inner loop of [compress]:
    [while j + 1 < len(input_data) and input_data[j+1] == run_value
           and run_length < 130: run_length += 1; j += 1]. *)
Fixpoint scan_run (input_data : list Z) (run_value : Z) (fuel j run_length : nat) : nat :=
  match fuel with
  | O => run_length
  | S fuel' =>
      if bool_decide ((j + 1 < length input_data)%nat
                      ∧ input_data !! (j + 1)%nat = Some run_value
                      ∧ (run_length < 130)%nat)
      then scan_run input_data run_value fuel' (j + 1) (run_length + 1)
      else run_length
  end.

(** [i + 2 < len(input_data) and
     input_data[i] == input_data[i+1] == input_data[i+2]]. *)
Definition starts_run (input_data : list Z) (i : nat) : bool :=
  bool_decide ((i + 2 < length input_data)%nat
               ∧ input_data !! i = input_data !! (i + 1)%nat
               ∧ input_data !! (i + 1)%nat = input_data !! (i + 2)%nat).

(** Literal scan of [compress]; returns the final [i]. *)
Fixpoint scan_literal (input_data : list Z) (fuel literal_start i : nat) : nat :=
  match fuel with
  | O => i
  | S fuel' =>
      if bool_decide (i < length input_data)%nat then
        if starts_run input_data i then i
        else
          let i := (i + 1)%nat in
          if bool_decide (128 ≤ i - literal_start)%nat then i
          else scan_literal input_data fuel' literal_start i
      else i
  end.

(** [input_data[a:b]] for [0 <= a <= b]. *)
Definition slice (input_data : list Z) (a b : nat) : list Z :=
  take (b - a) (drop a input_data).

(** Outer loop of [compress]. *)
Fixpoint compress_loop (input_data : list Z) (fuel i : nat) (output : list Z) : list Z :=
  match fuel with
  | O => output
  | S fuel' =>
      if bool_decide (i < length input_data)%nat then
        let run_length :=
          if bool_decide ((i + 2 < length input_data)%nat
                          ∧ input_data !! i = input_data !! (i + 1)%nat)
          then scan_run input_data (default 0 (input_data !! i)) 130 i 1
          else 1%nat in
        if bool_decide ((i + 2 < length input_data)%nat
                        ∧ input_data !! i = input_data !! (i + 1)%nat
                        ∧ (3 ≤ run_length)%nat)
        then
          compress_loop input_data fuel' (i + run_length)
            (output ++ [Z.lor 0x80 (Z.of_nat run_length - 3);
                        default 0 (input_data !! i)])
        else
          let literal_start := i in
          let i := scan_literal input_data 128 literal_start i in
          let literal_length := (i - literal_start)%nat in
          if bool_decide (0 < literal_length)%nat then
            compress_loop input_data fuel' i
              (output ++ (Z.of_nat literal_length - 1) :: slice input_data literal_start i)
          else compress_loop input_data fuel' i output
      else output
  end.

Definition compress (input_data : list Z) : list Z :=
  compress_loop input_data (length input_data) 0 [].

Fixpoint decompress_loop (input_data : list Z) (fuel i : nat) (output : list Z) : list Z :=
  match fuel with
  | O => output
  | S fuel' =>
      match input_data !! i with
      | None => output
      | Some control_byte =>
          let i := (i + 1)%nat in
          if bool_decide (Z.land control_byte 0x80 ≠ 0) then
            let count := Z.land control_byte 0x7F + 3 in
            match input_data !! i with
            | Some value =>
                decompress_loop input_data fuel' (i + 1)
                  (output ++ replicate (Z.to_nat count) value)
            | None => decompress_loop input_data fuel' i output
            end
          else
            let count := Z.to_nat (Z.land control_byte 0x7F + 1) in
            if bool_decide (i + count ≤ length input_data)%nat then
              decompress_loop input_data fuel' (i + count)
                (output ++ slice input_data i (i + count))
            else output
      end
  end.

Definition decompress (input_data : list Z) : list Z :=
  match input_data with
  | [] => []
  | _ => decompress_loop input_data (length input_data) 0 []
  end.

(** [is_compressed]: more than 64 of the first 256 bytes have the high bit
    set. *)
Definition is_compressed (data : list Z) : bool :=
  let sample := take 256 data in
  let high_bit_count :=
    Z.of_nat (length (filter (λ b, Z.land b 0x80 ≠ 0) sample)) in
  bool_decide (high_bit_count > 64).

End ArkCompressor.

(** * STRINGS.PAK Huffman codec *)
Module Huffman.
Import Py.

Record UaHuffNode := { symbol : Z; parent : Z; left : Z; right : Z }.

Definition bar : Z := 124.    (* '|' *)
Definition space : Z := 32.   (* ' ' *)

(** ** uw-strings-packer.py, [StringsPacker] *)

(** The nested function [generate_codes(node_idx, code)] of
    [_generate_huffman_codes]; the dictionary [self.huffman_codes] is
    threaded through.  [fuel] bounds the recursion depth. *)
Fixpoint generate_codes (huffman_nodes : list UaHuffNode) (fuel : nat)
    (node_idx : Z) (code : list bool) (huffman_codes : gmap Z (list bool))
    : result (gmap Z (list bool)) :=
  match fuel with
  | O => Raise OutOfFuel
  | S fuel' =>
      node ← index huffman_nodes node_idx;
      if bool_decide (left node = 255 ∧ right node = 255) then
        char ← chr (symbol node);
        Ok (<[char := code]> huffman_codes)
      else
        huffman_codes ←
          (if bool_decide (left node ≠ 255)
           then generate_codes huffman_nodes fuel' (left node) (code ++ [false]) huffman_codes
           else Ok huffman_codes);
        if bool_decide (right node ≠ 255)
        then generate_codes huffman_nodes fuel' (right node) (code ++ [true]) huffman_codes
        else Ok huffman_codes
  end.

Definition _generate_huffman_codes (huffman_nodes : list UaHuffNode)
    (huffman_codes : gmap Z (list bool)) : result (gmap Z (list bool)) :=
  match huffman_nodes with
  | [] => Ok huffman_codes
  | _ =>
      let root_idx := Z.of_nat (length huffman_nodes) - 1 in
      generate_codes huffman_nodes (S (length huffman_nodes)) root_idx [] huffman_codes
  end.

(** [s.endswith('|')] *)
Definition endswith_bar (s : list Z) : bool := bool_decide (last s = Some bar).

(** The loop [for char in s] of [encode_string] that collects the bits. *)
Fixpoint collect_bits (huffman_codes : gmap Z (list bool)) (s : list Z)
    (bit_string : list bool) : list bool :=
  match s with
  | [] => bit_string
  | char :: s' =>
      match huffman_codes !! char with
      | Some code => collect_bits huffman_codes s' (bit_string ++ code)
      | None =>
          match huffman_codes !! space with
          | Some code => collect_bits huffman_codes s' (bit_string ++ code)
          | None => collect_bits huffman_codes s' bit_string
          end
      end
  end.

(** The loop [for bit in bit_string] of [encode_string] and the padding of
    the last byte. *)
Fixpoint pack_bits (bit_string : list bool) (bytes_data : list Z)
    (current_byte bit_count : Z) : list Z :=
  match bit_string with
  | [] =>
      if bool_decide (bit_count > 0)
      then bytes_data ++ [Z.shiftl current_byte (8 - bit_count)]
      else bytes_data
  | bit :: rest =>
      let current_byte := Z.lor (Z.shiftl current_byte 1) (Z.b2z bit) in
      let bit_count := bit_count + 1 in
      if bool_decide (bit_count = 8)
      then pack_bits rest (bytes_data ++ [current_byte]) 0 0
      else pack_bits rest bytes_data current_byte bit_count
  end.

Definition encode_string (huffman_codes : gmap Z (list bool)) (s : list Z)
    : result (list Z) :=
  if bool_decide (huffman_codes = ∅) then Raise ValueError
  else
    let s := if endswith_bar s then s else s ++ [bar] in
    let bit_string := collect_bits huffman_codes s [] in
    Ok (pack_bits bit_string [] 0 0).

(** ** uw-strings-extractor.py, [UaGameStrings.load]: decoding one string *)

(** The locals of [load] that the bit reader uses.  [fd] is the part of the
    file after the read position; [raw_data] is [None] while the local
    variable is unbound. *)
Record reader := {
  bit : Z;
  raw : Z;
  fd : list Z;
  raw_data : option (list Z);
}.

Inductive walk_end :=
  | AtLeaf (node : Z) (r : reader)   (* the inner while condition became false *)
  | AtEof (r : reader).              (* [break] on a premature end of file *)

(** The inner loop
    [while huffman_nodes[node].left != 255 and huffman_nodes[node].right != 255]. *)
Fixpoint walk (huffman_nodes : list UaHuffNode) (fuel : nat) (node : Z) (r : reader)
    : result walk_end :=
  match fuel with
  | O => Raise OutOfFuel
  | S fuel' =>
      nd ← index huffman_nodes node;
      if bool_decide (left nd ≠ 255 ∧ right nd ≠ 255) then
        let step (r : reader) :=
          let node := if bool_decide (Z.land (raw r) 0x80 ≠ 0)
                      then right nd else left nd in
          walk huffman_nodes fuel' node
            {| bit := bit r - 1; raw := Z.land (Z.shiftl (raw r) 1) 0xFF;
               fd := fd r; raw_data := raw_data r |} in
        if bool_decide (bit r = 0) then
          match fd r with
          | [] => Ok (AtEof {| bit := 8; raw := raw r; fd := []; raw_data := Some [] |})
          | b :: rest =>
              step {| bit := 8; raw := b; fd := rest; raw_data := Some [b] |}
          end
        else step r
      else Ok (AtLeaf node r)
  end.

(** The loop [while True] that decodes one string. *)
Fixpoint decode_loop (huffman_nodes : list UaHuffNode) (fuel : nat)
    (string : list Z) (r : reader) : result (list Z) :=
  match fuel with
  | O => Raise OutOfFuel
  | S fuel' =>
      let node := Z.of_nat (length huffman_nodes) - 1 in
      e ← walk huffman_nodes (Z.to_nat (bit r) + 8 * length (fd r) + 1) node r;
      match e with
      | AtEof _ => Ok string
      | AtLeaf node r =>
          match raw_data r with
          | None | Some [] => Ok string
          | Some _ =>
              nd ← index huffman_nodes node;
              c ← chr (symbol nd);
              if bool_decide (c ≠ bar) then decode_loop huffman_nodes fuel' (string ++ [c]) r
              else Ok string
          end
      end
  end.

(** Decoding of the string that starts at the file position whose remaining
    bytes are [data]; [raw_data0] is the state of the local [raw_data] left
    by the strings decoded before. *)
Definition decode_string (huffman_nodes : list UaHuffNode)
    (raw_data0 : option (list Z)) (data : list Z) : result (list Z) :=
  decode_loop huffman_nodes (8 * length data + 1) []
    {| bit := 0; raw := 0; fd := data; raw_data := raw_data0 |}.

End Huffman.

(** * uw_cnv_runner.py: the conversation virtual machine *)
Module UltimaUnderworldVM.
Import Py.
Local Open Scope string_scope.
Local Open Scope Z_scope.
Local Open Scope list_scope.

(** The attributes of a [UltimaUnderworldVM] object.  [stdin] holds the
    lines that [input()] will return, [random_source] the numbers that
    [random] will draw from, and [transcript] the texts that [SAY_OP]
    prints (each as the line [NPC: "<text>"]); the other output of the
    program is not recorded.  A missing attribute is [None]. *)
Record vm := {
  memory : gmap Z Z;
  stack : list Z;
  stack_pointer : Z;
  base_pointer : Z;
  result_register : Z;
  pc : Z;
  string_blocks : gmap Z (list string);
  current_string_block : option (list string);
  string_block_id : Z;
  code : list Z;
  labels : gmap string Z;
  call_level : Z;
  finished : bool;
  waiting_response : bool;
  imported_globals_count : N;
  first_memory_slot : N;
  memory_slots : N;
  slot_idx : option Z;
  string_block : option Z;
  stdin : list string;
  random_source : list Z;
  transcript : list string;
}.

Definition with_memory (v : gmap Z Z) (s : vm) : vm :=
  {| memory := v; stack := stack s; stack_pointer := stack_pointer s; base_pointer := base_pointer s; result_register := result_register s; pc := pc s; string_blocks := string_blocks s; current_string_block := current_string_block s; string_block_id := string_block_id s; code := code s; labels := labels s; call_level := call_level s; finished := finished s; waiting_response := waiting_response s; imported_globals_count := imported_globals_count s; first_memory_slot := first_memory_slot s; memory_slots := memory_slots s; slot_idx := slot_idx s; string_block := string_block s; stdin := stdin s; random_source := random_source s; transcript := transcript s |}.
Definition with_stack (v : list Z) (s : vm) : vm :=
  {| memory := memory s; stack := v; stack_pointer := stack_pointer s; base_pointer := base_pointer s; result_register := result_register s; pc := pc s; string_blocks := string_blocks s; current_string_block := current_string_block s; string_block_id := string_block_id s; code := code s; labels := labels s; call_level := call_level s; finished := finished s; waiting_response := waiting_response s; imported_globals_count := imported_globals_count s; first_memory_slot := first_memory_slot s; memory_slots := memory_slots s; slot_idx := slot_idx s; string_block := string_block s; stdin := stdin s; random_source := random_source s; transcript := transcript s |}.
Definition with_stack_pointer (v : Z) (s : vm) : vm :=
  {| memory := memory s; stack := stack s; stack_pointer := v; base_pointer := base_pointer s; result_register := result_register s; pc := pc s; string_blocks := string_blocks s; current_string_block := current_string_block s; string_block_id := string_block_id s; code := code s; labels := labels s; call_level := call_level s; finished := finished s; waiting_response := waiting_response s; imported_globals_count := imported_globals_count s; first_memory_slot := first_memory_slot s; memory_slots := memory_slots s; slot_idx := slot_idx s; string_block := string_block s; stdin := stdin s; random_source := random_source s; transcript := transcript s |}.
Definition with_base_pointer (v : Z) (s : vm) : vm :=
  {| memory := memory s; stack := stack s; stack_pointer := stack_pointer s; base_pointer := v; result_register := result_register s; pc := pc s; string_blocks := string_blocks s; current_string_block := current_string_block s; string_block_id := string_block_id s; code := code s; labels := labels s; call_level := call_level s; finished := finished s; waiting_response := waiting_response s; imported_globals_count := imported_globals_count s; first_memory_slot := first_memory_slot s; memory_slots := memory_slots s; slot_idx := slot_idx s; string_block := string_block s; stdin := stdin s; random_source := random_source s; transcript := transcript s |}.
Definition with_result_register (v : Z) (s : vm) : vm :=
  {| memory := memory s; stack := stack s; stack_pointer := stack_pointer s; base_pointer := base_pointer s; result_register := v; pc := pc s; string_blocks := string_blocks s; current_string_block := current_string_block s; string_block_id := string_block_id s; code := code s; labels := labels s; call_level := call_level s; finished := finished s; waiting_response := waiting_response s; imported_globals_count := imported_globals_count s; first_memory_slot := first_memory_slot s; memory_slots := memory_slots s; slot_idx := slot_idx s; string_block := string_block s; stdin := stdin s; random_source := random_source s; transcript := transcript s |}.
Definition with_pc (v : Z) (s : vm) : vm :=
  {| memory := memory s; stack := stack s; stack_pointer := stack_pointer s; base_pointer := base_pointer s; result_register := result_register s; pc := v; string_blocks := string_blocks s; current_string_block := current_string_block s; string_block_id := string_block_id s; code := code s; labels := labels s; call_level := call_level s; finished := finished s; waiting_response := waiting_response s; imported_globals_count := imported_globals_count s; first_memory_slot := first_memory_slot s; memory_slots := memory_slots s; slot_idx := slot_idx s; string_block := string_block s; stdin := stdin s; random_source := random_source s; transcript := transcript s |}.
Definition with_string_blocks (v : gmap Z (list string)) (s : vm) : vm :=
  {| memory := memory s; stack := stack s; stack_pointer := stack_pointer s; base_pointer := base_pointer s; result_register := result_register s; pc := pc s; string_blocks := v; current_string_block := current_string_block s; string_block_id := string_block_id s; code := code s; labels := labels s; call_level := call_level s; finished := finished s; waiting_response := waiting_response s; imported_globals_count := imported_globals_count s; first_memory_slot := first_memory_slot s; memory_slots := memory_slots s; slot_idx := slot_idx s; string_block := string_block s; stdin := stdin s; random_source := random_source s; transcript := transcript s |}.
Definition with_current_string_block (v : option (list string)) (s : vm) : vm :=
  {| memory := memory s; stack := stack s; stack_pointer := stack_pointer s; base_pointer := base_pointer s; result_register := result_register s; pc := pc s; string_blocks := string_blocks s; current_string_block := v; string_block_id := string_block_id s; code := code s; labels := labels s; call_level := call_level s; finished := finished s; waiting_response := waiting_response s; imported_globals_count := imported_globals_count s; first_memory_slot := first_memory_slot s; memory_slots := memory_slots s; slot_idx := slot_idx s; string_block := string_block s; stdin := stdin s; random_source := random_source s; transcript := transcript s |}.
Definition with_string_block_id (v : Z) (s : vm) : vm :=
  {| memory := memory s; stack := stack s; stack_pointer := stack_pointer s; base_pointer := base_pointer s; result_register := result_register s; pc := pc s; string_blocks := string_blocks s; current_string_block := current_string_block s; string_block_id := v; code := code s; labels := labels s; call_level := call_level s; finished := finished s; waiting_response := waiting_response s; imported_globals_count := imported_globals_count s; first_memory_slot := first_memory_slot s; memory_slots := memory_slots s; slot_idx := slot_idx s; string_block := string_block s; stdin := stdin s; random_source := random_source s; transcript := transcript s |}.
Definition with_code (v : list Z) (s : vm) : vm :=
  {| memory := memory s; stack := stack s; stack_pointer := stack_pointer s; base_pointer := base_pointer s; result_register := result_register s; pc := pc s; string_blocks := string_blocks s; current_string_block := current_string_block s; string_block_id := string_block_id s; code := v; labels := labels s; call_level := call_level s; finished := finished s; waiting_response := waiting_response s; imported_globals_count := imported_globals_count s; first_memory_slot := first_memory_slot s; memory_slots := memory_slots s; slot_idx := slot_idx s; string_block := string_block s; stdin := stdin s; random_source := random_source s; transcript := transcript s |}.
Definition with_labels (v : gmap string Z) (s : vm) : vm :=
  {| memory := memory s; stack := stack s; stack_pointer := stack_pointer s; base_pointer := base_pointer s; result_register := result_register s; pc := pc s; string_blocks := string_blocks s; current_string_block := current_string_block s; string_block_id := string_block_id s; code := code s; labels := v; call_level := call_level s; finished := finished s; waiting_response := waiting_response s; imported_globals_count := imported_globals_count s; first_memory_slot := first_memory_slot s; memory_slots := memory_slots s; slot_idx := slot_idx s; string_block := string_block s; stdin := stdin s; random_source := random_source s; transcript := transcript s |}.
Definition with_call_level (v : Z) (s : vm) : vm :=
  {| memory := memory s; stack := stack s; stack_pointer := stack_pointer s; base_pointer := base_pointer s; result_register := result_register s; pc := pc s; string_blocks := string_blocks s; current_string_block := current_string_block s; string_block_id := string_block_id s; code := code s; labels := labels s; call_level := v; finished := finished s; waiting_response := waiting_response s; imported_globals_count := imported_globals_count s; first_memory_slot := first_memory_slot s; memory_slots := memory_slots s; slot_idx := slot_idx s; string_block := string_block s; stdin := stdin s; random_source := random_source s; transcript := transcript s |}.
Definition with_finished (v : bool) (s : vm) : vm :=
  {| memory := memory s; stack := stack s; stack_pointer := stack_pointer s; base_pointer := base_pointer s; result_register := result_register s; pc := pc s; string_blocks := string_blocks s; current_string_block := current_string_block s; string_block_id := string_block_id s; code := code s; labels := labels s; call_level := call_level s; finished := v; waiting_response := waiting_response s; imported_globals_count := imported_globals_count s; first_memory_slot := first_memory_slot s; memory_slots := memory_slots s; slot_idx := slot_idx s; string_block := string_block s; stdin := stdin s; random_source := random_source s; transcript := transcript s |}.
Definition with_waiting_response (v : bool) (s : vm) : vm :=
  {| memory := memory s; stack := stack s; stack_pointer := stack_pointer s; base_pointer := base_pointer s; result_register := result_register s; pc := pc s; string_blocks := string_blocks s; current_string_block := current_string_block s; string_block_id := string_block_id s; code := code s; labels := labels s; call_level := call_level s; finished := finished s; waiting_response := v; imported_globals_count := imported_globals_count s; first_memory_slot := first_memory_slot s; memory_slots := memory_slots s; slot_idx := slot_idx s; string_block := string_block s; stdin := stdin s; random_source := random_source s; transcript := transcript s |}.
Definition with_imported_globals_count (v : N) (s : vm) : vm :=
  {| memory := memory s; stack := stack s; stack_pointer := stack_pointer s; base_pointer := base_pointer s; result_register := result_register s; pc := pc s; string_blocks := string_blocks s; current_string_block := current_string_block s; string_block_id := string_block_id s; code := code s; labels := labels s; call_level := call_level s; finished := finished s; waiting_response := waiting_response s; imported_globals_count := v; first_memory_slot := first_memory_slot s; memory_slots := memory_slots s; slot_idx := slot_idx s; string_block := string_block s; stdin := stdin s; random_source := random_source s; transcript := transcript s |}.
Definition with_first_memory_slot (v : N) (s : vm) : vm :=
  {| memory := memory s; stack := stack s; stack_pointer := stack_pointer s; base_pointer := base_pointer s; result_register := result_register s; pc := pc s; string_blocks := string_blocks s; current_string_block := current_string_block s; string_block_id := string_block_id s; code := code s; labels := labels s; call_level := call_level s; finished := finished s; waiting_response := waiting_response s; imported_globals_count := imported_globals_count s; first_memory_slot := v; memory_slots := memory_slots s; slot_idx := slot_idx s; string_block := string_block s; stdin := stdin s; random_source := random_source s; transcript := transcript s |}.
Definition with_memory_slots (v : N) (s : vm) : vm :=
  {| memory := memory s; stack := stack s; stack_pointer := stack_pointer s; base_pointer := base_pointer s; result_register := result_register s; pc := pc s; string_blocks := string_blocks s; current_string_block := current_string_block s; string_block_id := string_block_id s; code := code s; labels := labels s; call_level := call_level s; finished := finished s; waiting_response := waiting_response s; imported_globals_count := imported_globals_count s; first_memory_slot := first_memory_slot s; memory_slots := v; slot_idx := slot_idx s; string_block := string_block s; stdin := stdin s; random_source := random_source s; transcript := transcript s |}.
Definition with_slot_idx (v : option Z) (s : vm) : vm :=
  {| memory := memory s; stack := stack s; stack_pointer := stack_pointer s; base_pointer := base_pointer s; result_register := result_register s; pc := pc s; string_blocks := string_blocks s; current_string_block := current_string_block s; string_block_id := string_block_id s; code := code s; labels := labels s; call_level := call_level s; finished := finished s; waiting_response := waiting_response s; imported_globals_count := imported_globals_count s; first_memory_slot := first_memory_slot s; memory_slots := memory_slots s; slot_idx := v; string_block := string_block s; stdin := stdin s; random_source := random_source s; transcript := transcript s |}.
Definition with_string_block (v : option Z) (s : vm) : vm :=
  {| memory := memory s; stack := stack s; stack_pointer := stack_pointer s; base_pointer := base_pointer s; result_register := result_register s; pc := pc s; string_blocks := string_blocks s; current_string_block := current_string_block s; string_block_id := string_block_id s; code := code s; labels := labels s; call_level := call_level s; finished := finished s; waiting_response := waiting_response s; imported_globals_count := imported_globals_count s; first_memory_slot := first_memory_slot s; memory_slots := memory_slots s; slot_idx := slot_idx s; string_block := v; stdin := stdin s; random_source := random_source s; transcript := transcript s |}.
Definition with_stdin (v : list string) (s : vm) : vm :=
  {| memory := memory s; stack := stack s; stack_pointer := stack_pointer s; base_pointer := base_pointer s; result_register := result_register s; pc := pc s; string_blocks := string_blocks s; current_string_block := current_string_block s; string_block_id := string_block_id s; code := code s; labels := labels s; call_level := call_level s; finished := finished s; waiting_response := waiting_response s; imported_globals_count := imported_globals_count s; first_memory_slot := first_memory_slot s; memory_slots := memory_slots s; slot_idx := slot_idx s; string_block := string_block s; stdin := v; random_source := random_source s; transcript := transcript s |}.
Definition with_random_source (v : list Z) (s : vm) : vm :=
  {| memory := memory s; stack := stack s; stack_pointer := stack_pointer s; base_pointer := base_pointer s; result_register := result_register s; pc := pc s; string_blocks := string_blocks s; current_string_block := current_string_block s; string_block_id := string_block_id s; code := code s; labels := labels s; call_level := call_level s; finished := finished s; waiting_response := waiting_response s; imported_globals_count := imported_globals_count s; first_memory_slot := first_memory_slot s; memory_slots := memory_slots s; slot_idx := slot_idx s; string_block := string_block s; stdin := stdin s; random_source := v; transcript := transcript s |}.
Definition with_transcript (v : list string) (s : vm) : vm :=
  {| memory := memory s; stack := stack s; stack_pointer := stack_pointer s; base_pointer := base_pointer s; result_register := result_register s; pc := pc s; string_blocks := string_blocks s; current_string_block := current_string_block s; string_block_id := string_block_id s; code := code s; labels := labels s; call_level := call_level s; finished := finished s; waiting_response := waiting_response s; imported_globals_count := imported_globals_count s; first_memory_slot := first_memory_slot s; memory_slots := memory_slots s; slot_idx := slot_idx s; string_block := string_block s; stdin := stdin s; random_source := random_source s; transcript := v |}.

(** State and exceptions. *)
Definition M (A : Type) : Type := vm → result (A * vm).
Definition ret {A} (a : A) : M A := λ s, Ok (a, s).
Definition bind {A B} (m : M A) (f : A → M B) : M B :=
  λ s, match m s with Ok (a, s') => f a s' | Raise e => Raise e end.
Definition raise {A} (e : exn) : M A := λ _, Raise e.
Definition lift {A} (r : result A) : M A :=
  λ s, match r with Ok a => Ok (a, s) | Raise e => Raise e end.
Definition gets {A} (f : vm → A) : M A := λ s, Ok (f s, s).
Definition modify (f : vm → vm) : M unit := λ s, Ok (tt, f s).

Notation "x <- c1 ;; c2" := (bind c1 (λ x, c2))
  (at level 100, c1 at next level, right associativity).
Notation "c1 ;; c2" := (bind c1 (λ _, c2))
  (at level 100, right associativity).

(** [for x in l: body(x)] *)
Fixpoint for_each {A} (l : list A) (body : A → M unit) : M unit :=
  match l with
  | [] => ret tt
  | x :: l' => body x ;; for_each l' body
  end.

(** [range(n)] *)
Definition range (n : Z) : list Z := Z.of_nat <$> seq 0 (Z.to_nat n).

Definition init (stdin0 : list string) (random0 : list Z) : vm :=
  {| memory := ∅; stack := []; stack_pointer := 0; base_pointer := 0;
     result_register := 0; pc := 0; string_blocks := ∅;
     current_string_block := None; string_block_id := 0; code := [];
     labels := ∅; call_level := 1; finished := false;
     waiting_response := false; imported_globals_count := 0;
     first_memory_slot := 0; memory_slots := 0; slot_idx := None;
     string_block := None; stdin := stdin0; random_source := random0;
     transcript := [] |}.

(** ** Memory and stack *)

(** [self.memory[address]] on the list of 65536 cells: the position that a
    Python index denotes.  The list starts as all zeros, so the map holds
    the cells written so far. *)
Definition mem_slot (address : Z) : result Z :=
  let j := if bool_decide (address < 0) then address + 65536 else address in
  if bool_decide (0 ≤ j < 65536) then Ok j else Raise IndexError.

Definition read_mem (s : vm) (address : Z) : result Z :=
  let address :=
    if bool_decide (address >= 65536) then address `mod` 65536 else address in
  j ← mem_slot address; Ok (default 0 (memory s !! j)).

Definition get_mem (address : Z) : M Z :=
  λ s, v ← read_mem s address; Ok (v, s).

Definition set_mem (address value : Z) : M unit :=
  λ s,
    let address :=
      if bool_decide (address >= 65536) then address - 65536 else address in
    j ← mem_slot address; Ok (tt, with_memory (<[j := value]> (memory s)) s).

Definition push (value : Z) : M unit :=
  sp <- gets stack_pointer ;;
  set_mem sp value ;;
  modify (λ s, with_stack_pointer (stack_pointer s + 1) s) ;;
  modify (λ s, with_stack (stack s ++ [value]) s).

Definition pop : M Z :=
  modify (λ s, with_stack_pointer (stack_pointer s - 1) s) ;;
  sp <- gets stack_pointer ;;
  value <- get_mem sp ;;
  modify (λ s, with_stack (removelast (stack s)) s) ;;
  ret value.

(** ** Strings and text substitution *)

Definition no_block_text : string := "[No string block loaded]".

Definition block_loaded (s : vm) : option (list string) :=
  match current_string_block s with
  | Some (x :: l) => Some (x :: l)
  | _ => None
  end.

Definition get_string_raw (s : vm) (string_id : Z) : string :=
  match block_loaded s with
  | None => no_block_text
  | Some block =>
      if bool_decide (0 ≤ string_id < Z.of_nat (length block))
      then default EmptyString (block !! Z.to_nat string_id)
      else "[Invalid string ID: " +:+ str string_id +:+ "]"
  end.

(** The longest prefix of decimal digits, and the rest. *)
Fixpoint span_digits (s : string) : string * string :=
  match s with
  | String c s' =>
      if bool_decide (48 ≤ ord c ≤ 57)
      then let '(d, r) := span_digits s' in (String c d, r)
      else (EmptyString, s)
  | EmptyString => (EmptyString, EmptyString)
  end.

(** A match of the pattern [@([GSP])([SI])(-?\d+)] at the start of [s]:
    the three groups and the text after the match. *)
Definition match_directive (s : string) : option (ascii * ascii * string * string) :=
  match s with
  | String "@" (String x (String y s')) =>
      if bool_decide (x = "G" ∨ x = "S" ∨ x = "P")%char
         && bool_decide (y = "S" ∨ y = "I")%char then
        let '(sign, s'') :=
          match s' with
          | String "-" t => ("-", t)
          | _ => (EmptyString, s')
          end in
        let '(d, r) := span_digits s'' in
        if bool_decide (d = EmptyString) then None else Some (x, y, sign +:+ d, r)
      else None
  | _ => None
  end.

(** The nested function [substitute_match]. *)
Definition substitute_match (s : vm) (source type_char : ascii) (digits : string)
    : string :=
  let full_match := String "@" (String source (String type_char digits)) in
  let num := match int digits 10 with Ok n => n | Raise _ => 0 end in
  let value : result Z :=
    if bool_decide (source = "S")%char then read_mem s (base_pointer s + num)
    else if bool_decide (source = "G")%char then read_mem s num
    else ptr_value ← read_mem s (base_pointer s + num); read_mem s ptr_value in
  match value with
  | Raise _ => "[ERROR:" +:+ full_match +:+ "]"
  | Ok value =>
      if bool_decide (type_char = "I")%char then str value
      else get_string_raw s value
  end.

(** [re.sub(pattern, substitute_match, text)] *)
Fixpoint substitute (s : vm) (fuel : nat) (text : string) : string :=
  match fuel with
  | O => text
  | S fuel' =>
      match match_directive text with
      | Some (x, y, d, rest) =>
          substitute_match s x y d +:+ substitute s fuel' rest
      | None =>
          match text with
          | String c text' => String c (substitute s fuel' text')
          | EmptyString => EmptyString
          end
      end
  end.

Definition process_text_substitutions (s : vm) (text : string) : string :=
  substitute s (S (String.length text)) text.

Definition get_string (s : vm) (string_id : Z) : string :=
  match block_loaded s with
  | None => no_block_text
  | Some block =>
      if bool_decide (0 ≤ string_id < Z.of_nat (length block))
      then process_text_substitutions s (default EmptyString (block !! Z.to_nat string_id))
      else "[Invalid string ID: " +:+ str string_id +:+ "]"
  end.

(** ** Opcode handlers *)

Definition advance (n : Z) : M unit := modify (λ s, with_pc (pc s + n) s).

(** [self.code[self.pc + 1]] *)
Definition operand : M Z := λ s, v ← index (code s) (pc s + 1); Ok (v, s).

Definition finish_conversation : M unit :=
  modify (with_finished true) ;;
  first <- gets first_memory_slot ;;
  slots <- gets memory_slots ;;
  for_each (range (Z.of_N (slots - first)))
    (λ i, get_mem (Z.of_N first + i) ;; ret tt).

Definition binary (f : Z → Z → Z) : M unit :=
  b <- pop ;; a <- pop ;; push (f a b) ;; advance 1.

Definition op_nop : M unit := advance 1.
Definition op_add : M unit := binary (λ a b, a + b).
Definition op_mul : M unit := binary (λ a b, a * b).
Definition op_sub : M unit := binary (λ a b, a - b).
Definition op_div : M unit :=
  binary (λ a b, if bool_decide (b = 0) then 0 else a `div` b).
Definition op_mod : M unit :=
  binary (λ a b, if bool_decide (b = 0) then 0 else a `mod` b).
Definition op_or : M unit := binary Z.lor.
Definition op_and : M unit := binary Z.land.
Definition op_not : M unit :=
  a <- pop ;; push (if bool_decide (a = 0) then 1 else 0) ;; advance 1.
Definition op_tstgt : M unit := binary (λ a b, if bool_decide (a > b) then 1 else 0).
Definition op_tstge : M unit := binary (λ a b, if bool_decide (a >= b) then 1 else 0).
Definition op_tstlt : M unit := binary (λ a b, if bool_decide (a < b) then 1 else 0).
Definition op_tstle : M unit := binary (λ a b, if bool_decide (a ≤ b) then 1 else 0).
Definition op_tsteq : M unit := binary (λ a b, if bool_decide (a = b) then 1 else 0).
Definition op_tstne : M unit := binary (λ a b, if bool_decide (a ≠ b) then 1 else 0).

Definition op_jmp : M unit :=
  target <- operand ;; modify (with_pc target).

Definition op_beq : M unit :=
  offset <- operand ;;
  value <- pop ;;
  if bool_decide (value = 0) then modify (λ s, with_pc (pc s + offset) s)
  else advance 2.

Definition op_bne : M unit :=
  offset <- operand ;;
  value <- pop ;;
  if bool_decide (value ≠ 0) then modify (λ s, with_pc (pc s + offset) s)
  else advance 2.

Definition op_bra : M unit :=
  offset <- operand ;; modify (λ s, with_pc (pc s + offset) s).

Definition op_call : M unit :=
  target <- operand ;;
  pc0 <- gets pc ;;
  push (pc0 + 2) ;;
  modify (with_pc target) ;;
  modify (λ s, with_call_level (call_level s + 1) s).

Definition op_calli (imported_functions : gmap Z (M unit)) : M unit :=
  func_id <- operand ;;
  match imported_functions !! func_id with
  | Some f => f
  | None => ret tt
  end ;;
  r <- gets result_register ;;
  push r ;;
  advance 2.

Definition op_ret : M unit :=
  modify (λ s, with_call_level (call_level s - 1) s) ;;
  level <- gets call_level ;;
  if bool_decide (level < 0) then finish_conversation
  else return_addr <- pop ;; modify (with_pc return_addr).

Definition op_pushi : M unit :=
  value <- operand ;; push value ;; advance 2.

Definition op_pushi_eff : M unit :=
  offset <- operand ;;
  bp <- gets base_pointer ;;
  let effective_addr :=
    if bool_decide (offset >= 0) then bp + offset else bp + (offset - 1) in
  push effective_addr ;; advance 2.

Definition op_pop : M unit := pop ;; advance 1.

Definition op_swap : M unit :=
  b <- pop ;; a <- pop ;; push b ;; push a ;; advance 1.

Definition op_pushbp : M unit :=
  bp <- gets base_pointer ;; push bp ;; advance 1.

Definition op_popbp : M unit :=
  new_bp <- pop ;; modify (with_base_pointer new_bp) ;; advance 1.

Definition op_sptobp : M unit :=
  modify (λ s, with_base_pointer (stack_pointer s) s) ;; advance 1.

(** The tracking list is cut with [self.stack.pop()] while it is longer than
    [stack_pointer - base_pointer]; a negative difference empties the list
    and then pops from the empty list. *)
Definition op_bptosp : M unit :=
  sp <- gets stack_pointer ;;
  bp <- gets base_pointer ;;
  (if bool_decide (sp - bp < 0) then raise IndexError
   else modify (λ s, with_stack (take (Z.to_nat (sp - bp)) (stack s)) s)) ;;
  modify (with_stack_pointer bp) ;;
  advance 1.

Definition op_addsp : M unit :=
  count <- pop ;;
  for_each (range (count + 1)) (λ _, push 0) ;;
  advance 1.

Definition op_fetchm : M unit :=
  addr <- pop ;; value <- get_mem addr ;; push value ;; advance 1.

Definition op_sto : M unit :=
  value <- pop ;; addr <- pop ;; set_mem addr value ;; advance 1.

Definition op_offset : M unit :=
  index <- pop ;; base_addr <- pop ;; push (base_addr + index - 1) ;; advance 1.

Definition op_start : M unit := advance 1.

Definition op_save_reg : M unit :=
  value <- pop ;; modify (with_result_register value) ;; advance 1.

Definition op_push_reg : M unit :=
  r <- gets result_register ;; push r ;; advance 1.

Definition op_exit_op : M unit := finish_conversation.

Definition op_say_op : M unit :=
  string_id <- pop ;;
  text <- gets (λ s, get_string s string_id) ;;
  (if bool_decide (text ≠ no_block_text)
   then modify (λ s, with_transcript (transcript s ++ [text]) s)
   else ret tt) ;;
  advance 1.

Definition op_opneg : M unit :=
  value <- pop ;; push (- value) ;; advance 1.

(** [self.opcode_handlers.get(opcode)] *)
Definition opcode_handlers (imported_functions : gmap Z (M unit)) (opcode : Z)
    : option (M unit) :=
  match opcode with
  | 0x00 => Some op_nop | 0x01 => Some op_add | 0x02 => Some op_mul
  | 0x03 => Some op_sub | 0x04 => Some op_div | 0x05 => Some op_mod
  | 0x06 => Some op_or | 0x07 => Some op_and | 0x08 => Some op_not
  | 0x09 => Some op_tstgt | 0x0A => Some op_tstge | 0x0B => Some op_tstlt
  | 0x0C => Some op_tstle | 0x0D => Some op_tsteq | 0x0E => Some op_tstne
  | 0x0F => Some op_jmp | 0x10 => Some op_beq | 0x11 => Some op_bne
  | 0x12 => Some op_bra | 0x13 => Some op_call
  | 0x14 => Some (op_calli imported_functions)
  | 0x15 => Some op_ret | 0x16 => Some op_pushi | 0x17 => Some op_pushi_eff
  | 0x18 => Some op_pop | 0x19 => Some op_swap | 0x1A => Some op_pushbp
  | 0x1B => Some op_popbp | 0x1C => Some op_sptobp | 0x1D => Some op_bptosp
  | 0x1E => Some op_addsp | 0x1F => Some op_fetchm | 0x20 => Some op_sto
  | 0x21 => Some op_offset | 0x22 => Some op_start | 0x23 => Some op_save_reg
  | 0x24 => Some op_push_reg | 0x26 => Some op_exit_op | 0x27 => Some op_say_op
  | 0x29 => Some op_opneg
  | _ => None
  end.

(** ** [execute] and [resume_conversation] *)

(** The condition of the loop in [execute]. *)
Definition running (s : vm) : bool :=
  negb (finished s) && negb (waiting_response s)
  && bool_decide (pc s < Z.of_nat (length (code s))).

(** One turn of the loop in [execute]. *)
Definition step (imported_functions : gmap Z (M unit)) : M unit :=
  pc0 <- gets pc ;;
  cd <- gets code ;;
  opcode <- lift (index cd pc0) ;;
  match opcode_handlers imported_functions opcode with
  | Some handler => handler
  | None => advance 1
  end ;;
  pc1 <- gets pc ;;
  if bool_decide (pc1 >= Z.of_nat (length cd)) then modify (with_finished true)
  else ret tt.

Fixpoint execute_loop (imported_functions : gmap Z (M unit)) (fuel : nat) (s : vm)
    : result vm :=
  match fuel with
  | O => Raise OutOfFuel
  | S fuel' =>
      if running s then
        match step imported_functions s with
        | Ok (_, s') => execute_loop imported_functions fuel' s'
        | Raise e => Raise e
        end
      else Ok s
  end.

Definition execute (imported_functions : gmap Z (M unit)) (fuel : nat) (s : vm)
    : result vm :=
  execute_loop imported_functions fuel (with_pc 0 s).

Definition resume_conversation (imported_functions : gmap Z (M unit)) (fuel : nat)
    (choice : option Z) (s : vm) : result vm :=
  let s := match choice with
           | Some c => with_result_register c s
           | None => s
           end in
  execute imported_functions fuel (with_waiting_response false s).

(** ** Imported functions *)

(** [input(prompt)] *)
Definition input : M string :=
  λ s, match stdin s with
       | [] => Raise EOFError
       | line :: rest => Ok (line, with_stdin rest s)
       end.

(** [int(input("> ") or "0")] *)
Definition input_int : M Z :=
  line <- input ;;
  lift (int (if bool_decide (line = EmptyString) then "0" else line) 10).

(** [input("> ").lower().startswith(c)] for a lower-case letter [c]. *)
Definition input_starts (c : ascii) : M bool :=
  line <- input ;;
  ret match line with
      | String c0 _ => bool_decide (lower_char c0 = c)
      | EmptyString => false
      end.

(** [random.randint(1, max_val)]: the next number of [random_source]
    selects the value in the range. *)
Definition randint (max_val : Z) : M Z :=
  if bool_decide (max_val < 1) then raise ValueError
  else λ s, match random_source s with
            | [] => Ok (1, s)
            | r :: rest => Ok (1 + r `mod` max_val, with_random_source rest s)
            end.

(** [len(self.string_block)]: the attribute is missing or holds an [int]. *)
Definition len_string_block {A} : M A :=
  λ s, match string_block s with
       | None => Raise AttributeError
       | Some _ => Raise TypeError
       end.

(** Number of cells [get_mem] visits before a loop over consecutive cells
    has seen the whole memory. *)
Definition scan_fuel : nat := Z.to_nat 65537.

(** The loop of [func_babl_menu] that reads the string ids up to the first
    0; returns [len(options)]. *)
Fixpoint menu_options (fuel : nat) (string_array_ptr i : Z) : M Z :=
  match fuel with
  | O => raise OutOfFuel
  | S fuel' =>
      string_id <- get_mem (string_array_ptr + i) ;;
      if bool_decide (string_id = 0) then ret i
      else menu_options fuel' string_array_ptr (i + 1)
  end.

Definition func_babl_menu : M unit :=
  num_args <- pop ;;
  string_array_ptr <- pop ;;
  n <- menu_options scan_fuel string_array_ptr 0 ;;
  modify (with_waiting_response true) ;;
  choice <- input ;;
  modify (with_result_register
            match int choice 10 with
            | Ok choice_num => if bool_decide (1 ≤ choice_num ≤ n) then choice_num else 1
            | Raise _ => 1
            end) ;;
  modify (with_waiting_response false).

(** The loop of [func_babl_fmenu]; returns [valid_indices]. *)
Fixpoint fmenu_options (fuel : nat) (string_array_ptr flag_array_ptr i : Z)
    (valid_indices : list Z) : M (list Z) :=
  match fuel with
  | O => raise OutOfFuel
  | S fuel' =>
      string_id <- get_mem (string_array_ptr + i) ;;
      if bool_decide (string_id = 0) then ret valid_indices
      else
        flag <- get_mem (flag_array_ptr + i) ;;
        fmenu_options fuel' string_array_ptr flag_array_ptr (i + 1)
          (if bool_decide (flag = 1) then valid_indices ++ [i + 1] else valid_indices)
  end.

Definition func_babl_fmenu : M unit :=
  num_args <- pop ;;
  string_array_ptr <- pop ;;
  flag_array_ptr <- pop ;;
  valid_indices <- fmenu_options scan_fuel string_array_ptr flag_array_ptr 0 [] ;;
  modify (with_waiting_response true) ;;
  choice <- input ;;
  let first := default 0 (head valid_indices) in
  modify (with_result_register
            match int choice 10 with
            | Ok choice_num =>
                if bool_decide (1 ≤ choice_num ≤ Z.of_nat (length valid_indices))
                then default 0 (valid_indices !! Z.to_nat (choice_num - 1))
                else first
            | Raise _ => first
            end) ;;
  modify (with_waiting_response false).

Definition func_print : M unit :=
  ptr_to_string_id <- pop ;;
  string_id <- get_mem ptr_to_string_id ;;
  if bool_decide (0 ≤ string_id) then len_string_block else ret tt.

Definition func_babl_ask : M unit :=
  modify (with_waiting_response true) ;;
  text <- input ;;
  modify (with_result_register 100) ;;
  modify (with_waiting_response false).

(** [func_compare] and [func_contains] *)
Definition func_compare : M unit :=
  ptr1 <- pop ;;
  ptr2 <- pop ;;
  string_id1 <- get_mem ptr1 ;;
  string_id2 <- get_mem ptr2 ;;
  if bool_decide (0 ≤ string_id1) then len_string_block
  else modify (with_result_register 0).

Definition func_contains : M unit := func_compare.

Definition func_random : M unit :=
  ptr <- pop ;;
  max_val <- get_mem ptr ;;
  r <- randint max_val ;;
  modify (with_result_register r).

Definition func_length : M unit :=
  ptr <- pop ;;
  string_id <- get_mem ptr ;;
  if bool_decide (0 ≤ string_id) then len_string_block
  else modify (with_result_register 0).

Definition func_get_quest : M unit :=
  ptr <- pop ;;
  quest_id <- get_mem ptr ;;
  value <- input_int ;;
  modify (with_result_register value).

(** Handlers that pop two pointers, read both cells and leave the result
    register alone: [func_set_quest], [func_give_ptr_npc],
    [func_set_inv_quality], [func_set_attitude]. *)
Definition pop2_read2 : M unit :=
  ptr1 <- pop ;; ptr2 <- pop ;; get_mem ptr1 ;; get_mem ptr2 ;; ret tt.

Definition func_set_quest : M unit := pop2_read2.

Definition func_sex : M unit :=
  ptr1 <- pop ;;
  ptr2 <- pop ;;
  female_str_id <- get_mem ptr1 ;;
  male_str_id <- get_mem ptr2 ;;
  male <- input_starts "m" ;;
  modify (with_result_register (if male : bool then male_str_id else female_str_id)).

Definition func_show_inv : M unit :=
  ptr1 <- pop ;;
  ptr2 <- pop ;;
  n <- input_int ;;
  let count := 4 `min` (0 `max` n) in
  for_each (range count)
    (λ i, obj_id <- input_int ;;
          set_mem (ptr2 + i) obj_id ;;
          set_mem (ptr1 + i) (750 + i)) ;;
  modify (with_result_register count).

Definition func_give_to_npc : M unit :=
  ptr1 <- pop ;;
  ptr2 <- pop ;;
  count <- get_mem ptr2 ;;
  accept <- input_starts "y" ;;
  modify (with_result_register (if accept : bool then 1 else 0)).

Definition func_give_ptr_npc : M unit := pop2_read2.

(** [func_take_from_npc] and [func_take_id_from_npc] *)
Definition func_take_from_npc : M unit :=
  ptr <- pop ;;
  item_id <- get_mem ptr ;;
  accept <- input_starts "y" ;;
  modify (with_result_register (if accept : bool then 1 else 2)).

Definition func_take_id_from_npc : M unit := func_take_from_npc.

(** [for _ in range(n): self.pop()] *)
Definition pops (n : Z) : M unit := for_each (range n) (λ _, pop ;; ret tt).

Definition func_identify_inv : M unit :=
  pops 4 ;; modify (with_result_register 0).

Definition func_do_offer : M unit :=
  pops 5 ;;
  accept <- input_starts "y" ;;
  modify (with_result_register (if accept : bool then 1 else 0)).

Definition func_do_demand : M unit :=
  ptr1 <- pop ;;
  ptr2 <- pop ;;
  unwilling_str_id <- get_mem ptr1 ;;
  willing_str_id <- get_mem ptr2 ;;
  accept <- input_starts "y" ;;
  modify (with_result_register (if accept : bool then 1 else 0)).

(** Handlers that pop one pointer, read its cell and store a constant in
    the result register. *)
Definition pop_read_set (r : Z) : M unit :=
  ptr <- pop ;; get_mem ptr ;; modify (with_result_register r).

Definition func_do_inv_create : M unit := pop_read_set 1000.

Definition func_do_inv_delete : M unit :=
  ptr <- pop ;; get_mem ptr ;; ret tt.

Definition func_check_inv_quality : M unit := pop_read_set 20.
Definition func_set_inv_quality : M unit := pop2_read2.
Definition func_count_inv : M unit := pop_read_set 5.

(** Handlers that only print. *)
Definition func_setup_to_barter : M unit := ret tt.
Definition func_end_barter : M unit := ret tt.
Definition func_do_judgement : M unit := ret tt.
Definition func_do_decline : M unit := ret tt.
Definition func_add_to_npc_inv : M unit := ret tt.
Definition func_remove_talker : M unit := ret tt.

Definition func_set_likes_dislikes : M unit := pops 2.

Definition func_gronk_door : M unit :=
  ptr1 <- pop ;; ptr2 <- pop ;; ptr3 <- pop ;;
  get_mem ptr1 ;; get_mem ptr2 ;; get_mem ptr3 ;;
  modify (with_result_register 1).

Definition func_set_race_attitude : M unit := pops 3.

Definition func_place_object : M unit :=
  ptr1 <- pop ;; ptr2 <- pop ;; ptr3 <- pop ;;
  get_mem ptr1 ;; get_mem ptr2 ;; get_mem ptr3 ;; ret tt.

Definition func_take_from_npc_inv : M unit := pop_read_set 500.
Definition func_set_attitude : M unit := pop2_read2.

Definition func_x_skills : M unit :=
  ptr1 <- pop ;; ptr2 <- pop ;; get_mem ptr1 ;; get_mem ptr2 ;;
  modify (with_result_register 10).

Definition func_x_traps : M unit :=
  ptr1 <- pop ;; ptr2 <- pop ;; get_mem ptr1 ;; get_mem ptr2 ;;
  modify (with_result_register 0).

Definition func_x_obj_stuff : M unit := pops 9.

Definition func_find_inv : M unit :=
  ptr1 <- pop ;; ptr2 <- pop ;; get_mem ptr1 ;; get_mem ptr2 ;;
  modify (with_result_register 0).

Definition func_find_barter : M unit := pop_read_set 0.

Definition func_find_barter_total : M unit :=
  pops 4 ;; modify (with_result_register 0).

(** [self.imported_functions] as [__init__] fills it. *)
Definition imported_functions : gmap Z (M unit) :=
  list_to_map
    [ (0, func_babl_menu); (1, func_babl_fmenu); (2, func_print);
      (3, func_babl_ask); (4, func_compare); (5, func_random);
      (7, func_contains); (11, func_length); (15, func_get_quest);
      (16, func_set_quest); (17, func_sex); (18, func_show_inv);
      (19, func_give_to_npc); (20, func_give_ptr_npc);
      (21, func_take_from_npc); (22, func_take_id_from_npc);
      (23, func_identify_inv); (24, func_do_offer); (25, func_do_demand);
      (26, func_do_inv_create); (27, func_do_inv_delete);
      (28, func_check_inv_quality); (29, func_set_inv_quality);
      (30, func_count_inv); (31, func_setup_to_barter); (32, func_end_barter);
      (33, func_do_judgement); (34, func_do_decline);
      (36, func_set_likes_dislikes); (37, func_gronk_door);
      (38, func_set_race_attitude); (39, func_place_object);
      (40, func_take_from_npc_inv); (41, func_add_to_npc_inv);
      (42, func_remove_talker); (43, func_set_attitude); (44, func_x_skills);
      (45, func_x_traps); (47, func_x_obj_stuff); (48, func_find_inv);
      (49, func_find_barter); (50, func_find_barter_total) ].

(** ** Loading: [initialize_memory], [load_string_blocks], [parse_asm] *)

Definition game_globals : list Z :=
  [0; 30; 0; 0; 30; 30; 3; 0; 0; 0; 0; 0; 32; 32; 0x010C; 0;
   30; 30; 0; 0; 8; 3; 0; 0; 0; 0; 1; 0; 1; 1; 1; 0].

Definition initialize_memory (s : vm) : vm :=
  let memory' :=
    foldl (λ m '(i, value), <[Z.of_nat i := value]> m) (memory s)
          (imap (λ i value, (i, value)) game_globals) in
  let count := N.of_nat (length game_globals) in
  let slots := (count + 32)%N in
  with_stack_pointer (Z.of_N slots + 512)
    (with_base_pointer (Z.of_N slots)
       (with_memory_slots slots
          (with_first_memory_slot count
             (with_imported_globals_count count
                (with_memory memory' s))))).

Definition set_string_block (block_id : Z) (s : vm) : vm :=
  match string_blocks s !! block_id with
  | Some block => with_string_block_id block_id (with_current_string_block (Some block) s)
  | None => s
  end.

(** [self.string_blocks[current_block_id] = current_block] under the guard
    [current_block_id is not None and current_block]. *)
Definition save_block (current_block_id : option Z) (current_block : list string)
    (blocks : gmap Z (list string)) : gmap Z (list string) :=
  match current_block_id, current_block with
  | Some id, _ :: _ => <[id := current_block]> blocks
  | _, _ => blocks
  end.

(** [a[1]] of a list of pieces. *)
Definition second (l : list string) : result string := index l 1.

(** The loop of [load_string_blocks].  The result is the dictionary together
    with [true] when the loop ran through, and with [false] when an
    exception ended it. *)
Fixpoint load_lines (lines : list string) (current_block_id : option Z)
    (current_block : list string) (blocks : gmap Z (list string))
    : gmap Z (list string) * bool :=
  match lines with
  | [] => (save_block current_block_id current_block blocks, true)
  | line :: lines' =>
      let line := strip line in
      if startswith line "block:" then
        let blocks := save_block current_block_id current_block blocks in
        let parts := strip (default EmptyString (head (split line ";"))) in
        match second (split parts ":") with
        | Raise _ => (blocks, false)
        | Ok id_str =>
            let id_str := strip id_str in
            match int id_str (if startswith id_str "0" then 16 else 10) with
            | Raise _ => (blocks, false)
            | Ok id => load_lines lines' (Some id) [EmptyString] blocks
            end
        end
      else
        match current_block_id with
        | Some _ =>
            if contains line ":" then
              match split_max line ":" 1 with
              | idx_str :: text :: _ =>
                  if isdigit (strip idx_str) then
                    match int (strip idx_str) 10 with
                    | Raise _ => (blocks, false)
                    | Ok idx =>
                        let n := Z.to_nat idx in
                        let extended :=
                          (current_block ++ replicate (S n - length current_block) EmptyString)%list in
                        load_lines lines' current_block_id
                          (<[n := strip text]> extended) blocks
                    end
                  else load_lines lines' current_block_id current_block blocks
              | _ => load_lines lines' current_block_id current_block blocks
              end
            else load_lines lines' current_block_id current_block blocks
        | None => load_lines lines' current_block_id current_block blocks
        end
  end.

(** [load_string_blocks] on the lines of the file. *)
Definition load_string_blocks (lines : list string) (s : vm) : vm :=
  with_string_blocks (fst (load_lines lines None [] (string_blocks s))) s.

(** [get_opcode] *)
Definition opcode_map : gmap string Z :=
  list_to_map
    [ ("NOP", 0x00); ("OPADD", 0x01); ("OPMUL", 0x02); ("OPSUB", 0x03);
      ("OPDIV", 0x04); ("OPMOD", 0x05); ("OPOR", 0x06); ("OPAND", 0x07);
      ("OPNOT", 0x08); ("TSTGT", 0x09); ("TSTGE", 0x0A); ("TSTLT", 0x0B);
      ("TSTLE", 0x0C); ("TSTEQ", 0x0D); ("TSTNE", 0x0E); ("JMP", 0x0F);
      ("BEQ", 0x10); ("BNE", 0x11); ("BRA", 0x12); ("CALL", 0x13);
      ("CALLI", 0x14); ("RET", 0x15); ("PUSHI", 0x16); ("PUSHI_EFF", 0x17);
      ("POP", 0x18); ("SWAP", 0x19); ("PUSHBP", 0x1A); ("POPBP", 0x1B);
      ("SPTOBP", 0x1C); ("BPTOSP", 0x1D); ("ADDSP", 0x1E); ("FETCHM", 0x1F);
      ("STO", 0x20); ("OFFSET", 0x21); ("START", 0x22); ("SAVE_REG", 0x23);
      ("PUSH_REG", 0x24); ("STRCMP", 0x25); ("EXIT_OP", 0x26);
      ("SAY_OP", 0x27); ("RESPOND_OP", 0x28); ("OPNEG", 0x29) ].

Definition get_opcode (opcode_name : string) : Z :=
  default 0 (opcode_map !! opcode_name).

(** [int(arg_str, base)] inside [try ... except ValueError: return 0]. *)
Definition int_or_0 (arg_str : string) (base : Z) : Z :=
  match int arg_str base with Ok v => v | Raise _ => 0 end.

Definition _resolve_argument (labels : gmap string Z) (arg_str opcode_name : string)
    (current_pc : Z) : Z :=
  let literal :=
    if startswith arg_str "0x" then int_or_0 arg_str 16 else int_or_0 arg_str 10 in
  match labels !! arg_str with
  | Some target_pos =>
      if bool_decide (opcode_name ∈ ["BEQ"; "BNE"; "BRA"])
      then target_pos - (current_pc + 2)
      else if bool_decide (opcode_name ∈ ["JMP"; "CALL"])
      then target_pos
      else literal
  | None => literal
  end.

(** A line that the two passes of [parse_asm] skip. *)
Definition skipped (line : string) : bool :=
  bool_decide (strip line = EmptyString) || startswith (strip line) ";".

(** A line that the two passes take for a label definition. *)
Definition is_label (line : string) : bool :=
  contains line ":" && negb (startswith line ";").

(** First pass: the labels. *)
Fixpoint first_pass (lines : list string) (pc : Z) (labels : gmap string Z)
    : gmap string Z :=
  match lines with
  | [] => labels
  | line :: lines' =>
      let line := strip line in
      if skipped line then first_pass lines' pc labels
      else if is_label line then
        let label := strip (default EmptyString (head (split line ":"))) in
        first_pass lines' pc (<[label := pc]> labels)
      else if negb (startswith line ";") then
        if contains line " " then first_pass lines' (pc + 2) labels
        else first_pass lines' (pc + 1) labels
      else first_pass lines' pc labels
  end.

(** Second pass: the code. *)
Fixpoint second_pass (labels : gmap string Z) (lines : list string) (pc : Z)
    (code : list Z) : list Z :=
  match lines with
  | [] => code
  | line :: lines' =>
      let line := strip line in
      if skipped line then second_pass labels lines' pc code
      else if is_label line then second_pass labels lines' pc code
      else if contains line " " then
        match split_max line " " 1 with
        | name :: arg :: _ =>
            let opcode_name := upper (strip name) in
            let arg_str := strip arg in
            let arg_str :=
              if contains arg_str ";"
              then strip (default EmptyString (head (split arg_str ";")))
              else arg_str in
            let opcode_val := get_opcode opcode_name in
            let arg_val := _resolve_argument labels arg_str opcode_name pc in
            second_pass labels lines' (pc + 2) (code ++ [opcode_val; arg_val])
        | _ => code
        end
      else
        second_pass labels lines' (pc + 1) (code ++ [get_opcode (upper line)])
  end.

(** The metadata of one of the first 20 lines. *)
Definition parse_metadata (line : string) (s : vm) : result vm :=
  let line := strip line in
  if contains line "; Slot:" then
    slot_str ← second (split line "Slot:");
    let slot_str := strip slot_str in
    s ← (if startswith slot_str "0x" then
           v ← int slot_str 16; Ok (with_slot_idx (Some v) s)
         else
           match slot_str with
           | EmptyString => Raise IndexError
           | String c _ =>
               if bool_decide (48 ≤ ord c ≤ 57) then
                 v ← int slot_str (if startswith slot_str "0" then 16 else 10);
                 Ok (with_slot_idx (Some v) s)
               else Ok s
           end);
    match slot_idx s with
    | Some _ => Ok s
    | None => Raise AttributeError
    end
  else if contains line "; String Block:" then
    block_str ← second (split line "String Block:");
    v ← int (strip block_str) 10;
    Ok (set_string_block v (with_string_block (Some v) s))
  else Ok s.

(** [parse_asm] on the lines of the file.  [Raise] stands for the path
    through the [except] clause, on which the function returns [False]. *)
Definition parse_asm (lines : list string) (s : vm) : result vm :=
  s ← foldl (λ r line, s ← r; parse_metadata line s) (Ok s) (take 20 lines);
  let labels := first_pass lines 0 ∅ in
  let s := with_labels labels s in
  Ok (with_code (second_pass labels lines 0 []) s).

End UltimaUnderworldVM.

(** * UWScript/uwscript_compiler.py: the code generator *)
Module UWScript.
Import Py.
Local Open Scope string_scope.
Local Open Scope Z_scope.
Local Open Scope list_scope.

(** The value of a [Literal] with the type of its token. *)
Inductive literal :=
  | NUMBER (value : Z)
  | STRING (value : string)
  | KEYWORD (value : bool).     (* [true] and [false] *)

(** The syntax trees that [Parser.parse] builds.  Each constructor carries
    the attributes that the code generator reads; the source positions of
    the tokens are left out.  [Lexer] and [Parser] are not part of the
    model: a program is given by its tree. *)
#[warnings="-register-all"] Inductive node :=
  | Program (children : list node)
  | VariableDeclaration (name : string) (value : node)
  | Assignment (target : node) (operator : string) (value : node)
  | IfStatement (condition : node) (true_branch false_branch : list node)
  | WhileStatement (condition : node) (body : list node)
  | FunctionDefinition (name : string) (parameters : list string) (body : list node)
  | FunctionCall (name : string) (arguments : list node)
  | ReturnStatement (value : option node)
  | SayStatement (value : node)
  | AskStatement (variable : option string)
  | MenuStatement (variable : option string) (items : list node)
  | FilterMenuStatement (variable : option string) (items flags : list node)
  | GotoStatement (label : string)
  | LabelStatement (name : string)
  | ExitStatement
  | BinaryOperation (op : string) (left right : node)
  | UnaryOperation (op : string) (operand : node)
  | Literal (value : literal)
  | Identifier (name : string)
  | ArrayLiteral (elements : list node)
  | ArrayAccess (array index : node).

(** A [dict] with [str] keys, in insertion order. *)
Definition dict (V : Type) : Type := list (string * V).

Fixpoint dict_get {V} (d : dict V) (k : string) : option V :=
  match d with
  | [] => None
  | (k', v) :: d' => if bool_decide (k' = k) then Some v else dict_get d' k
  end.

Fixpoint dict_set {V} (d : dict V) (k : string) (v : V) : dict V :=
  match d with
  | [] => [(k, v)]
  | (k', v') :: d' =>
      if bool_decide (k' = k) then (k, v) :: d' else (k', v') :: dict_set d' k v
  end.

(** ** [TempVariableManager] *)
Record TempVariableManager := {
  scoped_temp_vars : list (gset Z);    (* the sets [allocated_in_scope] *)
  allocated_temps : gset Z;
  call_depth : Z;
  freed_temps : gset Z;
}.

Definition base_temp_var : Z := 1000.

Definition temp_reset : TempVariableManager :=
  {| scoped_temp_vars := []; allocated_temps := ∅; call_depth := 0;
     freed_temps := ∅ |}.

Definition enter_scope (t : TempVariableManager) : TempVariableManager :=
  {| scoped_temp_vars := scoped_temp_vars t ++ [∅];
     allocated_temps := allocated_temps t;
     call_depth := call_depth t + 1;
     freed_temps := freed_temps t |}.

Definition exit_scope (t : TempVariableManager) : TempVariableManager :=
  match last (scoped_temp_vars t) with
  | None => t
  | Some scope =>
      {| scoped_temp_vars := removelast (scoped_temp_vars t);
         allocated_temps := allocated_temps t ∖ scope;
         call_depth := call_depth t - 1;
         freed_temps := freed_temps t ∪ scope |}
  end.

(** [self.scoped_temp_vars[-1]['allocated_in_scope'].add(temp_var)] *)
Definition add_to_scope (temp_var : Z) (scopes : list (gset Z)) : list (gset Z) :=
  match last scopes with
  | None => scopes
  | Some scope => removelast scopes ++ [scope ∪ {[temp_var]}]
  end.

(** [while temp_var in self.allocated_temps: temp_var += 1] *)
Fixpoint next_free (fuel : nat) (allocated : gset Z) (temp_var : Z) : Z :=
  match fuel with
  | O => temp_var
  | S fuel' =>
      if bool_decide (temp_var ∈ allocated)
      then next_free fuel' allocated (temp_var + 1)
      else temp_var
  end.

Definition allocate_temp_var (t : TempVariableManager) : Z * TempVariableManager :=
  match elements (freed_temps t) with
  | x :: l =>
      let temp_var := foldr Z.min x l in
      (temp_var,
       {| scoped_temp_vars := add_to_scope temp_var (scoped_temp_vars t);
          allocated_temps := allocated_temps t ∪ {[temp_var]};
          call_depth := call_depth t;
          freed_temps := freed_temps t ∖ {[temp_var]} |})
  | [] =>
      let temp_var :=
        next_free (S (size (allocated_temps t))) (allocated_temps t) base_temp_var in
      (temp_var,
       {| scoped_temp_vars := add_to_scope temp_var (scoped_temp_vars t);
          allocated_temps := allocated_temps t ∪ {[temp_var]};
          call_depth := call_depth t;
          freed_temps := freed_temps t |})
  end.

(** The entries of [get_stats] that the generator reads. *)
Definition total_ever_used (t : TempVariableManager) : Z :=
  Z.of_nat (size (allocated_temps t) + size (freed_temps t)).
Definition currently_allocated (t : TempVariableManager) : Z :=
  Z.of_nat (size (allocated_temps t)).
Definition max_temp_var (t : TempVariableManager) : Z :=
  match elements (allocated_temps t) with
  | x :: l => foldr Z.max x l
  | [] => base_temp_var - 1
  end.

(** ** [FunctionScope] *)
Record FunctionScope := {
  scope_name : string;
  scope_parameters : list string;
  local_variables : dict Z;
  next_local_offset : Z;
}.

(** [FunctionScope.__init__]: parameter [i] gets the offset [-(i + 2)]. *)
Definition new_scope (name : string) (parameters : list string) : FunctionScope :=
  {| scope_name := name;
     scope_parameters := parameters;
     local_variables :=
       foldl (λ d '(i, param), dict_set d param (- (Z.of_nat i + 2))) []
             (imap (λ i param, (i, param)) parameters);
     next_local_offset := 0 |}.

Definition allocate_local_var (name : string) (size : Z) (sc : FunctionScope)
    : Z * FunctionScope :=
  match dict_get (local_variables sc) name with
  | Some offset => (offset, sc)
  | None =>
      let offset := next_local_offset sc in
      (offset,
       {| scope_name := scope_name sc;
          scope_parameters := scope_parameters sc;
          local_variables := dict_set (local_variables sc) name offset;
          next_local_offset := next_local_offset sc + size |})
  end.

(** ** [CodeGenerator] *)
Inductive target := main_program_code_target | function_code_target.

Record gen := {
  string_literals : list string;
  labels : dict (option Z);
  label_counter : Z;
  global_variables : dict Z;
  functions : dict (list string);      (* the entry ['params'] *)
  function_scopes : dict FunctionScope;
  current_function : option string;
  next_global_var : Z;
  string_block : Z;
  vm_position : Z;
  variable_types : dict string;
  variable_sizes : dict Z;
  function_code : list string;
  main_program_code : list string;
  current_target : target;
  temp_var_manager : TempVariableManager;
}.

Definition with_string_literals (v : list string) (s : gen) : gen :=
  {| string_literals := v; labels := labels s; label_counter := label_counter s; global_variables := global_variables s; functions := functions s; function_scopes := function_scopes s; current_function := current_function s; next_global_var := next_global_var s; string_block := string_block s; vm_position := vm_position s; variable_types := variable_types s; variable_sizes := variable_sizes s; function_code := function_code s; main_program_code := main_program_code s; current_target := current_target s; temp_var_manager := temp_var_manager s |}.
Definition with_labels (v : dict (option Z)) (s : gen) : gen :=
  {| string_literals := string_literals s; labels := v; label_counter := label_counter s; global_variables := global_variables s; functions := functions s; function_scopes := function_scopes s; current_function := current_function s; next_global_var := next_global_var s; string_block := string_block s; vm_position := vm_position s; variable_types := variable_types s; variable_sizes := variable_sizes s; function_code := function_code s; main_program_code := main_program_code s; current_target := current_target s; temp_var_manager := temp_var_manager s |}.
Definition with_label_counter (v : Z) (s : gen) : gen :=
  {| string_literals := string_literals s; labels := labels s; label_counter := v; global_variables := global_variables s; functions := functions s; function_scopes := function_scopes s; current_function := current_function s; next_global_var := next_global_var s; string_block := string_block s; vm_position := vm_position s; variable_types := variable_types s; variable_sizes := variable_sizes s; function_code := function_code s; main_program_code := main_program_code s; current_target := current_target s; temp_var_manager := temp_var_manager s |}.
Definition with_global_variables (v : dict Z) (s : gen) : gen :=
  {| string_literals := string_literals s; labels := labels s; label_counter := label_counter s; global_variables := v; functions := functions s; function_scopes := function_scopes s; current_function := current_function s; next_global_var := next_global_var s; string_block := string_block s; vm_position := vm_position s; variable_types := variable_types s; variable_sizes := variable_sizes s; function_code := function_code s; main_program_code := main_program_code s; current_target := current_target s; temp_var_manager := temp_var_manager s |}.
Definition with_functions (v : dict (list string)) (s : gen) : gen :=
  {| string_literals := string_literals s; labels := labels s; label_counter := label_counter s; global_variables := global_variables s; functions := v; function_scopes := function_scopes s; current_function := current_function s; next_global_var := next_global_var s; string_block := string_block s; vm_position := vm_position s; variable_types := variable_types s; variable_sizes := variable_sizes s; function_code := function_code s; main_program_code := main_program_code s; current_target := current_target s; temp_var_manager := temp_var_manager s |}.
Definition with_function_scopes (v : dict FunctionScope) (s : gen) : gen :=
  {| string_literals := string_literals s; labels := labels s; label_counter := label_counter s; global_variables := global_variables s; functions := functions s; function_scopes := v; current_function := current_function s; next_global_var := next_global_var s; string_block := string_block s; vm_position := vm_position s; variable_types := variable_types s; variable_sizes := variable_sizes s; function_code := function_code s; main_program_code := main_program_code s; current_target := current_target s; temp_var_manager := temp_var_manager s |}.
Definition with_current_function (v : option string) (s : gen) : gen :=
  {| string_literals := string_literals s; labels := labels s; label_counter := label_counter s; global_variables := global_variables s; functions := functions s; function_scopes := function_scopes s; current_function := v; next_global_var := next_global_var s; string_block := string_block s; vm_position := vm_position s; variable_types := variable_types s; variable_sizes := variable_sizes s; function_code := function_code s; main_program_code := main_program_code s; current_target := current_target s; temp_var_manager := temp_var_manager s |}.
Definition with_next_global_var (v : Z) (s : gen) : gen :=
  {| string_literals := string_literals s; labels := labels s; label_counter := label_counter s; global_variables := global_variables s; functions := functions s; function_scopes := function_scopes s; current_function := current_function s; next_global_var := v; string_block := string_block s; vm_position := vm_position s; variable_types := variable_types s; variable_sizes := variable_sizes s; function_code := function_code s; main_program_code := main_program_code s; current_target := current_target s; temp_var_manager := temp_var_manager s |}.
Definition with_string_block (v : Z) (s : gen) : gen :=
  {| string_literals := string_literals s; labels := labels s; label_counter := label_counter s; global_variables := global_variables s; functions := functions s; function_scopes := function_scopes s; current_function := current_function s; next_global_var := next_global_var s; string_block := v; vm_position := vm_position s; variable_types := variable_types s; variable_sizes := variable_sizes s; function_code := function_code s; main_program_code := main_program_code s; current_target := current_target s; temp_var_manager := temp_var_manager s |}.
Definition with_vm_position (v : Z) (s : gen) : gen :=
  {| string_literals := string_literals s; labels := labels s; label_counter := label_counter s; global_variables := global_variables s; functions := functions s; function_scopes := function_scopes s; current_function := current_function s; next_global_var := next_global_var s; string_block := string_block s; vm_position := v; variable_types := variable_types s; variable_sizes := variable_sizes s; function_code := function_code s; main_program_code := main_program_code s; current_target := current_target s; temp_var_manager := temp_var_manager s |}.
Definition with_variable_types (v : dict string) (s : gen) : gen :=
  {| string_literals := string_literals s; labels := labels s; label_counter := label_counter s; global_variables := global_variables s; functions := functions s; function_scopes := function_scopes s; current_function := current_function s; next_global_var := next_global_var s; string_block := string_block s; vm_position := vm_position s; variable_types := v; variable_sizes := variable_sizes s; function_code := function_code s; main_program_code := main_program_code s; current_target := current_target s; temp_var_manager := temp_var_manager s |}.
Definition with_variable_sizes (v : dict Z) (s : gen) : gen :=
  {| string_literals := string_literals s; labels := labels s; label_counter := label_counter s; global_variables := global_variables s; functions := functions s; function_scopes := function_scopes s; current_function := current_function s; next_global_var := next_global_var s; string_block := string_block s; vm_position := vm_position s; variable_types := variable_types s; variable_sizes := v; function_code := function_code s; main_program_code := main_program_code s; current_target := current_target s; temp_var_manager := temp_var_manager s |}.
Definition with_function_code (v : list string) (s : gen) : gen :=
  {| string_literals := string_literals s; labels := labels s; label_counter := label_counter s; global_variables := global_variables s; functions := functions s; function_scopes := function_scopes s; current_function := current_function s; next_global_var := next_global_var s; string_block := string_block s; vm_position := vm_position s; variable_types := variable_types s; variable_sizes := variable_sizes s; function_code := v; main_program_code := main_program_code s; current_target := current_target s; temp_var_manager := temp_var_manager s |}.
Definition with_main_program_code (v : list string) (s : gen) : gen :=
  {| string_literals := string_literals s; labels := labels s; label_counter := label_counter s; global_variables := global_variables s; functions := functions s; function_scopes := function_scopes s; current_function := current_function s; next_global_var := next_global_var s; string_block := string_block s; vm_position := vm_position s; variable_types := variable_types s; variable_sizes := variable_sizes s; function_code := function_code s; main_program_code := v; current_target := current_target s; temp_var_manager := temp_var_manager s |}.
Definition with_current_target (v : target) (s : gen) : gen :=
  {| string_literals := string_literals s; labels := labels s; label_counter := label_counter s; global_variables := global_variables s; functions := functions s; function_scopes := function_scopes s; current_function := current_function s; next_global_var := next_global_var s; string_block := string_block s; vm_position := vm_position s; variable_types := variable_types s; variable_sizes := variable_sizes s; function_code := function_code s; main_program_code := main_program_code s; current_target := v; temp_var_manager := temp_var_manager s |}.
Definition with_temp_var_manager (v : TempVariableManager) (s : gen) : gen :=
  {| string_literals := string_literals s; labels := labels s; label_counter := label_counter s; global_variables := global_variables s; functions := functions s; function_scopes := function_scopes s; current_function := current_function s; next_global_var := next_global_var s; string_block := string_block s; vm_position := vm_position s; variable_types := variable_types s; variable_sizes := variable_sizes s; function_code := function_code s; main_program_code := main_program_code s; current_target := current_target s; temp_var_manager := v |}.

Definition builtin_functions : dict Z :=
  [ ("random", 5); ("get_quest", 15); ("set_quest", 16); ("compare", 4);
    ("string_length", 11); ("contains", 7); ("gronk_door", 37);
    ("clear_screen", 100); ("set_pixel", 101); ("draw_line", 102);
    ("draw_rect", 103); ("fill_rect", 104); ("draw_circle", 105);
    ("draw_sprite", 106); ("print", 107); ("flip_display", 109);
    ("play_tone", 200); ("is_key_pressed", 300); ("is_key_released", 301);
    ("math_sin", 501); ("math_cos", 502); ("math_sqrt", 503) ].

(** [CodeGenerator.__init__] *)
Definition new_gen : gen :=
  {| string_literals := []; labels := []; label_counter := 0;
     global_variables := []; functions := []; function_scopes := [];
     current_function := None; next_global_var := 0; string_block := 1;
     vm_position := 0; variable_types := []; variable_sizes := [];
     function_code := []; main_program_code := [];
     current_target := main_program_code_target;
     temp_var_manager := temp_reset |}.

(** [line.endswith(':')] *)
Fixpoint ends_with_colon (line : string) : bool :=
  match line with
  | String c EmptyString => bool_decide (c = ":"%char)
  | String _ line' => ends_with_colon line'
  | EmptyString => false
  end.

Definition append_line (line : string) (g : gen) : gen :=
  match current_target g with
  | main_program_code_target => with_main_program_code (main_program_code g ++ [line]) g
  | function_code_target => with_function_code (function_code g ++ [line]) g
  end.

Definition _emit (line : string) (g : gen) : gen :=
  let g := append_line line g in
  if ends_with_colon line then g
  else if contains line " " then with_vm_position (vm_position g + 2) g
  else with_vm_position (vm_position g + 1) g.

Definition _emit_label (name : string) (g : gen) : gen :=
  let g := append_line (name +:+ ":") g in
  with_labels (dict_set (labels g) name (Some (vm_position g))) g.

Definition _create_label (g : gen) : string * gen :=
  let label := "label_" +:+ str (label_counter g) in
  (label,
   with_labels (dict_set (labels g) label None)
     (with_label_counter (label_counter g + 1) g)).

(** The scope of the function being generated, when
    [self.current_function and self.current_function in self.function_scopes]. *)
Definition current_scope (g : gen) : option (string * FunctionScope) :=
  match current_function g with
  | Some f =>
      if bool_decide (f = EmptyString) then None
      else sc ← dict_get (function_scopes g) f; Some (f, sc)
  | None => None
  end.

Definition _get_variable_offset (g : gen) (name : string) : option Z :=
  match current_scope g ≫= (λ '(_, sc), dict_get (local_variables sc) name) with
  | Some offset => Some offset
  | None => dict_get (global_variables g) name
  end.

Definition _allocate_variable (name : string) (size : Z) (g : gen) : Z * gen :=
  match current_scope g with
  | Some (f, sc) =>
      let '(offset, sc') := allocate_local_var name size sc in
      (offset, with_function_scopes (dict_set (function_scopes g) f sc') g)
  | None =>
      match dict_get (global_variables g) name with
      | Some offset => (offset, g)
      | None =>
          let offset := next_global_var g in
          (offset,
           with_next_global_var (next_global_var g + size)
             (with_global_variables (dict_set (global_variables g) name offset) g))
      end
  end.

(** [for x in l: g = f(x, g)] *)
Definition for_nodes {A} (f : A → gen → gen) : list A → gen → gen :=
  fix go (l : list A) (g : gen) : gen :=
    match l with
    | [] => g
    | x :: l' => go l' (f x g)
    end.

(** [node.children] *)
Definition children_of (n : node) : list node :=
  match n with
  | Program children => children
  | VariableDeclaration _ value => [value]
  | Assignment _ _ value => [value]
  | ReturnStatement (Some value) => [value]
  | SayStatement value => [value]
  | _ => []
  end.

(** [_first_pass] *)
Fixpoint _first_pass (n : node) (g : gen) {struct n} : gen :=
  match n with
  | FunctionDefinition name parameters body =>
      let g := with_functions (dict_set (functions g) name parameters) g in
      let g :=
        with_function_scopes
          (dict_set (function_scopes g) name (new_scope name parameters)) g in
      for_nodes (λ c g, _first_pass c g) body g
  | _ =>
      (* the first chain of tests *)
      let g :=
        match n with
        | Program children =>
            let g := with_next_global_var 0 (with_global_variables [] g) in
            for_nodes (λ c g, _first_pass c g) children g
        | LabelStatement name => with_labels (dict_set (labels g) name None) g
        | Literal (STRING value) =>
            if bool_decide (value ∈ string_literals g) then g
            else with_string_literals (string_literals g ++ [value]) g
        | SayStatement value => _first_pass value g
        | BinaryOperation _ lhs rhs => _first_pass rhs (_first_pass lhs g)
        | UnaryOperation _ operand => _first_pass operand g
        | ArrayLiteral elements => for_nodes (λ c g, _first_pass c g) elements g
        | ArrayAccess array index => _first_pass index (_first_pass array g)
        | MenuStatement _ items => for_nodes (λ c g, _first_pass c g) items g
        | FilterMenuStatement _ items flags =>
            for_nodes (λ c g, _first_pass c g) flags (for_nodes (λ c g, _first_pass c g) items g)
        | _ => g
        end in
      (* [for child in node.children] *)
      let g :=
        match n with
        | Program children => for_nodes (λ c g, _first_pass c g) children g
        | VariableDeclaration _ value => _first_pass value g
        | Assignment _ _ value => _first_pass value g
        | ReturnStatement (Some value) => _first_pass value g
        | SayStatement value => _first_pass value g
        | _ => g
        end in
      (* the second chain of tests *)
      match n with
      | IfStatement condition true_branch false_branch =>
          for_nodes (λ c g, _first_pass c g) false_branch
            (for_nodes (λ c g, _first_pass c g) true_branch (_first_pass condition g))
      | WhileStatement condition body =>
          for_nodes (λ c g, _first_pass c g) body (_first_pass condition g)
      | FunctionCall _ arguments => for_nodes (λ c g, _first_pass c g) arguments g
      | VariableDeclaration _ value => _first_pass value g
      | Assignment _ _ value => _first_pass value g
      | ReturnStatement (Some value) => _first_pass value g
      | _ => g
      end
  end.

(** [for x in l: body(x)] over a state that can raise. *)
Definition for_in {A S} (f : A → S → result S) : list A → S → result S :=
  fix go (l : list A) (s : S) : result S :=
    match l with
    | [] => Ok s
    | x :: l' => s' ← f x s; go l' s'
    end.

(** [for x in reversed(l): body(x)] *)
Definition for_reversed {A S} (f : A → S → result S) : list A → S → result S :=
  fix go (l : list A) (s : S) : result S :=
    match l with
    | [] => Ok s
    | x :: l' => s' ← go l' s; f x s'
    end.

(** [for i, x in enumerate(l): body(i, x)], counting from [i]. *)
Definition for_enumerate {A S} (f : Z → A → S → result S)
    : list A → Z → S → result S :=
  fix go (l : list A) (i : Z) (s : S) : result S :=
    match l with
    | [] => Ok s
    | x :: l' => s' ← f i x s; go l' (i + 1) s'
    end.

(** [for i, (x, y) in enumerate(zip(l, k)): body(i, x, y)] *)
Definition for_zip {A S} (f : Z → A → A → S → result S)
    : list A → list A → Z → S → result S :=
  fix go (l k : list A) (i : Z) (s : S) : result S :=
    match l, k with
    | x :: l', y :: k' => s' ← f i x y s; go l' k' (i + 1) s'
    | _, _ => Ok s
    end.

Definition emits (lines : list string) (g : gen) : gen :=
  foldl (λ g line, _emit line g) g lines.

(** [PUSHI_EFF var; SWAP; STO] *)
Definition emit_store (var_id : Z) (g : gen) : gen :=
  emits ["PUSHI_EFF " +:+ str var_id; "SWAP"; "STO"] g.

(** The tail of the menu, filtermenu and ask statements:
    [if node.variable: ...]. *)
Definition store_result (variable : option string) (g : gen) : gen :=
  match variable with
  | None => g
  | Some v =>
      if bool_decide (v = EmptyString) then g
      else
        let '(var_id, g) := _allocate_variable v 1 g in
        emit_store var_id (_emit "PUSH_REG" g)
  end.

Definition with_temps (f : TempVariableManager → TempVariableManager) (g : gen) : gen :=
  with_temp_var_manager (f (temp_var_manager g)) g.

Definition alloc_temp (g : gen) : Z * gen :=
  let '(temp_var, t) := allocate_temp_var (temp_var_manager g) in
  (temp_var, with_temp_var_manager t g).

(** [self.string_literals.index(x)] *)
Fixpoint list_index (l : list string) (x : string) (i : Z) : result Z :=
  match l with
  | [] => Raise ValueError
  | y :: l' => if bool_decide (y = x) then Ok i else list_index l' x (i + 1)
  end.

(** The replacement of [original_string] by [substituted_string] in
    [self.string_literals], or its addition at the end; returns
    [string_idx]. *)
Definition substitute_literal (original_string substituted_string : string) (g : gen)
    : Z * gen :=
  match list_index (string_literals g) original_string 0 with
  | Ok string_idx =>
      (string_idx,
       with_string_literals
         (<[Z.to_nat string_idx := substituted_string]> (string_literals g)) g)
  | Raise _ =>
      let l := string_literals g ++ [substituted_string] in
      (Z.of_nat (length l) - 1, with_string_literals l g)
  end.

(** [@SS] for a variable of type ['string'], [@SI] otherwise. *)
Definition subst_type (g : gen) (name : string) : string :=
  if bool_decide (default "integer" (dict_get (variable_types g) name) = "string")
  then "SS" else "SI".

Definition is_concat (n : node) : bool :=
  match n with
  | BinaryOperation op _ _ => bool_decide (op = "+")
  | _ => false
  end.

(** The instruction of a binary operator, if it has one. *)
Definition binary_opcode (op : string) : option string :=
  dict_get
    [ ("+", "OPADD"); ("-", "OPSUB"); ("*", "OPMUL"); ("/", "OPDIV");
      ("%", "OPMOD"); ("==", "TSTEQ"); ("!=", "TSTNE"); ("<", "TSTLT");
      (">", "TSTGT"); ("<=", "TSTLE"); (">=", "TSTGE"); ("and", "OPAND");
      ("or", "OPOR") ] op.

Definition emit_opt (line : option string) (g : gen) : gen :=
  match line with Some l => _emit l g | None => g end.

Definition is_return (n : node) : bool :=
  match n with ReturnStatement _ => true | _ => false end.

(** [_generate_function_code]; [generate_body] generates the statements of
    the body. *)
Definition _generate_function_code (generate_body : gen → result gen)
    (name : string) (parameters : list string) (body : list node) (g : gen)
    : result gen :=
  let g := _emit_label name g in
  let g :=
    match parameters with
    | [] => g
    | _ => emits ["PUSHBP"; "SPTOBP"; "PUSHI 10"; "ADDSP"] g
    end in
  g ← generate_body g;
  if match last body with Some stmt => negb (is_return stmt) | None => true end then
    let g :=
      match parameters with
      | [] => g
      | _ => emits ["BPTOSP"; "POPBP"] g
      end in
    Ok (_emit "RET" g)
  else Ok g.

(** [_generate_code] *)
Fixpoint _generate_code (n : node) (g : gen) {struct n} : result gen :=
  match n with
  | Program children =>
      let g := _emit "START" g in
      g ← for_in
             (λ child g,
                match child with
                | FunctionDefinition name parameters body =>
                    let old_target := current_target g in
                    let old_function := current_function g in
                    let g := with_current_function (Some name)
                               (with_current_target function_code_target g) in
                    g ← _generate_function_code
                           (for_in (λ stmt g, _generate_code stmt g) body)
                           name parameters body g;
                    Ok (with_current_function old_function
                          (with_current_target old_target g))
                | _ => _generate_code child g
                end)
             children g;
      Ok (_emit "EXIT_OP" g)

  | VariableDeclaration name value =>
      g ← _generate_code value g;
      match value with
      | ArrayLiteral elements =>
          let array_size := Z.of_nat (length elements) in
          let '(var_id, g) := _allocate_variable name array_size g in
          let g := with_variable_types (dict_set (variable_types g) name "array") g in
          let g := with_variable_sizes (dict_set (variable_sizes g) name array_size) g in
          Ok (foldl (λ g i, emit_store (var_id + i) g) g
                    (Z.of_nat <$> seq 0 (length elements)))
      | _ =>
          let type :=
            match value with
            | Literal (STRING _) => "string"
            | _ => "integer"
            end in
          let g := with_variable_types (dict_set (variable_types g) name type) g in
          let '(var_id, g) := _allocate_variable name 1 g in
          Ok (emit_store var_id g)
      end

  | Assignment target operator value =>
      g ← _generate_code value g;
      match target with
      | Identifier name =>
          match _get_variable_offset g name with
          | None => Raise NameError
          | Some var_id =>
              if bool_decide (operator = "=") then Ok (emit_store var_id g)
              else
                let g := emits ["PUSHI_EFF " +:+ str var_id; "FETCHM"; "SWAP"] g in
                let g :=
                  emit_opt
                    (dict_get [ ("+=", "OPADD"); ("-=", "OPSUB");
                                ("*=", "OPMUL"); ("/=", "OPDIV") ] operator) g in
                Ok (emit_store var_id g)
          end
      | ArrayAccess array index =>
          match array with
          | Identifier array_name =>
              match _get_variable_offset g array_name with
              | None => Raise NameError
              | Some var_id =>
                  if bool_decide (dict_get (variable_types g) array_name ≠ Some "array")
                  then Raise TypeError
                  else
                    g ← _generate_code index g;
                    Ok (emits ["PUSHI " +:+ str var_id; "OPADD"; "SWAP"; "STO"] g)
              end
          | _ => Raise SyntaxError
          end
      | _ => Raise SyntaxError
      end

  | IfStatement condition true_branch false_branch =>
      let '(else_label, g) := _create_label g in
      let '(end_label, g) := _create_label g in
      g ← _generate_code condition g;
      let g := _emit ("BEQ " +:+ else_label) g in
      g ← for_in (λ stmt g, _generate_code stmt g) true_branch g;
      let g := _emit ("JMP " +:+ end_label) g in
      let g := _emit_label else_label g in
      g ← for_in (λ stmt g, _generate_code stmt g) false_branch g;
      Ok (_emit_label end_label g)

  | WhileStatement condition body =>
      let '(start_label, g) := _create_label g in
      let '(end_label, g) := _create_label g in
      let g := _emit_label start_label g in
      g ← _generate_code condition g;
      let g := _emit ("BEQ " +:+ end_label) g in
      g ← for_in (λ stmt g, _generate_code stmt g) body g;
      let g := _emit ("JMP " +:+ start_label) g in
      Ok (_emit_label end_label g)

  | FunctionCall name arguments =>
      match dict_get builtin_functions name with
      | Some id =>
          let g := with_temps enter_scope g in
          '(g, temp_vars) ←
            for_in
              (λ arg '(g, temp_vars),
                 let '(temp_var, g) := alloc_temp g in
                 g ← _generate_code arg g;
                 Ok (emit_store temp_var g, temp_vars ++ [temp_var]))
              arguments (g, []);
          let g := foldl (λ g temp_var, _emit ("PUSHI_EFF " +:+ str temp_var) g)
                         g temp_vars in
          let g := _emit ("PUSHI " +:+ str (Z.of_nat (length arguments))) g in
          let g := _emit ("CALLI " +:+ str id) g in
          Ok (with_temps exit_scope g)
      | None =>
          match dict_get (functions g) name with
          | None => Raise NameError
          | Some _ =>
              g ← for_in (λ arg g, _generate_code arg g) arguments g;
              let g := _emit ("CALL " +:+ name) g in
              let func_params := default [] (dict_get (functions g) name) in
              Ok (foldl (λ g _, _emit "POP" g) g func_params)
          end
      end

  | ReturnStatement value =>
      g ← match value with
          | Some v => _generate_code v g
          | None => Ok (_emit "PUSHI 0" g)
          end;
      Ok (emits ["BPTOSP"; "POPBP"; "RET"] g)

  | SayStatement value =>
      g ← _generate_code value g;
      Ok (_emit "SAY_OP" g)

  | AskStatement variable =>
      Ok (store_result variable (emits ["PUSHI 0"; "CALLI 3"] g))

  | MenuStatement variable items =>
      let g := with_temps enter_scope g in
      let '(array_var, g) := alloc_temp g in
      let store_at (i : Z) (g : gen) : gen :=
        emits ["PUSHI_EFF " +:+ str array_var; "PUSHI " +:+ str i; "OPADD";
               "SWAP"; "STO"] g in
      g ← for_enumerate
             (λ i item g, g ← _generate_code item g; Ok (store_at i g))
             items 0 g;
      let g := store_at (Z.of_nat (length items)) (_emit "PUSHI 0" g) in
      let g := emits ["PUSHI_EFF " +:+ str array_var; "PUSHI 1"; "CALLI 0"] g in
      Ok (with_temps exit_scope (store_result variable g))

  | FilterMenuStatement variable items flags =>
      let g := with_temps enter_scope g in
      let '(strings_var, g) := alloc_temp g in
      let '(flags_var, g) := alloc_temp g in
      let store_at (var i : Z) (g : gen) : gen :=
        emits ["PUSHI_EFF " +:+ str var; "PUSHI " +:+ str i; "OPADD";
               "SWAP"; "STO"] g in
      g ← for_zip
             (λ i (item flag : gen → result gen) g,
                g ← item g;
                g ← flag (store_at strings_var i g);
                Ok (store_at flags_var i g))
             (List.map (λ item g, _generate_code item g) items)
             (List.map (λ flag g, _generate_code flag g) flags) 0 g;
      let g := store_at strings_var (Z.of_nat (length items)) (_emit "PUSHI 0" g) in
      let g := emits ["PUSHI_EFF " +:+ str flags_var;
                      "PUSHI_EFF " +:+ str strings_var; "PUSHI 2"; "CALLI 1"] g in
      Ok (with_temps exit_scope (store_result variable g))

  | GotoStatement label =>
      match dict_get (labels g) label with
      | None => Raise NameError
      | Some _ => Ok (_emit ("JMP " +:+ label) g)
      end

  | LabelStatement name => Ok (_emit_label name g)

  | ExitStatement => Ok (_emit "EXIT_OP" g)

  | ArrayLiteral elements =>
      for_reversed (λ element g, _generate_code element g) elements g

  | ArrayAccess array index =>
      match array with
      | Identifier array_name =>
          match _get_variable_offset g array_name with
          | None => Raise NameError
          | Some var_id =>
              match dict_get (variable_types g) array_name with
              | Some var_type =>
                  if bool_decide (var_type ≠ "array") then Raise TypeError
                  else
                    g ← _generate_code index g;
                    Ok (emits ["PUSHI " +:+ str var_id; "OPADD"; "FETCHM"] g)
              | None =>
                  g ← _generate_code index g;
                  Ok (emits ["PUSHI " +:+ str var_id; "OPADD"; "FETCHM"] g)
              end
          end
      | _ => Raise SyntaxError
      end

  | BinaryOperation op lhs rhs =>
      let fallback (g : gen) : result gen :=
        g ← _generate_code lhs g;
        g ← _generate_code rhs g;
        Ok (emit_opt (binary_opcode op) g) in
      if bool_decide (op = "+") then
        if is_concat lhs || is_concat rhs then
          g ← _generate_code lhs g;
          g ← _generate_code rhs g;
          Ok (_emit "OPADD" g)
        else
          match lhs, rhs with
          | Literal (STRING original_string), Identifier name =>
              match _get_variable_offset g name with
              | Some var_offset =>
                  let substituted_string :=
                    original_string +:+ "@" +:+ subst_type g name +:+ str var_offset in
                  let '(string_idx, g) :=
                    substitute_literal original_string substituted_string g in
                  Ok (_emit ("PUSHI " +:+ str string_idx) g)
              | None => fallback g
              end
          | Identifier name, Literal (STRING original_string) =>
              match _get_variable_offset g name with
              | Some var_offset =>
                  let substituted_string :=
                    "@" +:+ subst_type g name +:+ str var_offset +:+ original_string in
                  let '(string_idx, g) :=
                    substitute_literal original_string substituted_string g in
                  Ok (_emit ("PUSHI " +:+ str string_idx) g)
              | None => fallback g
              end
          | _, _ => fallback g
          end
      else fallback g

  | UnaryOperation op operand =>
      g ← _generate_code operand g;
      Ok (emit_opt (dict_get [("-", "OPNEG"); ("not", "OPNOT")] op) g)

  | Literal (NUMBER value) => Ok (_emit ("PUSHI " +:+ str value) g)
  | Literal (STRING value) =>
      string_idx ← list_index (string_literals g) value 0;
      Ok (_emit ("PUSHI " +:+ str string_idx) g)
  | Literal (KEYWORD value) =>
      Ok (_emit ("PUSHI " +:+ (if value then "1" else "0")) g)

  | Identifier name =>
      match _get_variable_offset g name with
      | None => Raise NameError
      | Some var_id =>
          if bool_decide (dict_get (variable_types g) name = Some "array")
          then Ok (emits ["PUSHBP"; "PUSHI " +:+ str var_id; "OPADD"] g)
          else Ok (emits ["PUSHI_EFF " +:+ str var_id; "FETCHM"] g)
      end

  | FunctionDefinition _ _ _ => Ok g
  end.

(** The double quote and the line feed as strings. *)
Definition dquote : string := String (ascii_of_nat 34) EmptyString.
Definition newline : string := String (ascii_of_nat 10) EmptyString.

(** [repr(l)] for a list of identifiers. *)
Definition repr_names (l : list string) : string :=
  "[" +:+ String.concat ", " ((λ x, "'" +:+ x +:+ "'") <$> l) +:+ "]".

(** [_format_code]; the result is the list that is joined with newlines. *)
Definition _format_code (code : list string) (g : gen) : list string :=
  [ "; UWScript compiled to UW assembly - ENHANCED VERSION with Function Parameters";
    "; String Block: " +:+ str (string_block g);
    "; String literals:" ]
  ++ imap (λ i string, "; " +:+ str (Z.of_nat i) +:+ ": " +:+ dquote +:+ string +:+ dquote)
          (string_literals g)
  ++ [ EmptyString; "; Global Variables:" ]
  ++ ((λ '(name, offset),
         let var_type := default "integer" (dict_get (variable_types g) name) in
         if bool_decide (var_type = "array") then
           "; " +:+ name +:+ " -> " +:+ str offset +:+ " (array["
                +:+ str (default 0 (dict_get (variable_sizes g) name)) +:+ "])"
         else "; " +:+ name +:+ " -> " +:+ str offset +:+ " (" +:+ var_type +:+ ")")
        <$> global_variables g)
  ++ [ EmptyString; "; Function Scopes:" ]
  ++ concat
       ((λ '(func_name, scope),
           [ "; Function " +:+ func_name +:+ ":";
             ";   Parameters: " +:+ repr_names (scope_parameters scope) ]
           ++ ((λ '(var_name, offset),
                  ";   " +:+ var_name +:+ " -> " +:+ str offset +:+
                  (if bool_decide (var_name ∈ scope_parameters scope)
                   then " (parameter)" else " (local)"))
                 <$> local_variables scope))
          <$> function_scopes g)
  ++ [ EmptyString;
       "; Temp variables - Total used: " +:+ str (total_ever_used (temp_var_manager g));
       "; Temp variables - Currently allocated: "
         +:+ str (currently_allocated (temp_var_manager g));
       "; Temp variables - Max temp var: " +:+ str (max_temp_var (temp_var_manager g));
       EmptyString ]
  ++ code.

(** [while self.temp_var_manager.call_depth > 0: exit_scope()] *)
Fixpoint close_scopes (fuel : nat) (t : TempVariableManager) : TempVariableManager :=
  match fuel with
  | O => t
  | S fuel' => if bool_decide (call_depth t > 0) then close_scopes fuel' (exit_scope t) else t
  end.

(** [generate]; returns the lines of the assembly text and the generator. *)
Definition generate (ast : node) (string_block : Z) (g : gen)
    : result (list string * gen) :=
  let g := with_current_target main_program_code_target
             (with_string_block string_block g) in
  let g := with_temp_var_manager temp_reset g in
  let g := _first_pass ast g in
  let g := if bool_decide (total_ever_used (temp_var_manager g) > 0)
           then with_temp_var_manager temp_reset g else g in
  g ← _generate_code ast g;
  let g := with_temps (λ t, close_scopes (Z.to_nat (call_depth t)) t) g in
  let code := main_program_code g ++ function_code g in
  Ok (_format_code code g, g).

(** [s.replace(a, b)] for a character [a]. *)
Fixpoint replace_char (a : ascii) (b : string) (s : string) : string :=
  match s with
  | String c s' =>
      if bool_decide (c = a) then b +:+ replace_char a b s'
      else String c (replace_char a b s')
  | EmptyString => EmptyString
  end.

(** The hexadecimal digits of [n], lower case. *)
Fixpoint hex_digits (fuel : nat) (n : Z) (acc : string) : string :=
  match fuel with
  | O => acc
  | S fuel' =>
      let d := n `mod` 16 in
      let c := ascii_of_N (Z.to_N (if bool_decide (d < 10) then 48 + d else 87 + d)) in
      if bool_decide (n < 16) then String c acc
      else hex_digits fuel' (n `div` 16) (String c acc)
  end.

Fixpoint zero_pad (fuel : nat) (width : nat) (s : string) : string :=
  match fuel with
  | O => s
  | S fuel' =>
      if bool_decide (String.length s < width)%nat
      then zero_pad fuel' width (String "0" s) else s
  end.

(** [f"{n:04x}"] *)
Definition hex04 (n : Z) : string :=
  if bool_decide (n < 0)
  then "-" +:+ zero_pad 3 3 (hex_digits (S (Z.to_nat (Z.log2 (- n)))) (- n) EmptyString)
  else zero_pad 4 4 (hex_digits (S (Z.to_nat (Z.log2 n))) n EmptyString).

(** [generate_strings_file]; the result is the list that is joined with
    newlines. *)
Definition generate_strings_file (strings : list string) (block_id : Z) : list string :=
  [ "STRINGS.PAK: 1 string blocks." +:+ newline;
    "block: " +:+ hex04 block_id +:+ "; " +:+ str (Z.of_nat (length strings))
      +:+ " strings." ]
  ++ imap (λ i s, str (Z.of_nat i) +:+ ": " +:+ replace_char (ascii_of_nat 10) "\n" s)
          strings
  ++ [ EmptyString ].

(** ["\n".join(lines)] *)
Definition join_lines (lines : list string) : string := String.concat newline lines.

(** [compile_uwscript] from the syntax tree on: the texts ["assembly"] and
    ["strings"]. *)
Definition compile_uwscript (ast : node) (block_id : Z) : result (string * string) :=
  '(assembly, g) ← generate ast block_id new_gen;
  Ok (join_lines assembly,
      join_lines (generate_strings_file (string_literals g) block_id)).

End UWScript.

(** * Vocabulary of the statements *)

(** ** CNV.ARK token streams *)

(** [token_stream enc dec] holds when [enc] is a sequence of run tokens
    (a control byte with the high bit set and the run length minus 3 in the
    low bits, run length in [3,130], followed by the byte of the run) and
    literal blocks (a control byte below 0x80 holding the length minus 1,
    followed by 1 to 128 bytes) that describes the byte string [dec]. *)
Inductive token_stream : list Z → list Z → Prop :=
  | ts_nil : token_stream [] []
  | ts_run (n : nat) (v : Z) enc dec :
      (3 ≤ n ≤ 130)%nat → token_stream enc dec →
      token_stream (Z.lor 0x80 (Z.of_nat n - 3) :: v :: enc) (replicate n v ++ dec)
  | ts_lit (lit : list Z) enc dec :
      (1 ≤ length lit ≤ 128)%nat → token_stream enc dec →
      token_stream ((Z.of_nat (length lit) - 1) :: lit ++ enc) (lit ++ dec).

(** ** Huffman trees, codes and bit readers *)
Module HuffmanSpec.
Import Py Huffman.

(** The bits of a byte, most significant first. *)
Definition to_bits (v : Z) : list bool :=
  [Z.testbit v 7; Z.testbit v 6; Z.testbit v 5; Z.testbit v 4;
   Z.testbit v 3; Z.testbit v 2; Z.testbit v 1; Z.testbit v 0].

(** The value of a bit string read most significant bit first, computed as
    [encode_string] accumulates [current_byte]. *)
Definition from_bits (l : list bool) : Z :=
  fold_left (λ (v : Z) (b : bool), Z.lor (Z.shiftl v 1) (Z.b2z b)) l 0.

Definition is_byte (v : Z) : Prop := 0 ≤ v < 256.

(** The bits a reader has still to deliver. *)
Definition rbits (r : reader) : list bool :=
  take (Z.to_nat (bit r)) (to_bits (raw r)) ++ flat_map to_bits (fd r).

Definition reader_ok (r : reader) : Prop :=
  0 ≤ bit r ≤ 8 ∧ is_byte (raw r) ∧ Forall is_byte (fd r)
  ∧ (bit r = 0 ∨ ∃ x, raw_data r = Some [x]).

(** The bits [encode_string] collects for a string whose characters all
    have a code. *)
Definition code_bits (codes : gmap Z (list bool)) (s : list Z) : list bool :=
  flat_map (λ c, default [] (codes !! c)) s.

(** Node [m] ends the decoder's inner loop. *)
Definition stops (nodes : list UaHuffNode) (m : Z) (nd : UaHuffNode) : Prop :=
  index nodes m = Ok nd ∧ ¬ (left nd ≠ 255 ∧ right nd ≠ 255).

(** [dpath nodes n q m]: the decoder, standing at node [n], follows the bits
    [q] through inner nodes and arrives at node [m]. *)
Inductive dpath (nodes : list UaHuffNode) : Z → list bool → Z → Prop :=
  | dpath_nil n : dpath nodes n [] n
  | dpath_cons n (nd : UaHuffNode) (b : bool) q m :
      index nodes n = Ok nd → left nd ≠ 255 → right nd ≠ 255 →
      dpath nodes (if b then right nd else left nd) q m →
      dpath nodes n (b :: q) m.

(** Node [m] is a leaf that carries the character [c]. *)
Definition leaf (nodes : list UaHuffNode) (m : Z) (c : Z) : Prop :=
  ∃ nd, index nodes m = Ok nd ∧ left nd = 255 ∧ right nd = 255
        ∧ chr (symbol nd) = Ok c.

(** Every node has two children or none. *)
Definition full_tree (nodes : list UaHuffNode) : Prop :=
  ∀ nd, nd ∈ nodes → (left nd = 255 ↔ right nd = 255).

Definition root (nodes : list UaHuffNode) : Z := Z.of_nat (length nodes) - 1.

(** The tree with the codes space = 00, a = 01, b = 10 and | = 11. *)
Definition tree9 : list UaHuffNode :=
  [ {| symbol := 32; parent := 4; left := 255; right := 255 |};
    {| symbol := 97; parent := 4; left := 255; right := 255 |};
    {| symbol := 98; parent := 5; left := 255; right := 255 |};
    {| symbol := 124; parent := 5; left := 255; right := 255 |};
    {| symbol := 0; parent := 6; left := 0; right := 1 |};
    {| symbol := 0; parent := 6; left := 2; right := 3 |};
    {| symbol := 0; parent := 255; left := 4; right := 5 |} ].


(** The dictionary that [_generate_huffman_codes] fills for a tree, empty
    when the function raises. *)
Definition codes_of (nodes : list UaHuffNode) : gmap Z (list bool) :=
  match _generate_huffman_codes nodes ∅ with
  | Ok codes => codes
  | Raise _ => ∅
  end.

End HuffmanSpec.

(** ** States and programs of the conversation machine *)
Module VMSpec.
Import Py UltimaUnderworldVM.
Local Open Scope string_scope.
Local Open Scope Z_scope.
Local Open Scope list_scope.

(** The machine is not waiting for a reply. *)
Definition awake (s : vm) : Prop := waiting_response s = false.

(** [keeps m]: a computation that starts with the waiting flag clear ends
    with it clear. *)
Definition keeps {A} (m : M A) : Prop :=
  ∀ s a s', awake s → m s = Ok (a, s') → awake s'.

(** [clears m]: a computation ends with the waiting flag clear. *)
Definition clears {A} (m : M A) : Prop :=
  ∀ s a s', m s = Ok (a, s') → awake s'.

(** A machine whose stack holds 65535 and 1. *)
Definition overflow_state : vm :=
  with_stack_pointer 2 (with_memory (<[1 := 1]> (<[0 := 65535]> ∅)) (init [] [])).

(** A machine about to execute [CALLI 99]; no imported function has the
    id 99. *)
Definition unknown_import_state : vm :=
  initialize_memory (with_code [0x14; 99; 0x26] (init [] [])).

(** The same machine with its stack pointer outside the memory. *)
Definition stray_stack_state : vm := with_stack_pointer (-70000) unknown_import_state.

(** A machine about to execute the [RET] at address 3 with 7 on top of the
    stack and the given call level. *)
Definition ret_state (level : Z) : vm :=
  with_call_level level
    (with_pc 3 (with_memory (<[575 := 7]> ∅)
       (with_stack_pointer 576 (with_code [0; 0; 0; 0x15; 0; 0; 0; 0x26] (init [] []))))).

(** A machine about to execute [CALLI 0] ([babl_menu]) with the reply [1]
    on its input. *)
Definition menu_state : vm :=
  initialize_memory (with_code [0x14; 0; 0x26] (init ["1"] [])).

(** A machine about to execute [RESPOND_OP]. *)
Definition respond_state : vm :=
  initialize_memory (with_code [0x28; 0x26] (init [] [])).

(** The machine after [parse_asm] and [initialize_memory] on the lines of an
    assembly file. *)
Definition loaded (lines : list string) : result vm :=
  s ← parse_asm lines (init [] []); Ok (initialize_memory s).

(** The same, with the machine as created when [parse_asm] fails. *)
Definition loaded_vm (lines : list string) : vm :=
  match loaded lines with
  | Ok s => s
  | Raise _ => init [] []
  end.

(** Two turns of the loop in [execute]. *)
Definition run2 : M unit := step imported_functions ;; step imported_functions.

(** Programs with a branch to a label two instructions ahead. *)
Definition bra_program : list string := ["BRA L"; "NOP"; "NOP"; "L:"; "EXIT_OP"].
Definition beq_program : list string :=
  ["PUSHI 0"; "BEQ L"; "NOP"; "NOP"; "NOP"; "L:"; "EXIT_OP"].
Definition bne_program : list string :=
  ["PUSHI 1"; "BNE L"; "NOP"; "NOP"; "NOP"; "L:"; "EXIT_OP"].

(** [preserves f m]: the computation [m] leaves the part [f] of the machine
    as it is. *)
Definition preserves {A B} (f : vm → B) (m : M A) : Prop :=
  ∀ s a s', m s = Ok (a, s') → f s' = f s.

(** The program and the tables it is run with. *)
Definition program (s : vm) :=
  (code s, labels s, string_blocks s, current_string_block s, string_block_id s,
   slot_idx s, string_block s).

(** The registers that direct the control flow. *)
Definition control (s : vm) := (pc s, base_pointer s, call_level s, finished s).

(** A machine whose stack holds 7 and 0. *)
Definition zero_divisor_state : vm :=
  with_stack_pointer 2 (with_memory (<[0 := 7]> ∅) (init [] [])).

(** A machine about to execute the [CALL 3] of the program
    [CALL 3; EXIT_OP; RET]. *)
Definition call_state : vm :=
  initialize_memory (with_code [0x13; 3; 0x26; 0x15] (init [] [])).

(** A program with a jump to a label two instructions ahead. *)
Definition jmp_program : list string := ["JMP L"; "NOP"; "NOP"; "L:"; "EXIT_OP"].

(** A machine about to execute [ADDSP] with the count 3 on its stack. *)
Definition reserve_state : vm :=
  with_stack_pointer 577 (with_memory (<[576 := 3]> ∅) (init [] [])).

(** A machine with a block of two plain strings. *)
Definition plain_state : vm :=
  with_current_string_block (Some ["Hello"; "Bye"]) (init [] []).

(** The text starts with a decimal digit. *)
Definition starts_with_digit (text : string) : bool :=
  match text with
  | String c _ => bool_decide (48 ≤ ord c ≤ 57)
  | EmptyString => false
  end.

(** A machine with a frame at 10 whose cell 11 holds 1, and a block of two
    strings. *)
Definition directive_state : vm :=
  with_base_pointer 10
    (with_memory (<[11 := 1]> ∅)
       (with_current_string_block (Some ["Hello"; "Bye"]) (init [] []))).

(** The label that a line of the assembly text defines, if it defines
    one. *)
Definition label_of (line : string) : option string :=
  let line := strip line in
  if skipped line then None
  else if is_label line
       then Some (strip (default EmptyString (head (split line ":"))))
       else None.

(** The number of code words that the two passes count for a line. *)
Definition words_of (line : string) : Z :=
  let line := strip line in
  if skipped line then 0
  else if is_label line then 0
  else if contains line " " then 2 else 1.

(** The machine after [parse_asm] on the lines of an assembly file. *)
Definition assembled_vm (lines : list string) : vm :=
  match parse_asm lines (init [] []) with
  | Ok s => s
  | Raise _ => init [] []
  end.

Definition words (lines : list string) : Z := foldr (λ l n, words_of l + n) 0 lines.

End VMSpec.

(** ** Compiling and running a script *)
Module Scenario.
Import Py UltimaUnderworldVM UWScript.
Local Open Scope string_scope.
Local Open Scope Z_scope.
Local Open Scope list_scope.

(** The buffer that [_emit] appends to. *)
Definition target_code (g : gen) : list string :=
  match current_target g with
  | main_program_code_target => main_program_code g
  | function_code_target => function_code g
  end.

(** [f.readlines()] on a text file, without the line ends. *)
Definition readlines (text : string) : list string := split text newline.

(** The steps of [main] in the compiler and in the runner: compile, load the strings
    and the assembly, initialise the memory, execute. *)
Definition compile_and_run (ast : node) (fuel : nat) : result vm :=
  '(assembly, strings) ← compile_uwscript ast 1;
  let s := load_string_blocks (readlines strings) (init [] []) in
  s ← parse_asm (readlines assembly) s;
  execute imported_functions fuel (initialize_memory s).

(** [function f(x, y) / return x * 2 + y / endfunction / let r = f(3, 4)] *)
Definition function_parameters : node :=
  Program
    [ FunctionDefinition "f" ["x"; "y"]
        [ ReturnStatement
            (Some (BinaryOperation "+"
                     (BinaryOperation "*" (Identifier "x") (Literal (NUMBER 2)))
                     (Identifier "y"))) ];
      VariableDeclaration "r"
        (FunctionCall "f" [Literal (NUMBER 3); Literal (NUMBER 4)]) ].

(** [let hp = 75 / say "HP: " + hp] *)
Definition string_substitution : node :=
  Program
    [ VariableDeclaration "hp" (Literal (NUMBER 75));
      SayStatement
        (BinaryOperation "+" (Literal (STRING "HP: ")) (Identifier "hp")) ].

(** [let c = 2 / if c == 1 / say "A" / else / say "C" / endif] *)
Definition if_else : node :=
  Program
    [ VariableDeclaration "c" (Literal (NUMBER 2));
      IfStatement (BinaryOperation "==" (Identifier "c") (Literal (NUMBER 1)))
        [ SayStatement (Literal (STRING "A")) ]
        [ SayStatement (Literal (STRING "C")) ] ].

(** A generator in which the global [hp] has offset 0. *)
Definition hp_gen : gen := with_global_variables [("hp", 0)] new_gen.

(** [let player_name = "Avatar" / say "Hello " + player_name] *)
Definition string_variable : node :=
  Program
    [ VariableDeclaration "player_name" (Literal (STRING "Avatar"));
      SayStatement
        (BinaryOperation "+" (Literal (STRING "Hello ")) (Identifier "player_name")) ].

(** The generator after the declaration of the string variable
    [player_name]. *)
Definition name_gen : gen :=
  with_variable_types [("player_name", "string")]
    (with_global_variables [("player_name", 0)] new_gen).

End Scenario.
(** ** Texts *)
Module TextSpec.
Import Py.
Local Open Scope string_scope.
Local Open Scope Z_scope.

(** The characters of [s] differ from [c]. *)
Definition without (c : ascii) (s : string) : bool :=
  all_chars (λ x, negb (bool_decide (x = c))) s.

(** The character is one of [0] to [9]. *)
Definition decimal_char (c : ascii) : bool := bool_decide (48 ≤ ord c ≤ 57).

End TextSpec.

(** ** The code generator *)
Module CompilerSpec.
Import Py UWScript.
Local Open Scope string_scope.
Local Open Scope Z_scope.
Local Open Scope list_scope.

(** The states that a [TempVariableManager] takes: the one of [__init__]
    and [reset], and those that calls of [enter_scope], [exit_scope] and
    [allocate_temp_var] lead to. *)
Inductive reachable : TempVariableManager → Prop :=
  | reach_reset : reachable temp_reset
  | reach_enter t : reachable t → reachable (enter_scope t)
  | reach_exit t : reachable t → reachable (exit_scope t)
  | reach_allocate t : reachable t → reachable (snd (allocate_temp_var t)).

(** The manager after a scope with one temporary was entered and left. *)
Definition recycled_temps : TempVariableManager :=
  exit_scope (snd (allocate_temp_var (enter_scope temp_reset))).

(** What the methods of the manager keep: no temporary is both allocated
    and freed, and the allocated, the freed and the temporaries of the open
    scopes are at or above [base_temp_var]. *)
Definition temps_ok (t : TempVariableManager) : Prop :=
  allocated_temps t ## freed_temps t
  ∧ (∀ x, x ∈ allocated_temps t ∪ freed_temps t → base_temp_var ≤ x)
  ∧ Forall (λ scope : gset Z, ∀ x, x ∈ scope → base_temp_var ≤ x) (scoped_temp_vars t).

(** The generators that global declarations lead to: the new generator, and
    the ones after calls of [_allocate_variable] with a positive size. *)
Inductive declared : gen → Prop :=
  | declared_new : declared new_gen
  | declared_allocate g name size :
      declared g → 0 < size → declared (snd (_allocate_variable name size g)).

(** A generator with the globals [hp] and [gold]. *)
Definition two_globals : gen :=
  snd (_allocate_variable "gold" 1 (snd (_allocate_variable "hp" 1 new_gen))).

(** A function with the parameters [a] and [b]. *)
Definition two_parameters : FunctionScope := new_scope "f" ["a"; "b"].

End CompilerSpec.

(** * Properties of the CNV.ARK codec *)
Section ark_facts.
Import ArkCompressor.

Lemma control_bits_check :
  forallb (λ k, bool_decide (Z.land (Z.lor 0x80 k) 0x80 ≠ 0 ∧ Z.land (Z.lor 0x80 k) 0x7F = k
                             ∧ Z.land k 0x80 = 0 ∧ Z.land k 0x7F = k))
          (map Z.of_nat (seq 0 128)) = true.
Proof. vm_compute. reflexivity. Qed.

Lemma control_bits k :
  0 ≤ k < 128 →
  Z.land (Z.lor 0x80 k) 0x80 ≠ 0 ∧ Z.land (Z.lor 0x80 k) 0x7F = k
  ∧ Z.land k 0x80 = 0 ∧ Z.land k 0x7F = k.
Proof.
  intros Hk. pose proof control_bits_check as Hc.
  rewrite forallb_forall in Hc.
  specialize (Hc k). rewrite bool_decide_eq_true in Hc. apply Hc.
  apply in_map_iff. exists (Z.to_nat k). split; [lia|].
  apply in_seq. lia.
Qed.

Lemma slice_app_mid (pre mid post : list Z) :
  slice (pre ++ mid ++ post) (length pre) (length pre + length mid) = mid.
Proof.
  unfold slice. rewrite drop_app_length.
  replace (length pre + length mid - length pre)%nat with (length mid) by lia.
  by rewrite take_app_length.
Qed.

Lemma decompress_loop_stream enc dec :
  token_stream enc dec →
  ∀ pre out fuel, (length enc ≤ fuel)%nat →
    decompress_loop (pre ++ enc) fuel (length pre) out = out ++ dec.
Proof.
  induction 1 as [|n v enc dec Hn Hts IH|lit enc dec Hn Hts IH]; intros pre out fuel Hf.
  - destruct fuel; simpl; [by rewrite app_nil_r|].
    rewrite lookup_ge_None_2; [by rewrite app_nil_r|]. rewrite length_app. simpl. lia.
  - destruct fuel as [|fuel]; [simpl in Hf; lia|]. simpl in Hf.
    cbn [decompress_loop].
    rewrite lookup_app_r by lia. rewrite Nat.sub_diag. cbn [lookup list_lookup].
    destruct (control_bits (Z.of_nat n - 3)) as (H1 & H2 & _); [lia|].
    rewrite bool_decide_true by done.
    rewrite lookup_app_r by lia.
    replace (length pre + 1 - length pre)%nat with 1%nat by lia. cbn [lookup list_lookup].
    rewrite H2. replace (Z.to_nat (Z.of_nat n - 3 + 3)) with n by lia.
    specialize (IH (pre ++ [Z.lor 128 (Z.of_nat n - 3); v]) (out ++ replicate n v) fuel).
    rewrite length_app in IH. simpl in IH.
    replace (length pre + 1 + 1)%nat with (length pre + 2)%nat by lia.
    rewrite <- app_assoc in IH. simpl in IH. rewrite IH by lia.
    by rewrite app_assoc.
  - destruct fuel as [|fuel]; [simpl in Hf; lia|]. simpl in Hf. rewrite length_app in Hf.
    cbn [decompress_loop].
    rewrite lookup_app_r by lia. rewrite Nat.sub_diag. cbn [lookup list_lookup].
    destruct (control_bits (Z.of_nat (length lit) - 1)) as (_ & _ & H1 & H2); [lia|].
    rewrite bool_decide_false by (intros ?; done).
    rewrite H2.
    replace (Z.to_nat (Z.of_nat (length lit) - 1 + 1)) with (length lit) by lia.
    rewrite bool_decide_true by (rewrite !length_app; simpl; rewrite length_app; lia).
    pose proof (slice_app_mid (pre ++ [Z.of_nat (length lit) - 1]) lit enc) as Hs.
    rewrite length_app in Hs. simpl in Hs. rewrite <- app_assoc in Hs. simpl in Hs.
    rewrite Hs.
    specialize (IH (pre ++ (Z.of_nat (length lit) - 1) :: lit) (out ++ lit) fuel).
    rewrite length_app in IH. simpl in IH.
    replace (length pre + S (length lit))%nat with (length pre + 1 + length lit)%nat in IH by lia.
    rewrite <- app_assoc in IH. simpl in IH. rewrite IH by lia.
    by rewrite app_assoc.
Qed.

Lemma decompress_stream enc dec : token_stream enc dec → decompress enc = dec.
Proof.
  intros H. unfold decompress. destruct enc as [|c enc].
  - by inversion H.
  - apply (decompress_loop_stream _ _ H [] []). done.
Qed.

Lemma compress_loop_acc d fuel : ∀ i out,
  compress_loop d fuel i out = out ++ compress_loop d fuel i [].
Proof.
  induction fuel as [|fuel IH]; intros i out; cbn [compress_loop].
  - by rewrite app_nil_r.
  - repeat case_bool_decide; try by rewrite app_nil_r.
    all: rewrite IH; symmetry; try rewrite (IH _ (_ ++ _)); try rewrite (IH _ (_ :: _));
      cbn [app]; rewrite <- ?app_assoc; done.
Qed.

Lemma scan_run_spec d v i : ∀ fuel j rl,
  (j + 1 = i + rl)%nat → (1 ≤ rl ≤ 130)%nat →
  (∀ k, (i ≤ k < i + rl)%nat → d !! k = Some v) →
  let n := scan_run d v fuel j rl in
  (rl ≤ n ≤ 130)%nat ∧ ∀ k, (i ≤ k < i + n)%nat → d !! k = Some v.
Proof.
  induction fuel as [|fuel IH]; intros j rl Hj Hrl Hall; cbn [scan_run].
  - split; [lia|done].
  - case_bool_decide as Hc; [|split; [lia|done]].
    destruct Hc as (Hlen & Hv & Hlt).
    destruct (IH (j + 1)%nat (rl + 1)%nat) as [H1 H2]; [lia|lia| |split; [lia|done]].
    intros k Hk. destruct (decide (k = j + 1)%nat) as [->|]; [done|]. apply Hall. lia.
Qed.

Lemma scan_run_two d v i f :
  (i + 2 < length d)%nat → d !! (i + 1)%nat = Some v → d !! (i + 2)%nat = Some v →
  (3 ≤ scan_run d v (S (S f)) i 1)%nat.
Proof.
  intros Hlen H1 H2.
  assert (Hs : ∀ f j rl, (3 ≤ rl)%nat → (3 ≤ scan_run d v f j rl)%nat).
  { clear. induction f as [|f IHf]; intros j rl Hrl; cbn [scan_run]; [done|].
    case_bool_decide; [apply IHf; lia|done]. }
  cbn [scan_run].
  rewrite bool_decide_true by (split_and!; [lia|done|lia]).
  replace (i + 1 + 1)%nat with (i + 2)%nat by lia.
  rewrite bool_decide_true by (split_and!; [lia|done|lia]).
  apply Hs. lia.
Qed.

Lemma scan_run_short d v i :
  (i + 2 < length d)%nat → d !! (i + 1)%nat = Some v →
  (scan_run d v 130 i 1 < 3)%nat → d !! (i + 2)%nat ≠ Some v.
Proof.
  intros Hlen H1 Hshort Hv.
  pose proof (scan_run_two d v i 128 Hlen H1 Hv) as H3.
  change (S (S 128)) with 130%nat in H3. lia.
Qed.

Lemma scan_literal_spec d start : ∀ fuel i,
  (i ≤ length d)%nat → (start ≤ i)%nat → (i - start < 128)%nat →
  let i' := scan_literal d fuel start i in
  (i ≤ i' ≤ length d)%nat ∧ (i' - start ≤ 128)%nat.
Proof.
  induction fuel as [|fuel IH]; intros i Hi Hs Hb; cbn [scan_literal]; [lia|].
  case_bool_decide; [|lia].
  destruct (starts_run d i); [lia|].
  case_bool_decide as Hc.
  - lia.
  - destruct (IH (i + 1)%nat) as [H1 H2]; lia.
Qed.

Lemma scan_literal_progress d fuel i :
  (i < length d)%nat → starts_run d i = false →
  (i < scan_literal d (S fuel) i i)%nat.
Proof.
  intros Hi Hs. cbn [scan_literal]. rewrite bool_decide_true by done. rewrite Hs.
  case_bool_decide; [lia|].
  destruct (scan_literal_spec d i fuel (i + 1)%nat); lia.
Qed.

Lemma replicate_slice (d : list Z) v i n :
  (∀ k, (i ≤ k < i + n)%nat → d !! k = Some v) →
  take n (drop i d) = replicate n v.
Proof.
  intros Hall. apply list_eq. intros k.
  destruct (decide (k < n)%nat) as [Hk|Hk].
  - rewrite lookup_take_lt, lookup_drop by done.
    rewrite lookup_replicate_2 by done. apply Hall. lia.
  - rewrite lookup_take_ge by lia. symmetry. apply lookup_replicate_None. lia.
Qed.

Lemma compress_loop_stream d : ∀ fuel i,
  (i ≤ length d)%nat → (length d - i ≤ fuel)%nat →
  token_stream (compress_loop d fuel i []) (drop i d).
Proof.
  induction fuel as [|fuel IH]; intros i Hi Hf; cbn [compress_loop].
  - rewrite drop_ge by lia. constructor.
  - case_bool_decide as Hlt; [|rewrite drop_ge by lia; constructor].
    destruct (d !! i) as [v|] eqn:Hv; [|apply lookup_ge_None in Hv; lia].
    cbn [default from_option id].
    case_bool_decide as Hrun.
    + (* run token *)
      destruct Hrun as (Hlen & Heq & Hn).
      rewrite bool_decide_true in Hn by done.
      rewrite bool_decide_true by done.
      set (n := scan_run d v 130 i 1) in *.
      destruct (scan_run_spec d v i 130 i 1) as [Hb Hall]; [lia|lia| |].
      { intros k Hk. by replace k with i by lia. }
      fold n in Hb, Hall.
      assert (i + n ≤ length d)%nat as Hin.
      { destruct (decide (i + n ≤ length d)%nat); [done|].
        assert (is_Some (d !! (i + n - 1)%nat)) as Hsome by (rewrite Hall by lia; eauto).
        apply lookup_lt_is_Some in Hsome. lia. }
      rewrite compress_loop_acc. cbn [app].
      rewrite <- (take_drop n (drop i d)).
      rewrite (replicate_slice d v i n Hall), drop_drop.
      apply (ts_run n v); [lia|]. apply IH; lia.
    + (* literal block *)
      assert (starts_run d i = false) as Hnr.
      { unfold starts_run. apply bool_decide_eq_false. intros (Hlen & H1 & H2).
        apply Hrun. rewrite Hv in H1. split_and!; [done|done|].
        rewrite bool_decide_true by done.
        destruct (decide (3 ≤ scan_run d v 130 i 1)%nat) as [|Hs]; [done|].
        exfalso. apply (scan_run_short d v i); [done|congruence|lia|congruence]. }
      pose proof (scan_literal_progress d 127 i Hlt Hnr) as Hp.
      destruct (scan_literal_spec d i 128 i) as [Hb1 Hb2]; [lia|lia|lia|].
      set (i' := scan_literal d 128 i i) in *.
      rewrite bool_decide_true by lia.
      rewrite compress_loop_acc. cbn [app].
      rewrite <- (take_drop (i' - i) (drop i d)), drop_drop.
      replace (i + (i' - i))%nat with i' by lia.
      unfold slice.
      assert (length (take (i' - i) (drop i d)) = (i' - i)%nat) as Hl.
      { rewrite length_take, length_drop. lia. }
      rewrite <- Hl at 1.
      apply ts_lit; [rewrite Hl; lia|]. apply IH; lia.
Qed.

Lemma compress_stream d : token_stream (compress d) d.
Proof. apply (compress_loop_stream d (length d) 0%nat); lia. Qed.


End ark_facts.

(** * Properties of the Huffman codec *)
Section huffman_facts.
Import Py Huffman HuffmanSpec.

Section bits.

Lemma byte_step_check :
  forallb (λ v, bool_decide
     (bool_decide (Z.land v 0x80 ≠ 0) = Z.testbit v 7
      ∧ 0 ≤ Z.land (Z.shiftl v 1) 0xFF < 256
      ∧ to_bits (Z.land (Z.shiftl v 1) 0xFF) = tail (to_bits v) ++ [false]))
    (map Z.of_nat (seq 0 256)) = true.
Proof. vm_compute. reflexivity. Qed.

Lemma byte_step v :
  is_byte v →
  bool_decide (Z.land v 0x80 ≠ 0) = Z.testbit v 7
  ∧ is_byte (Z.land (Z.shiftl v 1) 0xFF)
  ∧ to_bits (Z.land (Z.shiftl v 1) 0xFF) = tail (to_bits v) ++ [false].
Proof.
  intros Hv. pose proof byte_step_check as Hc.
  rewrite forallb_forall in Hc. specialize (Hc v).
  rewrite bool_decide_eq_true in Hc. apply Hc.
  apply in_map_iff. exists (Z.to_nat v). unfold is_byte in Hv. split; [lia|].
  apply in_seq. lia.
Qed.

Lemma from_bits_snoc l b :
  from_bits (l ++ [b]) = Z.lor (Z.shiftl (from_bits l) 1) (Z.b2z b).
Proof. unfold from_bits. by rewrite fold_left_app. Qed.

Lemma to_bits_from_bits l :
  length l = 8%nat → to_bits (from_bits l) = l ∧ is_byte (from_bits l).
Proof.
  intros Hl.
  do 8 (destruct l as [|? l]; [discriminate Hl|]).
  destruct l; [|discriminate Hl].
  repeat match goal with b : bool |- _ => destruct b end.
  all: split; [vm_compute; reflexivity|unfold is_byte; vm_compute; split; congruence].
Qed.

Lemma from_bits_pad l :
  (0 < length l < 8)%nat →
  Z.shiftl (from_bits l) (8 - Z.of_nat (length l))
  = from_bits (l ++ replicate (8 - length l) false).
Proof.
  intros Hl.
  do 8 (destruct l as [|? l];
        [first [simpl in Hl; lia
               |repeat match goal with b : bool |- _ => destruct b end;
                vm_compute; reflexivity]|]).
  simpl in Hl; lia.
Qed.

Lemma flat_map_snoc {A B} (f : A → list B) l x :
  flat_map f (l ++ [x]) = flat_map f l ++ f x.
Proof. rewrite flat_map_app. simpl. by rewrite app_nil_r. Qed.

Lemma pack_bits_spec bs : ∀ acc bytes,
  (length acc < 8)%nat →
  ∃ pad,
    flat_map to_bits (pack_bits bs bytes (from_bits acc) (Z.of_nat (length acc)))
    = flat_map to_bits bytes ++ acc ++ bs ++ replicate pad false
    ∧ (Forall is_byte bytes →
       Forall is_byte (pack_bits bs bytes (from_bits acc) (Z.of_nat (length acc)))).
Proof.
  induction bs as [|b bs IH]; intros acc bytes Hacc; cbn [pack_bits].
  - case_bool_decide as Hc.
    + exists (8 - length acc)%nat.
      rewrite from_bits_pad by lia.
      destruct (to_bits_from_bits (acc ++ replicate (8 - length acc) false)) as [Hb Hr].
      { rewrite length_app, length_replicate. lia. }
      split.
      * rewrite flat_map_snoc, Hb. done.
      * intros HF. apply Forall_app. split; [done|]. by constructor.
    + exists 0%nat. destruct acc; [|simpl in Hc; lia]. simpl. split; [|done].
      by rewrite app_nil_r.
  - rewrite <- from_bits_snoc.
    case_bool_decide as Hc.
    + destruct (to_bits_from_bits (acc ++ [b])) as [Hb Hr].
      { rewrite length_app. simpl. lia. }
      destruct (IH [] (bytes ++ [from_bits (acc ++ [b])])) as (pad & H1 & H2); [simpl; lia|].
      exists pad. change (from_bits []) with 0 in H1, H2.
      change (Z.of_nat (length (@nil bool))) with 0 in H1, H2. split.
      * rewrite H1, flat_map_snoc, Hb. simpl. by rewrite <- !app_assoc.
      * intros HF. apply H2. apply Forall_app. split; [done|]. by constructor.
    + destruct (IH (acc ++ [b]) bytes) as (pad & H1 & H2).
      { rewrite length_app. simpl. lia. }
      exists pad. rewrite length_app in H1, H2. simpl in H1, H2.
      replace (Z.of_nat (length acc + 1)) with (Z.of_nat (length acc) + 1) in H1, H2 by lia.
      split; [|done]. rewrite H1. by rewrite <- !app_assoc.
Qed.

Lemma pack_bits_bits bs :
  ∃ pad, flat_map to_bits (pack_bits bs [] 0 0) = bs ++ replicate pad false
         ∧ Forall is_byte (pack_bits bs [] 0 0).
Proof.
  destruct (pack_bits_spec bs [] []) as (pad & H1 & H2); [simpl; lia|].
  exists pad. split; [done|]. by apply H2.
Qed.

End bits.

Section codes.
Variable nodes : list UaHuffNode.
Hypothesis Hfull : full_tree nodes.

Lemma index_elem_of {A} (l : list A) i a : index l i = Ok a → a ∈ l.
Proof.
  unfold index. intros H. case_bool_decide; [|done].
  destruct (l !! _) eqn:E; [|done]. injection H as <-.
  by eapply list_elem_of_lookup_2.
Qed.

Lemma inner_node nd :
  nd ∈ nodes → ¬ (left nd = 255 ∧ right nd = 255) → left nd ≠ 255 ∧ right nd ≠ 255.
Proof. intros Hin Hn. specialize (Hfull nd Hin). split; intros ?; tauto. Qed.

Lemma generate_codes_sound fuel : ∀ n code codes codes',
  generate_codes nodes fuel n code codes = Ok codes' →
  ∀ c p, codes' !! c = Some p →
    codes !! c = Some p
    ∨ ∃ q m, p = code ++ q ∧ dpath nodes n q m ∧ leaf nodes m c.
Proof.
  induction fuel as [|fuel IH]; intros n code codes codes' Hg c p Hc; [done|].
  cbn [generate_codes] in Hg.
  destruct (index nodes n) as [nd|] eqn:Hnd; [|done]. cbn [mbind result_bind] in Hg.
  case_bool_decide as Hleaf.
  - destruct (chr (symbol nd)) as [ch|] eqn:Hch; [|done]. cbn in Hg.
    injection Hg as <-.
    destruct (decide (ch = c)) as [->|Hne].
    + rewrite lookup_insert_eq in Hc. injection Hc as <-.
      right. exists [], n. rewrite app_nil_r. split_and!; [done|constructor|].
      exists nd. tauto.
    + rewrite lookup_insert_ne in Hc by done. by left.
  - destruct (inner_node nd (index_elem_of _ _ _ Hnd) Hleaf) as [Hl Hr].
    rewrite (bool_decide_true _ Hl) in Hg.
    destruct (generate_codes nodes fuel (left nd) _ codes) as [codes1|] eqn:H1; [|done].
    cbn [mbind result_bind] in Hg. rewrite (bool_decide_true _ Hr) in Hg.
    destruct (IH _ _ _ _ Hg c p Hc) as [Hc1|(q & m & -> & Hp & Hm)].
    + destruct (IH _ _ _ _ H1 c p Hc1) as [?|(q & m & -> & Hp & Hm)]; [by left|].
      right. exists (false :: q), m. rewrite <- app_assoc. split_and!; [done| |done].
      by apply (dpath_cons nodes n nd false).
    + right. exists (true :: q), m. rewrite <- app_assoc. split_and!; [done| |done].
      by apply (dpath_cons nodes n nd true).
Qed.



End codes.

Section decoder.
Variable nodes : list UaHuffNode.

Lemma walk_sound fuel : ∀ n r m r',
  walk nodes fuel n r = Ok (AtLeaf m r') →
  ∃ q nd, dpath nodes n q m ∧ stops nodes m nd.
Proof.
  induction fuel as [|fuel IH]; intros n r m r' Hw; [done|].
  cbn [walk] in Hw.
  destruct (index nodes n) as [nd|] eqn:Hnd; [|done]. cbn [mbind result_bind] in Hw.
  case_bool_decide as Hin.
  - destruct Hin as [Hl Hr].
    assert (∀ r0, walk nodes fuel
              (if bool_decide (Z.land (raw r0) 128 ≠ 0) then right nd else left nd)
              {| bit := bit r0 - 1; raw := Z.land (Z.shiftl (raw r0) 1) 255;
                 fd := fd r0; raw_data := raw_data r0 |} = Ok (AtLeaf m r') →
            ∃ q nd0, dpath nodes n q m ∧ stops nodes m nd0) as Hstep.
    { intros r0 H0. destruct (IH _ _ _ _ H0) as (q & nd0 & Hp & Hs).
      exists (bool_decide (Z.land (raw r0) 128 ≠ 0) :: q), nd0. split; [|done].
      by apply (dpath_cons nodes n nd). }
    case_bool_decide.
    + destruct (fd r) as [|b rest]; [done|]. by apply (Hstep _ Hw).
    + by apply (Hstep _ Hw).
  - injection Hw as <- <-. exists [], nd. split; [constructor|done].
Qed.

Lemma decode_loop_sound fuel : ∀ acc r s,
  decode_loop nodes fuel acc r = Ok s →
  ∃ s', s = acc ++ s'
    ∧ Forall (λ c, c ≠ bar ∧ ∃ q m nd, dpath nodes (root nodes) q m
                                      ∧ stops nodes m nd ∧ chr (symbol nd) = Ok c) s'.
Proof.
  induction fuel as [|fuel IH]; intros acc r s Hd; [done|].
  cbn [decode_loop] in Hd.
  destruct (walk nodes _ _ r) as [[m r'|r']|] eqn:Hw; cbn [mbind result_bind] in Hd;
    [| |done].
  - assert (Hnil : Ok acc = Ok s → ∃ s', s = acc ++ s' ∧ Forall
             (λ c, c ≠ bar ∧ ∃ q m nd, dpath nodes (root nodes) q m
                                      ∧ stops nodes m nd ∧ chr (symbol nd) = Ok c) s').
    { intros [= <-]. exists []. by rewrite app_nil_r. }
    destruct (raw_data r') as [[|x l]|]; [by apply Hnil| |by apply Hnil].
    destruct (walk_sound _ _ _ _ _ Hw) as (q & nd & Hp & Hs).
    destruct Hs as [Hnd Hstop]. rewrite Hnd in Hd. cbn [mbind result_bind] in Hd.
    destruct (chr (symbol nd)) as [c|] eqn:Hc; [|done]. cbn [mbind result_bind] in Hd.
    case_bool_decide as Hbar; [|by apply Hnil].
    destruct (IH _ _ _ Hd) as (s' & -> & HF).
    exists (c :: s'). rewrite <- app_assoc. split; [done|].
    constructor; [|done]. split; [done|]. exists q, m, nd. by repeat split.
  - injection Hd as <-. exists []. by rewrite app_nil_r.
Qed.

Lemma to_bits_length v : length (to_bits v) = 8%nat.
Proof. reflexivity. Qed.

Lemma rbits_length r :
  reader_ok r → length (rbits r) = (Z.to_nat (bit r) + 8 * length (fd r))%nat.
Proof.
  intros (Hb & _). unfold rbits. rewrite length_app, length_take, to_bits_length.
  f_equal; [lia|]. induction (fd r) as [|x l IHl]; [done|].
  cbn [flat_map]. rewrite length_app, to_bits_length, IHl. simpl. lia.
Qed.

(** One turn of the inner loop consumes the next bit. *)
Lemma to_bits_cons v : to_bits v = Z.testbit v 7 :: tail (to_bits v).
Proof. reflexivity. Qed.

Lemma walk_step fuel n nd r b rest :
  index nodes n = Ok nd → left nd ≠ 255 → right nd ≠ 255 →
  reader_ok r → rbits r = b :: rest →
  ∃ r', walk nodes (S fuel) n r = walk nodes fuel (if b then right nd else left nd) r'
        ∧ reader_ok r' ∧ rbits r' = rest ∧ ∃ x, raw_data r' = Some [x].
Proof.
  intros Hnd Hl Hr (Hb & Hraw & Hfd & Hrd) Hbits.
  cbn [walk]. rewrite Hnd. cbn [mbind result_bind].
  rewrite bool_decide_true by done.
  case_bool_decide as Hz.
  - unfold rbits in Hbits. rewrite Hz in Hbits.
    change (Z.to_nat 0) with 0%nat in Hbits. cbn [take app] in Hbits.
    destruct (fd r) as [|x l] eqn:Hfdr; [done|].
    apply Forall_cons in Hfd as [Hx Hl'].
    destruct (byte_step x Hx) as (H1 & H2 & H3).
    cbn [flat_map] in Hbits. rewrite to_bits_cons in Hbits. cbn [app] in Hbits.
    injection Hbits as <- <-.
    cbn [raw bit fd raw_data].
    eexists. split; [|split_and!].
    + rewrite H1. reflexivity.
    + unfold reader_ok. cbn. split_and!; [lia|lia|done|done|right; eauto].
    + unfold rbits. cbn [bit raw fd]. rewrite H3.
      change (Z.to_nat (8 - 1)) with (length (tail (to_bits x))).
      by rewrite take_app_length.
    + cbn. eauto.
  - destruct Hrd as [?|[x Hx]]; [done|].
    destruct (byte_step (raw r) Hraw) as (H1 & H2 & H3).
    unfold rbits in Hbits.
    destruct (Z.to_nat (bit r)) as [|k] eqn:Hk; [lia|].
    rewrite to_bits_cons in Hbits. cbn [take app] in Hbits.
    injection Hbits as <- <-.
    eexists. split; [|split_and!].
    + rewrite H1. reflexivity.
    + unfold reader_ok. cbn. split_and!; [lia|lia|done|done|right; eauto].
    + unfold rbits. cbn [bit raw fd]. rewrite H3.
      replace (Z.to_nat (bit r - 1)) with k by lia.
      rewrite take_app_le; [done|]. simpl. lia.
    + cbn. eauto.
Qed.

Lemma walk_path q : ∀ n m nd r rest fuel,
  dpath nodes n q m → stops nodes m nd →
  reader_ok r → rbits r = q ++ rest → (length q < fuel)%nat →
  ∃ r', walk nodes fuel n r = Ok (AtLeaf m r')
        ∧ reader_ok r' ∧ rbits r' = rest
        ∧ (q = [] → r' = r) ∧ (q ≠ [] → ∃ x, raw_data r' = Some [x]).
Proof.
  induction q as [|b q IH]; intros n m nd r rest fuel Hp Hs Hok Hbits Hf.
  - inversion Hp; subst. destruct fuel as [|fuel]; [simpl in Hf; lia|].
    destruct Hs as [Hnd Hstop]. exists r. cbn [walk]. rewrite Hnd.
    cbn [mbind result_bind]. rewrite bool_decide_false by done.
    by split_and!.
  - inversion Hp as [|? nd0 ? ? ? Hnd0 Hl Hr Hp']; subst.
    destruct fuel as [|fuel]; [simpl in Hf; lia|]. simpl in Hf.
    destruct (walk_step fuel n nd0 r b (q ++ rest) Hnd0 Hl Hr Hok Hbits)
      as (r1 & Hw & Hok1 & Hb1 & Hrd1).
    destruct (IH _ _ _ r1 rest fuel Hp' Hs Hok1 Hb1) as (r' & Hw' & Hok' & Hb' & Hq1 & Hq2);
      [lia|].
    exists r'. rewrite Hw. split_and!; [done|done|done|done|].
    intros _. destruct q as [|b' q']; [rewrite Hq1 by done; done|by apply Hq2].
Qed.

End decoder.

Section roundtrip.
Variable nodes : list UaHuffNode.
Variable codes : gmap Z (list bool).
Hypothesis Hfull : full_tree nodes.
Hypothesis Hgen : _generate_huffman_codes nodes ∅ = Ok codes.
Hypothesis Hbar : is_Some (codes !! bar).

Lemma code_path c p :
  codes !! c = Some p → ∃ m, dpath nodes (root nodes) p m ∧ leaf nodes m c.
Proof.
  intros Hc. unfold _generate_huffman_codes in Hgen.
  destruct nodes as [|n0 l] eqn:Hn.
  - injection Hgen as <-. by rewrite lookup_empty in Hc.
  - rewrite <- Hn in *.
    destruct (generate_codes_sound nodes Hfull _ _ _ _ _ Hgen c p Hc)
      as [He|(q & m & -> & Hp & Hm)].
    + by rewrite lookup_empty in He.
    + exists m. done.
Qed.



Lemma collect_bits_spec s : ∀ acc,
  Forall (λ c, is_Some (codes !! c)) s →
  collect_bits codes s acc = acc ++ code_bits codes s.
Proof.
  induction s as [|c s IH]; intros acc HF; cbn [collect_bits code_bits flat_map].
  - by rewrite app_nil_r.
  - apply Forall_cons in HF as [[p Hp] HF]. rewrite Hp. cbn [default from_option id].
    rewrite IH by done. unfold code_bits. by rewrite app_assoc.
Qed.

Section inner_root.
Variable ndr : UaHuffNode.
Hypothesis Hroot : index nodes (root nodes) = Ok ndr.
Hypothesis Hinner : left ndr ≠ 255 ∧ right ndr ≠ 255.

Lemma code_nonempty c p : codes !! c = Some p → p ≠ [].
Proof.
  intros Hc ->. destruct (code_path c [] Hc) as (m & Hp & Hm).
  inversion Hp; subst. destruct Hm as (nd & Hnd & Hl & _).
  rewrite Hroot in Hnd. injection Hnd as <-. tauto.
Qed.

Lemma code_bits_length s :
  Forall (λ c, is_Some (codes !! c)) s → (length s ≤ length (code_bits codes s))%nat.
Proof.
  induction 1 as [|c s [p Hp] HF IH]; [done|].
  cbn [code_bits flat_map]. rewrite Hp. cbn [default from_option id].
  rewrite length_app. pose proof (code_nonempty c p Hp).
  destruct p; [done|]. unfold code_bits in IH. simpl. lia.
Qed.

Lemma decode_loop_encoded s : ∀ acc r fuel pad,
  Forall (λ c, c ≠ bar ∧ is_Some (codes !! c)) s →
  reader_ok r → rbits r = code_bits codes (s ++ [bar]) ++ pad →
  (length s < fuel)%nat →
  decode_loop nodes fuel acc r = Ok (acc ++ s).
Proof.
  induction s as [|c s IH]; intros acc r fuel pad HF Hok Hbits Hf.
  - destruct Hbar as [p Hp].
    destruct (code_path bar p Hp) as (m & Hpath & nd & Hnd & Hl & Hr & Hc).
    cbn [app code_bits flat_map] in Hbits. rewrite Hp in Hbits.
    cbn [default from_option id] in Hbits. rewrite app_nil_r in Hbits.
    destruct fuel as [|fuel]; [lia|]. cbn [decode_loop].
    destruct (walk_path nodes p (root nodes) m nd r pad
                (Z.to_nat (bit r) + 8 * length (fd r) + 1) Hpath)
      as (r' & Hw & Hok' & Hb' & _ & Hrd); [split; [done|tauto]|done|done| |].
    { rewrite <- rbits_length by done. rewrite Hbits, length_app. lia. }
    unfold root in Hw. rewrite Hw. cbn [mbind result_bind].
    destruct (Hrd (code_nonempty _ _ Hp)) as [x ->].
    rewrite Hnd. cbn [mbind result_bind]. rewrite Hc. cbn [mbind result_bind].
    rewrite bool_decide_false by (intros H; by apply H). by rewrite app_nil_r.
  - apply Forall_cons in HF as [[Hcb [p Hp]] HF].
    destruct (code_path c p Hp) as (m & Hpath & nd & Hnd & Hl & Hr & Hc).
    cbn [app code_bits flat_map] in Hbits. rewrite Hp in Hbits.
    cbn [default from_option id] in Hbits. rewrite <- app_assoc in Hbits.
    destruct fuel as [|fuel]; [simpl in Hf; lia|]. cbn [decode_loop]. simpl in Hf.
    destruct (walk_path nodes p (root nodes) m nd r
                (code_bits codes (s ++ [bar]) ++ pad)
                (Z.to_nat (bit r) + 8 * length (fd r) + 1) Hpath)
      as (r' & Hw & Hok' & Hb' & _ & Hrd); [split; [done|tauto]|done|exact Hbits| |].
    { rewrite <- rbits_length by done. rewrite Hbits, length_app. lia. }
    unfold root in Hw. rewrite Hw. cbn [mbind result_bind].
    destruct (Hrd (code_nonempty _ _ Hp)) as [x ->].
    rewrite Hnd. cbn [mbind result_bind]. rewrite Hc. cbn [mbind result_bind].
    rewrite bool_decide_true by done.
    rewrite (IH (acc ++ [c]) r' fuel pad); [by rewrite <- app_assoc|done|done|exact Hb'|lia].
Qed.

End inner_root.


Lemma decode_leaf_root ndr raw0 data :
  index nodes (root nodes) = Ok ndr → ¬ (left ndr ≠ 255 ∧ right ndr ≠ 255) →
  decode_string nodes raw0 data = Ok [].
Proof.
  intros Hroot Hstop.
  unfold decode_string. replace (8 * length data + 1)%nat with (S (8 * length data)) by lia.
  cbn [decode_loop]. cbn [bit fd].
  replace (Z.to_nat 0 + 8 * length data + 1)%nat with (S (8 * length data)) by lia.
  cbn [walk]. unfold root in Hroot. rewrite Hroot. cbn [mbind result_bind].
  rewrite bool_decide_false by done. cbn [raw_data].
  destruct raw0 as [[|x l]|]; [done| |done].
  cbn [mbind result_bind raw_data]. rewrite Hroot. cbn [mbind result_bind].
  destruct Hbar as [p Hp].
  destruct (code_path bar p Hp) as (m & Hpath & nd & Hnd & Hl & Hr & Hc).
  inversion Hpath as [|? nd0 ? ? ? Hnd0 Hl0 Hr0 Hp']; subst.
  - unfold root in Hnd. rewrite Hroot in Hnd. injection Hnd as <-. rewrite Hc.
    cbn [mbind result_bind]. rewrite bool_decide_false by (intros H; by apply H). done.
  - unfold root in Hnd0. rewrite Hroot in Hnd0. injection Hnd0 as <-. tauto.
Qed.

End roundtrip.

Lemma tree9_full : full_tree tree9.
Proof.
  intros nd Hnd. unfold tree9 in Hnd.
  repeat (apply elem_of_cons in Hnd as [->|Hnd]); [done..|].
  by apply elem_of_nil in Hnd.
Qed.

(** The encoder and the decoder on the tree of [tree9]: the text [a b]
    is packed into the byte 0x4B, with or without its terminator, and the
    byte decodes to [a b]. *)
Lemma tree9_codec :
  encode_string (codes_of tree9) [97; 32; 98; 124] = Ok [0x4B]
  ∧ encode_string (codes_of tree9) [97; 32; 98] = Ok [0x4B]
  ∧ decode_string tree9 None [0x4B] = Ok [97; 32; 98].
Proof. vm_compute. by split_and!. Qed.




(** ** The bytes of an encoding *)

Lemma pack_bits_length bs : ∀ bytes cur cnt,
  0 ≤ cnt < 8 →
  length (pack_bits bs bytes cur cnt)
  = (length bytes + (Z.to_nat cnt + length bs + 7) / 8)%nat.
Proof.
  induction bs as [|b bs IH]; intros bytes cur cnt Hc; cbn [pack_bits length].
  - case_bool_decide.
    + rewrite length_app. cbn [length].
      replace ((Z.to_nat cnt + 0 + 7) / 8)%nat with 1%nat; [done|].
      apply Nat.div_unique with (r := (Z.to_nat cnt - 1)%nat); lia.
    + replace (Z.to_nat cnt) with 0%nat by lia. done.
  - case_bool_decide.
    + rewrite IH by lia. rewrite length_app. cbn [length].
      replace (Z.to_nat cnt + S (length bs) + 7)%nat
        with (Z.to_nat 0 + length bs + 7 + 1 * 8)%nat by lia.
      rewrite Nat.div_add by done. lia.
    + rewrite IH by lia. do 2 f_equal. lia.
Qed.

Lemma flat_map_to_bits_length (l : list Z) :
  length (flat_map to_bits l) = (8 * length l)%nat.
Proof.
  induction l as [|x l IH]; [done|].
  cbn [flat_map]. rewrite length_app, IH. simpl. lia.
Qed.

(** C10: the encoder appends the terminator only to a string that does not
    end with it, so a string [s] without a final terminator and the string
    [s] followed by the terminator, which are different strings, have the
    same encoding.  When the characters of [s] and the terminator have
    codes, that encoding is the bytes whose bits, most significant first,
    are the codes of the characters of [s] in order, then the code of the
    terminator, then zeros up to the end of the last byte. *)
Theorem encode_string_ignores_final_bar (huffman_codes : gmap Z (list bool))
    (s : list Z) :
  endswith_bar s = false →
  encode_string huffman_codes s = encode_string huffman_codes (s ++ [bar])
  ∧ s ≠ s ++ [bar]
  ∧ (Forall (λ c, is_Some (huffman_codes !! c)) (s ++ [bar]) →
     ∃ enc,
       encode_string huffman_codes s = Ok enc
       ∧ encode_string huffman_codes (s ++ [bar]) = Ok enc
       ∧ let bits := code_bits huffman_codes s
                     ++ default [] (huffman_codes !! bar) in
         length enc = ((length bits + 7) / 8)%nat
         ∧ Forall is_byte enc
         ∧ flat_map to_bits enc
           = bits ++ replicate (8 * length enc - length bits) false).
Proof.
  intros Hs.
  assert (endswith_bar (s ++ [bar]) = true) as Hb.
  { unfold endswith_bar. apply bool_decide_eq_true. apply last_snoc. }
  assert (encode_string huffman_codes s = encode_string huffman_codes (s ++ [bar]))
    as Heq.
  { unfold encode_string. by rewrite Hs, Hb. }
  split_and!; [done| |].
  - intros Hss. apply (f_equal length) in Hss. rewrite length_app in Hss.
    simpl in Hss. lia.
  - intros HF. rewrite <- Heq. unfold encode_string. rewrite Hs.
    assert (huffman_codes ≠ ∅) as Hne.
    { apply Forall_app in HF as [_ HF]. apply Forall_singleton in HF as [p Hp].
      intros ->. by rewrite lookup_empty in Hp. }
    rewrite bool_decide_false by done. eexists. split; [reflexivity|].
    split; [reflexivity|]. cbn zeta.
    rewrite collect_bits_spec by done. cbn [app].
    assert (code_bits huffman_codes (s ++ [bar])
            = code_bits huffman_codes s ++ default [] (huffman_codes !! bar)) as ->.
    { unfold code_bits. rewrite flat_map_app. cbn [flat_map]. by rewrite app_nil_r. }
    set (bits := code_bits huffman_codes s ++ default [] (huffman_codes !! bar)).
    destruct (pack_bits_bits bits) as (pad & Hbits & Hbytes).
    pose proof (pack_bits_length bits [] 0 0) as Hlen. cbn [length] in Hlen.
    rewrite Hlen by lia. split_and!; [done|done|].
    rewrite Hbits. do 2 f_equal.
    apply (f_equal length) in Hbits.
    rewrite flat_map_to_bits_length, length_app, length_replicate, Hlen in Hbits by lia.
    lia.
Qed.

Lemma encode_string_ignores_final_bar_witness :
  encode_string (codes_of tree9) [97] = encode_string (codes_of tree9) ([97] ++ [bar])
  ∧ [97] ≠ [97] ++ [bar]
  ∧ ∃ enc,
      encode_string (codes_of tree9) [97] = Ok enc
      ∧ encode_string (codes_of tree9) ([97] ++ [bar]) = Ok enc
      ∧ let bits := code_bits (codes_of tree9) [97]
                    ++ default [] (codes_of tree9 !! bar) in
        length enc = ((length bits + 7) / 8)%nat
        ∧ Forall is_byte enc
        ∧ flat_map to_bits enc
          = bits ++ replicate (8 * length enc - length bits) false.
Proof.
  destruct (encode_string_ignores_final_bar (codes_of tree9) [97]) as (H1 & H2 & H3);
    [vm_compute; reflexivity|].
  split_and!; [exact H1|exact H2|].
  apply H3. repeat constructor; vm_compute; eauto.
Defined.

End huffman_facts.

(** * Properties of the conversation machine *)
Section machine_facts.
Import Py UltimaUnderworldVM VMSpec.
Local Open Scope string_scope.
Local Open Scope Z_scope.
Local Open Scope list_scope.

Section vm_facts.

Lemma read_mem_nonneg s a : 0 ≤ a → ∃ v, read_mem s a = Ok v.
Proof.
  intros Ha. unfold read_mem.
  set (a' := if bool_decide (a >= 65536) then a `mod` 65536 else a).
  assert (0 ≤ a' < 65536) as Ha'.
  { subst a'. case_bool_decide; [apply Z.mod_pos_bound|]; lia. }
  unfold mem_slot. rewrite (bool_decide_false (a' < 0)) by lia.
  rewrite (bool_decide_true (0 ≤ a' < 65536)) by lia. cbn. eauto.
Qed.

Lemma for_each_reads s (l : list Z) (f : Z → Z) :
  (∀ i, i ∈ l → 0 ≤ f i) →
  for_each l (λ i, get_mem (f i) ;; ret tt) s = Ok (tt, s).
Proof.
  induction l as [|i l IH]; intros Hl; [done|].
  cbn [for_each]. unfold bind at 1. unfold bind at 1, get_mem.
  destruct (read_mem_nonneg s (f i)) as [v ->]; [apply Hl; left|].
  cbn. apply IH. intros j Hj. apply Hl. by right.
Qed.

Lemma finish_conversation_ok s :
  finish_conversation s = Ok (tt, with_finished true s).
Proof.
  unfold finish_conversation, bind, modify, gets. cbn [first_memory_slot memory_slots with_finished].
  apply (for_each_reads (with_finished true s) _ (λ i, Z.of_N (first_memory_slot s) + i)).
  intros i Hi. unfold range in Hi. apply list_elem_of_fmap in Hi as (n & -> & _). lia.
Qed.

Lemma mem_slot_in_range a : 0 ≤ a < 65536 → mem_slot a = Ok a.
Proof.
  intros Ha. unfold mem_slot. cbn zeta.
  rewrite (bool_decide_false (a < 0)) by lia.
  by rewrite bool_decide_true by lia.
Qed.

Lemma read_mem_in_range s a :
  0 ≤ a < 65536 → read_mem s a = Ok (default 0 (memory s !! a)).
Proof.
  intros Ha. unfold read_mem. cbn zeta.
  rewrite (bool_decide_false (a >= 65536)) by lia.
  by rewrite mem_slot_in_range.
Qed.

Lemma pop_in_range s :
  1 ≤ stack_pointer s ≤ 65536 →
  pop s = Ok (default 0 (memory s !! (stack_pointer s - 1)),
              with_stack (removelast (stack s))
                (with_stack_pointer (stack_pointer s - 1) s)).
Proof.
  intros Hsp. unfold pop, bind, modify, gets, get_mem, ret. cbn.
  rewrite read_mem_in_range by (cbn; lia). done.
Qed.

Lemma push_in_range v s :
  0 ≤ stack_pointer s < 65536 →
  push v s = Ok (tt, with_stack (stack s ++ [v])
                       (with_stack_pointer (stack_pointer s + 1)
                          (with_memory (<[stack_pointer s := v]> (memory s)) s))).
Proof.
  intros Hsp. unfold push, bind, modify, gets, set_mem. cbn.
  rewrite (bool_decide_false (stack_pointer s >= 65536)) by lia.
  by rewrite mem_slot_in_range.
Qed.

(** A push with the stack pointer at a cell of the memory. *)
Lemma push_wraps v s :
  -65536 ≤ stack_pointer s < 131072 →
  push v s = Ok (tt, with_stack (stack s ++ [v])
                       (with_stack_pointer (stack_pointer s + 1)
                          (with_memory (<[stack_pointer s `mod` 65536 := v]> (memory s)) s))).
Proof.
  intros Hsp. unfold push, bind, modify, gets, set_mem, mem_slot. cbn.
  destruct (decide (stack_pointer s >= 65536)) as [Hge|Hlt].
  - rewrite (bool_decide_true (stack_pointer s >= 65536)) by done.
    rewrite (bool_decide_false (stack_pointer s - 65536 < 0)) by lia.
    rewrite bool_decide_true by lia. cbn.
    replace (stack_pointer s `mod` 65536) with (stack_pointer s - 65536); [done|].
    apply (Z.mod_unique (stack_pointer s) 65536 1); lia.
  - rewrite (bool_decide_false (stack_pointer s >= 65536)) by done.
    destruct (decide (stack_pointer s < 0)) as [Hneg|Hpos].
    + rewrite (bool_decide_true (stack_pointer s < 0)) by done.
      rewrite bool_decide_true by lia. cbn.
      replace (stack_pointer s `mod` 65536) with (stack_pointer s + 65536); [done|].
      apply (Z.mod_unique (stack_pointer s) 65536 (-1)); lia.
    + rewrite (bool_decide_false (stack_pointer s < 0)) by done.
      rewrite bool_decide_true by lia. cbn.
      by rewrite Z.mod_small by lia.
Qed.

(** A push with the stack pointer outside the memory. *)
Lemma push_outside v s :
  ¬ (-65536 ≤ stack_pointer s < 131072) → push v s = Raise IndexError.
Proof.
  intros Hsp. unfold push, bind, modify, gets, set_mem, mem_slot. cbn.
  destruct (decide (stack_pointer s >= 65536)) as [Hge|Hlt].
  - rewrite (bool_decide_true (stack_pointer s >= 65536)) by done.
    rewrite (bool_decide_false (stack_pointer s - 65536 < 0)) by lia.
    by rewrite bool_decide_false by lia.
  - rewrite (bool_decide_false (stack_pointer s >= 65536)) by done.
    rewrite (bool_decide_true (stack_pointer s < 0)) by lia.
    by rewrite bool_decide_false by lia.
Qed.

Lemma binary_in_range f s :
  2 ≤ stack_pointer s ≤ 65536 →
  let sp := stack_pointer s in
  let a := default 0 (memory s !! (sp - 2)) in
  let b := default 0 (memory s !! (sp - 1)) in
  ∃ s', binary f s = Ok (tt, s')
        ∧ memory s' = <[sp - 2 := f a b]> (memory s)
        ∧ stack_pointer s' = sp - 1 ∧ pc s' = pc s + 1.
Proof.
  intros Hsp sp a b. unfold binary, bind at 1.
  rewrite pop_in_range by lia. unfold bind at 1.
  rewrite pop_in_range by (cbn; lia). unfold bind at 1.
  rewrite push_in_range by (cbn; lia). cbn.
  eexists. split; [reflexivity|]. cbn.
  replace (stack_pointer s - 1 - 1) with (sp - 2) by (subst sp; lia).
  split_and!; [done|subst sp; lia|done].
Qed.

End vm_facts.

(** C3 (amended): with two operands on the stack, [OPADD], [OPMUL] and
    [OPSUB] replace them by the exact integer sum, product and difference,
    and [OPNEG] replaces the top value by its exact negation: the results
    are not reduced modulo 2^16. *)
Theorem arithmetic_exact (s : vm) :
  2 ≤ stack_pointer s ≤ 65536 →
  let sp := stack_pointer s in
  let a := default 0 (memory s !! (sp - 2)) in
  let b := default 0 (memory s !! (sp - 1)) in
  (∃ s', op_add s = Ok (tt, s') ∧ memory s' = <[sp - 2 := a + b]> (memory s)
         ∧ stack_pointer s' = sp - 1)
  ∧ (∃ s', op_mul s = Ok (tt, s') ∧ memory s' = <[sp - 2 := a * b]> (memory s)
           ∧ stack_pointer s' = sp - 1)
  ∧ (∃ s', op_sub s = Ok (tt, s') ∧ memory s' = <[sp - 2 := a - b]> (memory s)
           ∧ stack_pointer s' = sp - 1)
  ∧ (∃ s', op_opneg s = Ok (tt, s') ∧ memory s' = <[sp - 1 := - b]> (memory s)
           ∧ stack_pointer s' = sp).
Proof.
  intros Hsp sp a b. split_and!.
  - destruct (binary_in_range (λ a b, a + b) s Hsp) as (s' & H1 & H2 & H3 & _). eauto.
  - destruct (binary_in_range (λ a b, a * b) s Hsp) as (s' & H1 & H2 & H3 & _). eauto.
  - destruct (binary_in_range (λ a b, a - b) s Hsp) as (s' & H1 & H2 & H3 & _). eauto.
  - unfold op_opneg, bind at 1. rewrite pop_in_range by lia. unfold bind at 1.
    rewrite push_in_range by (cbn; lia). cbn.
    eexists. split; [reflexivity|]. cbn. split; [done|subst sp; lia].
Qed.

Lemma arithmetic_exact_witness :
  ∃ s', op_add overflow_state = Ok (tt, s')
        ∧ memory s' = <[0 := 65535 + 1]> (memory overflow_state)
        ∧ stack_pointer s' = 1.
Proof.
  destruct (arithmetic_exact overflow_state) as [H _]; [vm_compute; split; congruence|].
  exact H.
Defined.

(** C3 as stated fails: [OPADD] on 65535 and 1 leaves 65536 on the stack,
    which is neither the sum modulo 2^16 nor a 16-bit value. *)
Lemma arithmetic_wraps_counterexample :
  ∃ s', op_add overflow_state = Ok (tt, s')
        ∧ read_mem s' (stack_pointer s' - 1) = Ok 65536
        ∧ 65536 ≠ (65535 + 1) `mod` 2 ^ 16
        ∧ ¬ (0 ≤ 65536 ≤ 65535).
Proof. eexists. split; [vm_compute; reflexivity|]. split_and!; [done|done|lia]. Qed.

(** C6 (amended): [CALLI] with an id that is in no entry of the table of
    imported functions calls nothing and has no error of its own.  While
    the stack pointer is at a cell of the memory, from -65536 up to 131071,
    it pushes the result register, which it leaves as it is, into the cell
    [SP mod 65536] (the cell [SP] for a stack pointer from 0 to 65535) and
    continues with the next instruction.  With the stack pointer anywhere
    else the push raises [IndexError]. *)
Theorem calli_unknown_id_continues (imports : gmap Z (M unit)) (s : vm) (id : Z) :
  index (code s) (pc s + 1) = Ok id →
  imports !! id = None →
  (-65536 ≤ stack_pointer s < 131072 →
   ∃ s', op_calli imports s = Ok (tt, s')
         ∧ memory s'
           = <[stack_pointer s `mod` 65536 := result_register s]> (memory s)
         ∧ stack_pointer s' = stack_pointer s + 1
         ∧ pc s' = pc s + 2
         ∧ result_register s' = result_register s
         ∧ finished s' = finished s
         ∧ waiting_response s' = waiting_response s)
  ∧ (¬ (-65536 ≤ stack_pointer s < 131072) →
     op_calli imports s = Raise IndexError).
Proof.
  intros Hid Hnone.
  assert (∀ r, op_calli imports s = r
               ↔ (push (result_register s) ;; advance 2) s = r) as Hcalli.
  { intros r. unfold op_calli, bind at 1, operand. rewrite Hid. cbn.
    rewrite Hnone. unfold bind at 1, ret. unfold bind at 1, gets. done. }
  split; intros Hsp.
  - eexists. split.
    + apply Hcalli. unfold bind. rewrite push_wraps by done. reflexivity.
    + by cbn.
  - apply Hcalli. unfold bind. by rewrite push_outside.
Qed.

Lemma calli_unknown_id_continues_witness :
  (∃ s', op_calli imported_functions unknown_import_state = Ok (tt, s')
         ∧ memory s' = <[576 `mod` 65536 := 0]> (memory unknown_import_state)
         ∧ stack_pointer s' = 577 ∧ pc s' = 2 ∧ result_register s' = 0
         ∧ finished s' = false ∧ waiting_response s' = false)
  ∧ op_calli imported_functions stray_stack_state = Raise IndexError.
Proof.
  split.
  - destruct (calli_unknown_id_continues imported_functions unknown_import_state 99)
      as [H _]; [reflexivity|reflexivity|].
    apply H. vm_compute. split; congruence.
  - destruct (calli_unknown_id_continues imported_functions stray_stack_state 99)
      as [_ H]; [reflexivity|reflexivity|].
    apply H. vm_compute. intros [H1 _]. by apply H1.
Defined.

(** C6 as stated fails: the program [CALLI 99; EXIT_OP] runs to its end
    without an error although no imported function has the id 99. *)
Lemma calli_unknown_id_counterexample :
  imported_functions !! 99 = None
  ∧ ∃ s', execute imported_functions 3 unknown_import_state = Ok s'
          ∧ finished s' = true ∧ pc s' = 2 ∧ stack_pointer s' = 577.
Proof. split; [reflexivity|]. eexists. split; [vm_compute; reflexivity|done]. Qed.

(** C7 (amended): [RET] decrements the call level first.  When the level
    drops below 0 the conversation is finished and nothing is popped: the
    program counter, the stack pointer and the memory stay as they are.
    Otherwise the return address is popped and becomes the program
    counter. *)
Theorem ret_checks_level_first (s : vm) :
  (call_level s ≤ 0 →
   ∃ s', op_ret s = Ok (tt, s')
         ∧ finished s' = true ∧ call_level s' = call_level s - 1
         ∧ pc s' = pc s ∧ stack_pointer s' = stack_pointer s
         ∧ memory s' = memory s)
  ∧ (0 < call_level s → 1 ≤ stack_pointer s ≤ 65536 →
     ∃ s', op_ret s = Ok (tt, s')
           ∧ pc s' = default 0 (memory s !! (stack_pointer s - 1))
           ∧ stack_pointer s' = stack_pointer s - 1
           ∧ call_level s' = call_level s - 1
           ∧ finished s' = finished s).
Proof.
  split.
  - intros Hl. unfold op_ret, bind at 1, modify. unfold bind at 1, gets. cbn.
    rewrite bool_decide_true by lia. rewrite finish_conversation_ok.
    eexists. split; [reflexivity|]. by cbn.
  - intros Hl Hsp. unfold op_ret, bind at 1, modify. unfold bind at 1, gets. cbn.
    rewrite bool_decide_false by lia. unfold bind at 1.
    rewrite pop_in_range by (cbn; lia). cbn.
    eexists. split; [reflexivity|]. by cbn.
Qed.

Lemma ret_checks_level_first_witness :
  (∃ s', op_ret (ret_state 0) = Ok (tt, s')
         ∧ finished s' = true ∧ call_level s' = 0 - 1
         ∧ pc s' = 3 ∧ stack_pointer s' = 576
         ∧ memory s' = memory (ret_state 0))
  ∧ (∃ s', op_ret (ret_state 1) = Ok (tt, s')
           ∧ pc s' = 7 ∧ stack_pointer s' = 576 - 1
           ∧ call_level s' = 1 - 1 ∧ finished s' = false).
Proof.
  split.
  - destruct (ret_checks_level_first (ret_state 0)) as [H _].
    apply H. vm_compute. congruence.
  - destruct (ret_checks_level_first (ret_state 1)) as [_ H].
    apply H; vm_compute; [reflexivity|split; congruence].
Defined.

(** C7 as stated fails: at call level 0 with 7 on top of the stack, [RET]
    finishes the conversation without popping the 7 and without jumping
    to it. *)
Lemma ret_always_pops_counterexample :
  ∃ s', op_ret (ret_state 0) = Ok (tt, s')
        ∧ finished s' = true
        ∧ read_mem (ret_state 0) (stack_pointer (ret_state 0) - 1) = Ok 7
        ∧ pc s' ≠ 7
        ∧ stack_pointer s' ≠ stack_pointer (ret_state 0) - 1.
Proof. eexists. split; [vm_compute; reflexivity|]. by split_and!. Qed.

(** ** Branches to labels *)

(** The operand that the second pass of [parse_asm] stores for a branch to
    a label, added to the address of the branch. *)
Lemma branch_operand (lbls : gmap string Z) (L name : string) (target current_pc : Z) :
  name ∈ ["BEQ"; "BNE"; "BRA"] →
  lbls !! L = Some target →
  current_pc + _resolve_argument lbls L name current_pc = target - 2.
Proof.
  intros Hn HL. unfold _resolve_argument. rewrite HL.
  rewrite bool_decide_true by done. lia.
Qed.

(** C1: a taken branch whose operand is the one that [parse_asm] computes
    for the label [L] sets the program counter to the address of [L] minus
    2, not to the address of [L]: the operand is relative to the address
    after the branch, and the handlers add it to the address of the
    branch. *)
Theorem branch_to_label_lands_two_words_early (s : vm) (L name : string)
    (target : Z) :
  name ∈ ["BEQ"; "BNE"; "BRA"] →
  labels s !! L = Some target →
  index (code s) (pc s + 1) = Ok (_resolve_argument (labels s) L name (pc s)) →
  1 ≤ stack_pointer s ≤ 65536 →
  let value := default 0 (memory s !! (stack_pointer s - 1)) in
  (∃ s', op_bra s = Ok (tt, s') ∧ pc s' = target - 2)
  ∧ (value = 0 → ∃ s', op_beq s = Ok (tt, s') ∧ pc s' = target - 2)
  ∧ (value ≠ 0 → ∃ s', op_bne s = Ok (tt, s') ∧ pc s' = target - 2).
Proof.
  intros Hn HL Hop Hsp value.
  pose proof (branch_operand (labels s) L name target (pc s) Hn HL) as Hpc.
  split_and!.
  - unfold op_bra, bind, operand, modify. rewrite Hop. cbn.
    eexists. split; [reflexivity|]. cbn. exact Hpc.
  - intros Hv. unfold op_beq, bind at 1, operand. rewrite Hop. cbn.
    unfold bind at 1. rewrite pop_in_range by done. fold value. rewrite Hv.
    rewrite bool_decide_true by done. unfold modify.
    eexists. split; [reflexivity|]. cbn. exact Hpc.
  - intros Hv. unfold op_bne, bind at 1, operand. rewrite Hop. cbn.
    unfold bind at 1. rewrite pop_in_range by done. fold value.
    rewrite bool_decide_true by done. unfold modify.
    eexists. split; [reflexivity|]. cbn. exact Hpc.
Qed.

Lemma branch_to_label_lands_two_words_early_witness :
  labels (loaded_vm bra_program) !! "L" = Some 4
  ∧ ∃ s', op_bra (loaded_vm bra_program) = Ok (tt, s') ∧ pc s' = 4 - 2.
Proof.
  split; [vm_compute; reflexivity|].
  apply (branch_to_label_lands_two_words_early (loaded_vm bra_program) "L" "BRA" 4).
  - by repeat constructor.
  - vm_compute. reflexivity.
  - vm_compute. reflexivity.
  - vm_compute. split; congruence.
Defined.

(** The three branches in parsed programs: the label [L] is recorded at
    the address of [EXIT_OP], and the machine arrives two words before
    it. *)
Lemma labelled_branches_run :
  (∃ s s', loaded bra_program = Ok s ∧ labels s !! "L" = Some 4
           ∧ step imported_functions s = Ok (tt, s') ∧ pc s' = 4 - 2)
  ∧ (∃ s s', loaded beq_program = Ok s ∧ labels s !! "L" = Some 7
             ∧ run2 s = Ok (tt, s') ∧ pc s' = 7 - 2)
  ∧ (∃ s s', loaded bne_program = Ok s ∧ labels s !! "L" = Some 7
             ∧ run2 s = Ok (tt, s') ∧ pc s' = 7 - 2).
Proof.
  split_and!; eexists; eexists; (split; [vm_compute; reflexivity|]);
    (split; [vm_compute; reflexivity|]); (split; [vm_compute; reflexivity|]);
    reflexivity.
Qed.

(** ** The waiting flag *)

Section waiting.

Lemma keeps_ret {A} (a : A) : keeps (ret a).
Proof. intros s a' s' Hs [= <- <-]. done. Qed.

Lemma keeps_bind {A B} (m : M A) (f : A → M B) :
  keeps m → (∀ a, keeps (f a)) → keeps (bind m f).
Proof.
  intros Hm Hf s b s' Hs. unfold bind.
  destruct (m s) as [[a s1]|] eqn:E; [|done].
  intros Hfa. eapply Hf; [|exact Hfa]. eapply Hm; [exact Hs|exact E].
Qed.

Lemma keeps_raise {A} e : keeps (@raise A e).
Proof. intros s a s' _ [=]. Qed.

Lemma keeps_lift {A} (r : result A) : keeps (lift r).
Proof. intros s a s' Hs. unfold lift. destruct r; [|done]. by intros [= <- <-]. Qed.

Lemma keeps_gets {A} (f : vm → A) : keeps (gets f).
Proof. intros s a s' Hs [= <- <-]. done. Qed.

Lemma keeps_modify (f : vm → vm) :
  (∀ s, waiting_response (f s) = waiting_response s) → keeps (modify f).
Proof. intros Hf s a s' Hs [= <- <-]. unfold awake. by rewrite Hf. Qed.

Lemma keeps_get_mem a : keeps (get_mem a).
Proof.
  intros s v s' Hs. unfold get_mem. destruct (read_mem s a); [|done].
  by intros [= <- <-].
Qed.

Lemma keeps_set_mem a v : keeps (set_mem a v).
Proof.
  intros s u s' Hs. unfold set_mem. cbn zeta. destruct (mem_slot _); [|done].
  by intros [= <- <-].
Qed.

Lemma keeps_operand : keeps operand.
Proof.
  intros s v s' Hs. unfold operand. destruct (index _ _); [|done].
  by intros [= <- <-].
Qed.

Lemma keeps_input : keeps input.
Proof.
  intros s v s' Hs. unfold input. destruct (stdin s); [done|].
  by intros [= <- <-].
Qed.

Lemma keeps_randint v : keeps (randint v).
Proof.
  intros s r s' Hs. unfold randint. case_bool_decide; [done|].
  destruct (random_source s); by intros [= <- <-].
Qed.

Lemma keeps_len_string_block {A} : keeps (@len_string_block A).
Proof. intros s a s' _. unfold len_string_block. by destruct (string_block s). Qed.

Lemma keeps_for_each {A} (l : list A) (body : A → M unit) :
  (∀ x, keeps (body x)) → keeps (for_each l body).
Proof.
  intros Hb. induction l as [|x l IH]; cbn [for_each].
  - apply keeps_ret.
  - apply keeps_bind; [apply Hb|intros _; apply IH].
Qed.

Lemma keeps_menu_options fuel p : ∀ i, keeps (menu_options fuel p i).
Proof.
  induction fuel as [|fuel IH]; intros i; cbn [menu_options].
  - apply keeps_raise.
  - apply keeps_bind; [apply keeps_get_mem|intros x].
    case_bool_decide; [apply keeps_ret|apply IH].
Qed.

Lemma keeps_fmenu_options fuel p q : ∀ i l, keeps (fmenu_options fuel p q i l).
Proof.
  induction fuel as [|fuel IH]; intros i l; cbn [fmenu_options].
  - apply keeps_raise.
  - apply keeps_bind; [apply keeps_get_mem|intros x].
    case_bool_decide; [apply keeps_ret|].
    apply keeps_bind; [apply keeps_get_mem|intros y]. apply IH.
Qed.

Lemma clears_bind {A B} (m : M A) (f : A → M B) :
  (∀ a, clears (f a)) → clears (bind m f).
Proof.
  intros Hf s b s'. unfold bind. destruct (m s) as [[a s1]|]; [|done]. apply Hf.
Qed.

Lemma clears_wake : clears (modify (with_waiting_response false)).
Proof. by intros s a s' [= <- <-]. Qed.

Lemma clears_keeps {A} (m : M A) : clears m → keeps m.
Proof. intros Hm s a s' _. apply Hm. Qed.

End waiting.

Create HintDb keeps.
#[local] Hint Resolve keeps_ret keeps_raise keeps_lift keeps_gets keeps_get_mem
  keeps_set_mem keeps_operand keeps_input keeps_randint keeps_len_string_block
  keeps_menu_options keeps_fmenu_options : keeps.

(** Decomposition of a computation into its steps. *)
Ltac keeps_step :=
  match goal with
  | |- keeps (bind _ _) => apply keeps_bind; [|intros ?]
  | |- keeps (for_each _ _) => apply keeps_for_each; intros ?
  | |- keeps (modify _) => apply keeps_modify; intros ?; reflexivity
  | |- keeps (if ?b then _ else _) => destruct b
  | |- keeps (match ?x with _ => _ end) => destruct x
  | |- keeps _ => solve [auto with keeps]
  end.

Ltac keeps_tac := repeat keeps_step.

Ltac clears_tac := apply clears_keeps; repeat (apply clears_bind; intros ?); apply clears_wake.

Create HintDb imported.
#[local] Hint Unfold func_print func_compare func_contains func_random
  func_length func_get_quest func_set_quest pop2_read2 func_sex func_show_inv
  func_give_to_npc func_give_ptr_npc func_take_from_npc func_take_id_from_npc
  func_identify_inv func_do_offer func_do_demand func_do_inv_create
  func_do_inv_delete func_check_inv_quality func_set_inv_quality func_count_inv
  pop_read_set func_setup_to_barter func_end_barter func_do_judgement
  func_do_decline func_add_to_npc_inv func_remove_talker func_set_likes_dislikes
  func_gronk_door func_set_race_attitude func_place_object func_take_from_npc_inv
  func_set_attitude func_x_skills func_x_traps func_x_obj_stuff func_find_inv
  func_find_barter func_find_barter_total input_int input_starts : imported.

Section handlers.

Lemma keeps_push v : keeps (push v).
Proof. unfold push. keeps_tac. Qed.

Lemma keeps_pop : keeps pop.
Proof. unfold pop. keeps_tac. Qed.

Hint Resolve keeps_push keeps_pop : keeps.

Lemma keeps_advance n : keeps (advance n).
Proof. unfold advance. keeps_tac. Qed.

Lemma keeps_finish_conversation : keeps finish_conversation.
Proof. unfold finish_conversation. keeps_tac. Qed.

Lemma keeps_binary f : keeps (binary f).
Proof. pose proof keeps_advance. unfold binary. keeps_tac. Qed.

Lemma keeps_pops n : keeps (pops n).
Proof. unfold pops. keeps_tac. Qed.

Hint Resolve keeps_advance keeps_finish_conversation keeps_binary keeps_pops : keeps.

Lemma keeps_imported (id : Z) (f : M unit) :
  imported_functions !! id = Some f → keeps f.
Proof.
  intros Hf. unfold imported_functions in Hf.
  apply elem_of_list_to_map_2 in Hf.
  repeat (apply elem_of_cons in Hf as [[= -> ->]|Hf];
          [first [clears_tac
                 | repeat autounfold with imported;
                   keeps_tac]|]).
  by apply elem_of_nil in Hf.
Qed.

Lemma keeps_calli : keeps (op_calli imported_functions).
Proof.
  unfold op_calli. apply keeps_bind; [auto with keeps|intros id].
  apply keeps_bind.
  - destruct (imported_functions !! id) as [f|] eqn:Hf;
      [by apply (keeps_imported id)|auto with keeps].
  - intros _. keeps_tac.
Qed.

Lemma keeps_handler (opcode : Z) (h : M unit) :
  opcode_handlers imported_functions opcode = Some h → keeps h.
Proof.
  pose proof keeps_calli.
  intros Hh. unfold opcode_handlers in Hh.
  repeat match type of Hh with
         | match ?x with _ => _ end = _ => destruct x
         end;
    try discriminate; injection Hh as <-; try assumption;
    unfold op_nop, op_add, op_mul, op_sub, op_div, op_mod, op_or, op_and, op_not,
      op_tstgt, op_tstge, op_tstlt, op_tstle, op_tsteq, op_tstne, op_jmp, op_beq,
      op_bne, op_bra, op_call, op_ret, op_pushi, op_pushi_eff, op_pop, op_swap,
      op_pushbp, op_popbp, op_sptobp, op_bptosp, op_addsp, op_fetchm, op_sto,
      op_offset, op_start, op_save_reg, op_push_reg, op_exit_op, op_say_op,
      op_opneg; keeps_tac.
Qed.

Lemma step_keeps_awake : keeps (step imported_functions).
Proof.
  unfold step. apply keeps_bind; [auto with keeps|intros pc0].
  apply keeps_bind; [auto with keeps|intros cd].
  apply keeps_bind; [auto with keeps|intros opcode].
  apply keeps_bind.
  - destruct (opcode_handlers imported_functions opcode) as [h|] eqn:Hh;
      [by apply (keeps_handler opcode)|auto with keeps].
  - intros _. keeps_tac.
Qed.

End handlers.

Section input_handlers.

Lemma clears_func_babl_menu : clears func_babl_menu.
Proof. unfold func_babl_menu. repeat (apply clears_bind; intros ?). apply clears_wake. Qed.

Lemma clears_func_babl_fmenu : clears func_babl_fmenu.
Proof. unfold func_babl_fmenu. repeat (apply clears_bind; intros ?). apply clears_wake. Qed.

Lemma func_babl_ask_reads (s : vm) (line : string) (rest : list string) :
  stdin s = line :: rest →
  func_babl_ask s
  = Ok (tt, with_waiting_response false
              (with_result_register 100
                 (with_stdin rest (with_waiting_response true s)))).
Proof.
  intros Hin. unfold func_babl_ask, bind, modify, input. cbn. by rewrite Hin.
Qed.

End input_handlers.

(** C9 (amended): no instruction suspends the machine.  A turn of the
    execution loop that starts with the waiting flag clear ends with it
    clear; [babl_menu] and [babl_fmenu] end with the flag clear;
    [babl_ask] reads a line from the input at once and ends with the flag
    clear; [RESPOND_OP] (0x28) has no handler; and resuming with a choice
    stores it in the result register and runs the program again from
    address 0. *)
Theorem no_opcode_suspends :
  (∀ s s', waiting_response s = false →
     step imported_functions s = Ok (tt, s') → waiting_response s' = false)
  ∧ (∀ s s', func_babl_menu s = Ok (tt, s') → waiting_response s' = false)
  ∧ (∀ s s', func_babl_fmenu s = Ok (tt, s') → waiting_response s' = false)
  ∧ (∀ s line rest, stdin s = line :: rest →
       ∃ s', func_babl_ask s = Ok (tt, s') ∧ waiting_response s' = false
             ∧ result_register s' = 100 ∧ stdin s' = rest)
  ∧ opcode_handlers imported_functions 0x28 = None
  ∧ (∀ fuel choice s,
       resume_conversation imported_functions fuel (Some choice) s
       = execute_loop imported_functions fuel
           (with_pc 0 (with_waiting_response false (with_result_register choice s)))).
Proof.
  split_and!.
  - intros s s' Hs Hstep. exact (step_keeps_awake s tt s' Hs Hstep).
  - intros s s' H. exact (clears_func_babl_menu s tt s' H).
  - intros s s' H. exact (clears_func_babl_fmenu s tt s' H).
  - intros s line rest Hin. rewrite (func_babl_ask_reads s line rest Hin).
    eexists. split; [reflexivity|]. by cbn.
  - reflexivity.
  - reflexivity.
Qed.

Lemma no_opcode_suspends_witness :
  ∃ s', step imported_functions menu_state = Ok (tt, s')
        ∧ waiting_response s' = false.
Proof.
  eexists. split; [vm_compute; reflexivity|].
  apply (proj1 no_opcode_suspends menu_state); [reflexivity|vm_compute; reflexivity].
Defined.

(** C9 as stated fails: after [CALLI 0] ([babl_menu]) and after
    [RESPOND_OP] the machine is running, not waiting; the menu has taken
    the reply from the input within the instruction. *)
Lemma input_suspends_counterexample :
  (∃ s', running menu_state = true
         ∧ step imported_functions menu_state = Ok (tt, s')
         ∧ waiting_response s' = false ∧ running s' = true
         ∧ result_register s' = 1 ∧ pc s' = 2)
  ∧ (∃ s', running respond_state = true
           ∧ step imported_functions respond_state = Ok (tt, s')
           ∧ waiting_response s' = false ∧ running s' = true ∧ pc s' = 1).
Proof.
  split; eexists; (split; [reflexivity|]); (split; [vm_compute; reflexivity|]);
    by split_and!.
Qed.

End machine_facts.

(** * Properties of the code generator *)
Section compiler_facts.
Import Py UWScript Scenario.
Local Open Scope string_scope.
Local Open Scope Z_scope.
Local Open Scope list_scope.

Section substitution.

Lemma append_assoc (a b c : string) : (a +:+ b) +:+ c = a +:+ (b +:+ c).
Proof.
  induction a as [|x a IH]; [done|].
  change (String x ((a +:+ b) +:+ c) = String x (a +:+ (b +:+ c))). by f_equal.
Qed.

Lemma list_index_spec (l : list string) x : ∀ i k,
  list_index l x i = Ok k →
  i ≤ k ∧ (Z.to_nat (k - i) < length l)%nat ∧ l !! Z.to_nat (k - i) = Some x.
Proof.
  induction l as [|y l IH]; intros i k H; cbn [list_index] in H; [done|].
  case_bool_decide as Hy.
  - injection H as <-. subst y. rewrite Z.sub_diag. cbn. split_and!; [lia|lia|done].
  - destruct (IH _ _ H) as (H1 & H2 & H3).
    replace (Z.to_nat (k - i)) with (S (Z.to_nat (k - (i + 1)))) by lia.
    cbn. split_and!; [lia|lia|done].
Qed.

Lemma substitute_literal_spec original substituted g :
  let '(idx, g') := substitute_literal original substituted g in
  0 ≤ idx ∧ string_literals g' !! Z.to_nat idx = Some substituted
  ∧ target_code g' = target_code g ∧ current_target g' = current_target g
  ∧ vm_position g' = vm_position g.
Proof.
  unfold substitute_literal.
  destruct (list_index (string_literals g) original 0) as [k|] eqn:Hk.
  - apply list_index_spec in Hk as (H1 & H2 & H3). rewrite Z.sub_0_r in H2, H3.
    cbn. split_and!; [done| |done|done|done].
    by apply list_lookup_insert_eq.
  - cbn. split_and!; [rewrite length_app; simpl; lia| |done|done|done].
    rewrite length_app. simpl.
    replace (Z.to_nat (Z.of_nat (length (string_literals g) + 1) - 1))
      with (length (string_literals g) + 0)%nat by lia.
    by rewrite lookup_app_r, Nat.add_comm, Nat.add_sub by lia.
Qed.

Lemma target_code_append line g :
  target_code (append_line line g) = target_code g ++ [line].
Proof.
  unfold append_line, target_code. destruct (current_target g) eqn:E; cbn; by rewrite E.
Qed.

Lemma target_code_emit line g : target_code (_emit line g) = target_code g ++ [line].
Proof.
  unfold _emit. destruct (ends_with_colon line); [apply target_code_append|].
  destruct (contains line " "); apply target_code_append.
Qed.

Lemma string_literals_emit line g : string_literals (_emit line g) = string_literals g.
Proof.
  unfold _emit, append_line.
  destruct (ends_with_colon line), (contains line " "), (current_target g); reflexivity.
Qed.

End substitution.

(** The directive that [subst_type] selects. *)
Lemma subst_type_spec (g : gen) (name : string) :
  "@" +:+ subst_type g name
  = if bool_decide (dict_get (variable_types g) name = Some "string")
    then "@SS" else "@SI".
Proof.
  unfold subst_type. destruct (dict_get (variable_types g) name) as [t|]; cbn [default].
  - unfold id. destruct (decide (t = "string")) as [->|Hne].
    + by rewrite !bool_decide_true.
    + rewrite !bool_decide_false; [done|congruence|done].
  - rewrite !bool_decide_false; done.
Qed.

(** C8: for a [+] whose operands are a string literal and an identifier
    of a defined variable, in either order, the generator emits the single
    line [PUSHI <id>] and stores under that id the literal with a directive
    appended or prepended: [@SS<offset>] when the table of variable types
    has the type [string] for the variable, [@SI<offset>] for every other
    type and for a variable without an entry.  The script [let hp = 75 /
    say "HP: " + hp] is compiled with the literal [HP: @SI0], and running
    it prints [HP: 75]; the script [let player_name = "Avatar" / say
    "Hello " + player_name] is compiled with the literal [Hello @SS0], and
    running it prints [Hello Avatar]. *)
Theorem string_plus_variable_is_one_pushi (g : gen) (original name : string)
    (var_offset : Z) :
  _get_variable_offset g name = Some var_offset →
  let directive :=
    (if bool_decide (dict_get (variable_types g) name = Some "string")
     then "@SS" else "@SI") +:+ str var_offset in
  (∃ g' string_idx,
     _generate_code
       (BinaryOperation "+" (Literal (STRING original)) (Identifier name)) g = Ok g'
     ∧ target_code g' = target_code g ++ ["PUSHI " +:+ str string_idx]
     ∧ 0 ≤ string_idx
     ∧ string_literals g' !! Z.to_nat string_idx = Some (original +:+ directive))
  ∧ (∃ g' string_idx,
       _generate_code
         (BinaryOperation "+" (Identifier name) (Literal (STRING original))) g = Ok g'
       ∧ target_code g' = target_code g ++ ["PUSHI " +:+ str string_idx]
       ∧ 0 ≤ string_idx
       ∧ string_literals g' !! Z.to_nat string_idx = Some (directive +:+ original))
  ∧ (∃ s, compile_and_run string_substitution 9 = Ok s
          ∧ UltimaUnderworldVM.finished s = true
          ∧ UltimaUnderworldVM.current_string_block s = Some ["HP: @SI0"]
          ∧ UltimaUnderworldVM.transcript s = ["HP: 75"])
  ∧ (∃ s, compile_and_run string_variable 9 = Ok s
          ∧ UltimaUnderworldVM.finished s = true
          ∧ UltimaUnderworldVM.current_string_block s = Some ["Avatar"; "Hello @SS0"]
          ∧ UltimaUnderworldVM.transcript s = ["Hello Avatar"]).
Proof.
  intros Hoff directive.
  assert (directive = "@" +:+ subst_type g name +:+ str var_offset) as Hdir.
  { subst directive. rewrite <- subst_type_spec. by rewrite append_assoc. }
  split_and!.
  - cbn [_generate_code]. rewrite bool_decide_true by done. cbn [is_concat orb].
    rewrite Hoff, Hdir.
    pose proof (substitute_literal_spec original
                  (original +:+ "@" +:+ subst_type g name +:+ str var_offset) g) as Hs.
    destruct (substitute_literal original _ g) as [idx g1].
    destruct Hs as (H1 & H2 & H3 & H4 & H5).
    exists (_emit ("PUSHI " +:+ str idx) g1), idx.
    split_and!; [done|by rewrite target_code_emit, H3|done|].
    by rewrite string_literals_emit.
  - cbn [_generate_code]. rewrite bool_decide_true by done. cbn [is_concat orb].
    rewrite Hoff, Hdir.
    pose proof (substitute_literal_spec original
                  (("@" +:+ subst_type g name +:+ str var_offset) +:+ original) g) as Hs.
    assert (∀ a b c d : string, (a +:+ b +:+ c) +:+ d = a +:+ b +:+ c +:+ d) as Hassoc.
    { intros. by rewrite !append_assoc. }
    rewrite Hassoc in Hs.
    destruct (substitute_literal original _ g) as [idx g1].
    destruct Hs as (H1 & H2 & H3 & H4 & H5).
    exists (_emit ("PUSHI " +:+ str idx) g1), idx.
    split_and!; [done|by rewrite target_code_emit, H3|done|].
    rewrite Hassoc.
    by rewrite string_literals_emit.
  - eexists. split; [vm_compute; reflexivity|]. vm_compute. by split_and!.
  - eexists. split; [vm_compute; reflexivity|]. vm_compute. by split_and!.
Qed.

Lemma string_plus_variable_is_one_pushi_witness :
  (∃ g' string_idx,
     _generate_code
       (BinaryOperation "+" (Literal (STRING "Hello ")) (Identifier "player_name"))
       name_gen = Ok g'
     ∧ target_code g' = target_code name_gen ++ ["PUSHI " +:+ str string_idx]
     ∧ 0 ≤ string_idx
     ∧ string_literals g' !! Z.to_nat string_idx = Some ("Hello " +:+ "@SS" +:+ str 0))
  ∧ (∃ g' string_idx,
       _generate_code
         (BinaryOperation "+" (Literal (STRING "HP: ")) (Identifier "hp")) hp_gen = Ok g'
       ∧ target_code g' = target_code hp_gen ++ ["PUSHI " +:+ str string_idx]
       ∧ 0 ≤ string_idx
       ∧ string_literals g' !! Z.to_nat string_idx = Some ("HP: " +:+ "@SI" +:+ str 0)).
Proof.
  split.
  - exact (proj1 (string_plus_variable_is_one_pushi name_gen "Hello " "player_name" 0
                    eq_refl)).
  - exact (proj1 (string_plus_variable_is_one_pushi hp_gen "HP: " "hp" 0 eq_refl)).
Defined.

(** C2: the script [function f(x, y) / return x * 2 + y / endfunction /
    let r = f(3, 4)], compiled and run.  The call pushes 3 and then 4, and
    the scope of [f] gives [x] the cell of the argument pushed last: the
    function computes 4 * 2 + 3.  The return sequence moves the stack
    pointer back to the frame after the value was pushed, so the value
    stays in the stack cell 591, which is given up.  The caller pops the
    two arguments and finds no value on the stack: its [SWAP] and [STO]
    reach the cell below the start of the stack and store the 0 found
    there in the cell of [r], at the base pointer.  The run ends with the
    stack pointer at 575, one cell below 576 where the stack starts, and
    not at the base pointer 64. *)
Theorem function_call_loses_result :
  UltimaUnderworldVM.stack_pointer
    (UltimaUnderworldVM.initialize_memory (UltimaUnderworldVM.init [] [])) = 576
  ∧ ∃ s, compile_and_run function_parameters 25 = Ok s
       ∧ UltimaUnderworldVM.finished s = true
       ∧ UltimaUnderworldVM.base_pointer s = 64
       ∧ UltimaUnderworldVM.stack_pointer s = 575
       ∧ UltimaUnderworldVM.read_mem s (64 + 0) = Ok 0
       ∧ UltimaUnderworldVM.read_mem s 591 = Ok (4 * 2 + 3).
Proof.
  split; [reflexivity|].
  eexists. split; [vm_compute; reflexivity|]. vm_compute. by split_and!.
Qed.

(** The branches of compiled code: [let c = 2 / if c == 1 / say "A" /
    else / say "C" / endif] prints nothing. *)
Lemma else_branch_is_skipped :
  ∃ s, compile_and_run if_else 13 = Ok s
       ∧ UltimaUnderworldVM.finished s = true
       ∧ UltimaUnderworldVM.current_string_block s = Some ["A"; "C"]
       ∧ UltimaUnderworldVM.transcript s = [].
Proof. eexists. split; [vm_compute; reflexivity|]. vm_compute. by split_and!. Qed.

End compiler_facts.

(** * More on the CNV.ARK codec *)
Section ark_more.
Import ArkCompressor.

Lemma run_control_check :
  forallb (λ k, bool_decide (128 ≤ Z.lor 0x80 k < 256)) (map Z.of_nat (seq 0 128)) = true.
Proof. vm_compute. reflexivity. Qed.

Lemma run_control_byte k : 0 ≤ k < 128 → 128 ≤ Z.lor 0x80 k < 256.
Proof.
  intros Hk. pose proof run_control_check as Hc.
  rewrite forallb_forall in Hc.
  specialize (Hc k). rewrite bool_decide_eq_true in Hc. apply Hc.
  apply in_map_iff. exists (Z.to_nat k). split; [lia|].
  apply in_seq. lia.
Qed.

Lemma token_stream_bytes enc dec :
  token_stream enc dec → Forall (λ b, 0 ≤ b < 256) dec → Forall (λ b, 0 ≤ b < 256) enc.
Proof.
  induction 1 as [|n v enc dec Hn Hts IH|lit enc dec Hn Hts IH]; intros Hdec.
  - constructor.
  - apply Forall_app in Hdec as [Hrun Hdec].
    constructor; [pose proof (run_control_byte (Z.of_nat n - 3)); lia|].
    constructor; [|by apply IH].
    destruct n as [|n]; [lia|]. by apply Forall_cons in Hrun as [? _].
  - apply Forall_app in Hdec as [Hlit Hdec].
    constructor; [lia|]. apply Forall_app. split; [done|by apply IH].
Qed.

Lemma token_stream_length enc dec :
  token_stream enc dec →
  (length enc ≤ 2 * length dec)%nat ∧ (dec = [] → enc = []).
Proof.
  induction 1 as [|n v enc dec Hn Hts [IH _]|lit enc dec Hn Hts [IH _]].
  - done.
  - split.
    + cbn [length]. rewrite length_app, length_replicate. lia.
    + intros H. apply (f_equal length) in H. rewrite length_app, length_replicate in H.
      simpl in H. lia.
  - split.
    + cbn [length]. rewrite !length_app. lia.
    + intros H. apply (f_equal length) in H. rewrite length_app in H. simpl in H. lia.
Qed.

(** X1: the compressor turns bytes into bytes: when every element
    of the input is in [0, 255], so is every element of the output (the
    control bytes included). *)
Theorem compress_bytes (x : list Z) :
  Forall (λ b, 0 ≤ b < 256) x → Forall (λ b, 0 ≤ b < 256) (compress x).
Proof. apply token_stream_bytes, compress_stream. Qed.

Lemma compress_bytes_witness : Forall (λ b, 0 ≤ b < 256) (compress [7; 7; 7; 7; 200; 1]).
Proof. apply compress_bytes. repeat constructor; lia. Defined.

(** X2: the output of the compressor is at most twice as long as
    its input, and it is empty exactly when the input is empty. *)
Theorem compress_length (x : list Z) :
  (length (compress x) ≤ 2 * length x)%nat ∧ (x = [] ↔ compress x = []).
Proof.
  destruct (token_stream_length _ _ (compress_stream x)) as [H1 H2].
  split; [done|]. split; [done|].
  intros He. pose proof (decompress_stream _ _ (compress_stream x)) as Hd.
  rewrite He in Hd. by rewrite <- Hd.
Qed.

(** X3: the decompressor decodes every sequence of run tokens and
    literal blocks, whether or not the compressor would have produced
    it. *)
Theorem decompress_token_stream (enc dec : list Z) :
  token_stream enc dec → decompress enc = dec.
Proof. apply decompress_stream. Qed.

Lemma scan_run_replicate (n : nat) (v : Z) : ∀ fuel j rl,
  (j + 1 = rl)%nat → (1 ≤ rl ≤ n)%nat → (n ≤ 130)%nat → (n ≤ rl + fuel)%nat →
  scan_run (replicate n v) v fuel j rl = n.
Proof.
  induction fuel as [|fuel IH]; intros j rl Hj Hrl Hn Hf; cbn [scan_run]; [lia|].
  case_bool_decide as Hc.
  - rewrite length_replicate in Hc. apply IH; lia.
  - destruct (decide (rl = n)) as [|Hne]; [done|]. exfalso. apply Hc.
    rewrite length_replicate. split_and!; [lia| |lia].
    apply lookup_replicate_2. lia.
Qed.

(** X4: a run of [n] equal bytes, [n] from 3 to 130, is compressed
    to two bytes: the control byte [0x80 | (n - 3)] and the byte of the
    run. *)
Theorem compress_run (n : nat) (v : Z) :
  (3 ≤ n ≤ 130)%nat →
  compress (replicate n v) = [Z.lor 0x80 (Z.of_nat n - 3); v].
Proof.
  intros Hn. unfold compress. rewrite length_replicate.
  destruct n as [|m]; [lia|]. cbn [compress_loop].
  set (d := replicate (S m) v).
  assert (length d = S m) as Hlen by apply length_replicate.
  assert (∀ k, (k < S m)%nat → d !! k = Some v) as Hd
    by (intros k Hk; by apply lookup_replicate_2).
  rewrite bool_decide_true by lia.
  rewrite !Hd by lia. cbn [default from_option id].
  rewrite (bool_decide_true (_ ∧ Some v = Some v)) by (split; [lia|done]).
  subst d. rewrite (scan_run_replicate (S m) v 130 0 1) by lia.
  set (d := replicate (S m) v) in *.
  rewrite bool_decide_true by (split_and!; [lia|done|lia]).
  destruct m as [|m']; [lia|]. cbn [compress_loop].
  rewrite bool_decide_false by lia. done.
Qed.

Lemma compress_run_witness : compress (replicate 5 9) = [Z.lor 0x80 (Z.of_nat 5 - 3); 9].
Proof. apply compress_run. lia. Defined.

Lemma scan_literal_no_run (d : list Z) :
  (∀ i, starts_run d i = false) →
  ∀ fuel i, (i ≤ length d)%nat → (length d ≤ 128)%nat → (length d ≤ i + fuel)%nat →
  scan_literal d fuel 0 i = length d.
Proof.
  intros Hno. induction fuel as [|fuel IH]; intros i Hi Hl Hf; cbn [scan_literal]; [lia|].
  case_bool_decide; [|lia]. rewrite Hno.
  case_bool_decide; [lia|]. apply IH; lia.
Qed.

(** X5: an input of 1 to 128 bytes in which no three
    consecutive bytes are equal is compressed to one literal block: the
    length minus 1, then the input. *)
Theorem compress_literal (x : list Z) :
  (∀ i, starts_run x i = false) → (1 ≤ length x ≤ 128)%nat →
  compress x = (Z.of_nat (length x) - 1) :: x.
Proof.
  intros Hno Hlen. unfold compress.
  destruct (length x) as [|m] eqn:Hm; [lia|]. cbn [compress_loop].
  rewrite Hm. rewrite bool_decide_true by lia.
  pose proof (Hno 0%nat) as H0. unfold starts_run in H0.
  apply bool_decide_eq_false in H0. rewrite Hm in H0.
  assert (scan_literal x 128 0 0 = S m) as Hs.
  { rewrite <- Hm. apply scan_literal_no_run; [done|lia..]. }
  match goal with
  | |- context [bool_decide (?P ∧ ?Q ∧ (3 ≤ ?r)%nat)] =>
      rewrite (bool_decide_false (P ∧ Q ∧ (3 ≤ r)%nat))
  end.
  - rewrite Hs. rewrite bool_decide_true by lia.
    replace (S m - 0)%nat with (S m) by lia.
    unfold slice. rewrite drop_0. replace (S m - 0)%nat with (S m) by lia.
    rewrite <- Hm, firstn_all. 
    destruct m as [|m']; [done|]. cbn [compress_loop]. rewrite Hm.
    by rewrite bool_decide_false by lia.
  - intros (H1 & H2 & H3). apply H0. split_and!; [done|done|].
    case_bool_decide as Hc; [|lia].
    destruct (x !! 0%nat) as [v|] eqn:Hv; [|apply lookup_ge_None in Hv; lia].
    cbn [default from_option id] in H3.
    destruct (scan_run_spec x v 0 130 0 1) as [_ Hall]; [lia|lia| |].
    { intros k Hk. by replace k with 0%nat by lia. }
    rewrite <- H2. symmetry. apply Hall. lia.
Qed.

Lemma compress_literal_witness :
  compress [1; 2; 2; 3] = (Z.of_nat (length [1; 2; 2; 3]) - 1) :: [1; 2; 2; 3].
Proof.
  apply compress_literal; [|simpl; lia].
  intros i. do 5 (destruct i as [|i]; [reflexivity|]).
  unfold starts_run. apply bool_decide_eq_false. simpl. lia.
Defined.

Lemma decompress_token_stream_witness :
  decompress [0x80; 5; 0x80; 5; 0; 9] = replicate 3 5 ++ replicate 3 5 ++ [9] ++ [].
Proof.
  apply decompress_token_stream.
  apply (ts_run 3 5); [lia|]. apply (ts_run 3 5); [lia|].
  apply (ts_lit [9]); [simpl; lia|]. constructor.
Defined.

Lemma is_compressed_low data :
  Forall (λ b, 0 ≤ b < 128) data → is_compressed data = false.
Proof.
  intros Hd. unfold is_compressed. cbn zeta.
  assert (filter (λ b, Z.land b 0x80 ≠ 0) (take 256 data) = []) as ->.
  { assert (Forall (λ b, 0 ≤ b < 128) (take 256 data)) as Ht by by apply Forall_take.
    induction Ht as [|b l Hb Hl IH]; [done|].
    rewrite filter_cons_False; [done|].
    destruct (control_bits b Hb) as (_ & _ & H0 & _). intros H. by apply H. }
  done.
Qed.

Lemma is_compressed_short data :
  (length data ≤ 64)%nat → is_compressed data = false.
Proof.
  intros Hl. unfold is_compressed. cbn zeta. apply bool_decide_eq_false.
  pose proof (length_filter (λ b, Z.land b 0x80 ≠ 0) (take 256 data)) as Hf.
  rewrite length_take in Hf. lia.
Qed.

(** X6: data of at most 64 bytes, and data whose bytes are all
    below 0x80, are not taken for compressed data, whatever they are. *)
Theorem is_compressed_needs_high_bits (data : list Z) :
  (length data ≤ 64)%nat ∨ Forall (λ b, 0 ≤ b < 128) data →
  is_compressed data = false.
Proof. intros [H|H]; [by apply is_compressed_short|by apply is_compressed_low]. Qed.

Lemma is_compressed_needs_high_bits_witness :
  is_compressed (compress [1; 2; 2; 3]) = false.
Proof. apply is_compressed_needs_high_bits. left. vm_compute. lia. Defined.

End ark_more.

(** * More on the Huffman codec *)
Section huffman_more.
Import Py Huffman HuffmanSpec.

(** X7: every character of a decoded string is the symbol of a
    node of the tree, and none is the terminator. *)
Theorem decode_string_symbols (nodes : list UaHuffNode) (raw0 : option (list Z))
    (data s : list Z) :
  decode_string nodes raw0 data = Ok s →
  Forall (λ c, c ≠ bar ∧ ∃ nd, nd ∈ nodes ∧ symbol nd = c) s.
Proof.
  intros Hd. destruct (decode_loop_sound nodes _ _ _ _ Hd) as (s' & -> & HF).
  cbn [app]. eapply Forall_impl; [exact HF|].
  intros c (Hc & q & m & nd & _ & [Hnd _] & Hchr). split; [done|].
  exists nd. split; [by eapply index_elem_of|].
  unfold chr in Hchr. case_bool_decide; [|done]. by injection Hchr.
Qed.

Lemma decode_string_symbols_witness :
  Forall (λ c, c ≠ bar ∧ ∃ nd, nd ∈ tree9 ∧ symbol nd = c) [97; 32; 98].
Proof.
  apply (decode_string_symbols tree9 None [0x4B]). vm_compute. reflexivity.
Defined.

(** ** Codes and paths *)

Lemma generated_code_path nodes codes c p :
  full_tree nodes → _generate_huffman_codes nodes ∅ = Ok codes →
  codes !! c = Some p → ∃ m, dpath nodes (root nodes) p m ∧ leaf nodes m c.
Proof.
  intros Hfull Hgen Hc. unfold _generate_huffman_codes in Hgen.
  destruct nodes as [|n0 l] eqn:Hn.
  - injection Hgen as <-. by rewrite lookup_empty in Hc.
  - rewrite <- Hn in *.
    destruct (generate_codes_sound nodes Hfull _ _ _ _ _ Hgen c p Hc)
      as [He|(q & m & -> & Hp & Hm)].
    + by rewrite lookup_empty in He.
    + exists m. done.
Qed.

Lemma dpath_app_inv nodes p : ∀ n q m,
  dpath nodes n (p ++ q) m → ∃ k, dpath nodes n p k ∧ dpath nodes k q m.
Proof.
  induction p as [|b p IH]; intros n q m H; cbn [app] in H.
  - exists n. split; [constructor|done].
  - inversion H as [|? nd ? ? ? Hnd Hl Hr Hp]; subst.
    destruct (IH _ _ _ Hp) as (k & H1 & H2).
    exists k. split; [|done]. by eapply dpath_cons.
Qed.

Lemma dpath_det nodes p : ∀ n m1 m2,
  dpath nodes n p m1 → dpath nodes n p m2 → m1 = m2.
Proof.
  induction p as [|b p IH]; intros n m1 m2 H1 H2.
  - inversion H1; inversion H2; congruence.
  - inversion H1 as [|? nd1 ? ? ? Hnd1 _ _ Hp1]; subst.
    inversion H2 as [|? nd2 ? ? ? Hnd2 _ _ Hp2]; subst.
    rewrite Hnd1 in Hnd2. injection Hnd2 as <-. by eapply IH.
Qed.

Lemma dpath_leaf nodes m c q k : leaf nodes m c → dpath nodes m q k → q = [] ∧ k = m.
Proof.
  intros (nd & Hnd & Hl & _) H. inversion H as [|? nd' ? ? ? Hnd' Hl' _ _]; subst; [done|].
  rewrite Hnd in Hnd'. injection Hnd' as <-. done.
Qed.

Lemma leaf_det nodes m c1 c2 : leaf nodes m c1 → leaf nodes m c2 → c1 = c2.
Proof.
  intros (nd1 & H1 & _ & _ & Hc1) (nd2 & H2 & _ & _ & Hc2).
  rewrite H1 in H2. injection H2 as <-. congruence.
Qed.

(** X8: in the codes generated from a tree whose nodes have two
    children or none, the code of a character is not a prefix of the code
    of another character. *)
Theorem generated_codes_prefix_free (nodes : list UaHuffNode)
    (codes : gmap Z (list bool)) (c1 c2 : Z) (p1 p2 : list bool) :
  full_tree nodes → _generate_huffman_codes nodes ∅ = Ok codes →
  codes !! c1 = Some p1 → codes !! c2 = Some p2 → c1 ≠ c2 →
  ¬ p1 `prefix_of` p2.
Proof.
  intros Hfull Hgen H1 H2 Hne [q ->].
  destruct (generated_code_path _ _ _ _ Hfull Hgen H1) as (m1 & Hp1 & Hl1).
  destruct (generated_code_path _ _ _ _ Hfull Hgen H2) as (m2 & Hp2 & Hl2).
  apply dpath_app_inv in Hp2 as (k & Hk & Hq).
  rewrite (dpath_det _ _ _ _ _ Hk Hp1) in Hq.
  destruct (dpath_leaf _ _ _ _ _ Hl1 Hq) as [-> ->].
  apply Hne. by eapply leaf_det.
Qed.

Lemma generated_codes_prefix_free_witness :
  ¬ [false; false] `prefix_of` [false; true].
Proof.
  apply (generated_codes_prefix_free tree9 (codes_of tree9) 32 97).
  - apply tree9_full.
  - vm_compute. reflexivity.
  - vm_compute. reflexivity.
  - vm_compute. reflexivity.
  - done.
Defined.

Lemma collect_bits_fallback codes c s2 : ∀ s1 acc,
  codes !! c = None →
  collect_bits codes (s1 ++ c :: s2) acc = collect_bits codes (s1 ++ space :: s2) acc.
Proof.
  intros s1 acc Hc. revert acc. induction s1 as [|x s1 IH]; intros acc; cbn [app collect_bits].
  - rewrite Hc. by destruct (codes !! space).
  - destruct (codes !! x); [apply IH|]. destruct (codes !! space); apply IH.
Qed.

(** X9: a character without a code, other than the
    terminator, is encoded like a space: replacing it by a space does not
    change the encoding. *)
Theorem encode_string_unknown_as_space (huffman_codes : gmap Z (list bool))
    (s1 s2 : list Z) (c : Z) :
  huffman_codes !! c = None → c ≠ bar →
  encode_string huffman_codes (s1 ++ c :: s2)
  = encode_string huffman_codes (s1 ++ space :: s2).
Proof.
  intros Hc Hbar. unfold encode_string. case_bool_decide; [done|].
  assert (endswith_bar (s1 ++ c :: s2) = endswith_bar (s1 ++ space :: s2)) as <-.
  { unfold endswith_bar. destruct s2 as [|y s2] using rev_ind.
    - rewrite !last_snoc. rewrite !bool_decide_false; [done| |]; intros [=]; done.
    - by rewrite !app_comm_cons, !app_assoc, !last_snoc. }
  destruct (endswith_bar (s1 ++ c :: s2)).
  - by rewrite collect_bits_fallback.
  - rewrite <- !app_assoc. cbn [app]. by rewrite collect_bits_fallback.
Qed.

Lemma encode_string_unknown_as_space_witness :
  encode_string (codes_of tree9) ([97] ++ 120 :: [98])
  = encode_string (codes_of tree9) ([97] ++ space :: [98]).
Proof.
  apply encode_string_unknown_as_space; [vm_compute; reflexivity|done].
Defined.

(** ** The bytes of an encoding *)

(** X10: when the characters of a string and the terminator
    have codes, the encoding has as many bytes as the codes of the string
    and of its terminator need, and its bits, most significant first, are
    those codes in order followed by zeros. *)
Theorem encode_string_bits (huffman_codes : gmap Z (list bool)) (s enc : list Z) :
  Forall (λ c, is_Some (huffman_codes !! c)) (s ++ [bar]) →
  encode_string huffman_codes s = Ok enc →
  let bits := code_bits huffman_codes (if endswith_bar s then s else s ++ [bar]) in
  length enc = ((length bits + 7) / 8)%nat
  ∧ Forall is_byte enc
  ∧ flat_map to_bits enc = bits ++ replicate (8 * length enc - length bits) false.
Proof.
  intros HF Henc bits. unfold encode_string in Henc.
  case_bool_decide; [done|]. injection Henc as <-.
  assert (Forall (λ c, is_Some (huffman_codes !! c))
            (if endswith_bar s then s else s ++ [bar])) as HF'.
  { destruct (endswith_bar s); [|done]. by apply Forall_app in HF as [? _]. }
  rewrite collect_bits_spec by done. cbn [app]. fold bits.
  destruct (pack_bits_bits bits) as (pad & Hbits & Hbytes).
  pose proof (pack_bits_length bits [] 0 0) as Hlen. cbn [length] in Hlen.
  rewrite Hlen by lia. split_and!; [done|done|].
  rewrite Hbits. do 2 f_equal.
  apply (f_equal length) in Hbits.
  rewrite flat_map_to_bits_length, length_app, length_replicate, Hlen in Hbits by lia.
  lia.
Qed.

Lemma encode_string_bits_witness :
  let bits := code_bits (codes_of tree9)
                (if endswith_bar [97; 32; 98] then [97; 32; 98] else [97; 32; 98] ++ [bar]) in
  length [0x4B] = ((length bits + 7) / 8)%nat
  ∧ Forall is_byte [0x4B]
  ∧ flat_map to_bits [0x4B] = bits ++ replicate (8 * length [0x4B] - length bits) false.
Proof.
  apply (encode_string_bits (codes_of tree9) [97; 32; 98] [0x4B]).
  - repeat constructor; vm_compute; eauto.
  - vm_compute. reflexivity.
Defined.

(** ** From the packer to the extractor *)

Lemma stop_root_codes nodes codes ndr c p :
  full_tree nodes → _generate_huffman_codes nodes ∅ = Ok codes →
  index nodes (root nodes) = Ok ndr → ¬ (left ndr ≠ 255 ∧ right ndr ≠ 255) →
  codes !! c = Some p → chr (symbol ndr) = Ok c.
Proof.
  intros Hfull Hgen Hroot Hstop Hc.
  destruct (generated_code_path _ _ _ _ Hfull Hgen Hc) as (m & Hp & nd & Hnd & _ & _ & Hchr).
  inversion Hp as [|? nd0 ? ? ? Hnd0 Hl0 Hr0 _]; subst.
  - rewrite Hroot in Hnd. by injection Hnd as <-.
  - rewrite Hroot in Hnd0. injection Hnd0 as <-. tauto.
Qed.

(** X11: on a tree whose nodes have two children or none
    and that has a leaf for the terminator, the decoder reads back every
    string of characters with codes from its encoding, whatever bytes
    follow the encoding and whatever was decoded before. *)
Theorem encode_then_decode (nodes : list UaHuffNode) (codes : gmap Z (list bool))
    (s rest : list Z) (raw_data0 : option (list Z)) :
  full_tree nodes →
  _generate_huffman_codes nodes ∅ = Ok codes →
  is_Some (codes !! bar) →
  Forall (λ c, c ≠ bar ∧ is_Some (codes !! c)) s →
  Forall is_byte rest →
  ∃ enc, encode_string codes s = Ok enc
         ∧ decode_string nodes raw_data0 (enc ++ rest) = Ok s.
Proof.
  intros Hfull Hgen Hbar HF Hrest.
  assert (Forall (λ c, is_Some (codes !! c)) (s ++ [bar])) as HFb.
  { apply Forall_app. split; [|by repeat constructor].
    eapply Forall_impl; [exact HF|]. by intros c [_ ?]. }
  assert (encode_string codes s
          = Ok (pack_bits (code_bits codes (s ++ [bar])) [] 0 0)) as Henc.
  { unfold encode_string.
    rewrite bool_decide_false
      by (intros ->; destruct Hbar as [? H]; by rewrite lookup_empty in H).
    assert (endswith_bar s = false) as ->.
    { unfold endswith_bar. apply bool_decide_eq_false. intros Hl.
      apply last_Some in Hl as [l' ->]. apply Forall_app in HF as [_ H1].
      apply Forall_cons in H1 as [[H1 _] _]. done. }
    by rewrite collect_bits_spec. }
  eexists. split; [exact Henc|].
  destruct (pack_bits_bits (code_bits codes (s ++ [bar]))) as (pad & Hbits & Hbytes).
  set (enc := pack_bits (code_bits codes (s ++ [bar])) [] 0 0) in *.
  destruct (index nodes (root nodes)) as [ndr|e] eqn:Hroot.
  - destruct (decide (left ndr ≠ 255 ∧ right ndr ≠ 255)) as [Hinner|Hstop].
    + unfold decode_string.
      apply (decode_loop_encoded nodes codes Hfull Hgen Hbar ndr Hroot Hinner s [] _ _
               (replicate pad false ++ flat_map to_bits rest)).
      * done.
      * unfold reader_ok. cbn. split_and!; [lia|lia|unfold is_byte; lia| |by left].
        by apply Forall_app.
      * unfold rbits. cbn. rewrite flat_map_app, Hbits. by rewrite <- app_assoc.
      * pose proof (flat_map_to_bits_length enc) as Hlen.
        rewrite Hbits, length_app in Hlen.
        pose proof (code_bits_length nodes codes Hfull Hgen Hbar ndr Hroot Hinner
                      (s ++ [bar]) HFb) as Hge.
        rewrite !length_app in *. simpl in Hge. lia.
    + rewrite (decode_leaf_root nodes codes Hfull Hgen Hbar ndr _ _ Hroot Hstop).
      destruct s as [|c s]; [done|]. exfalso.
      apply Forall_cons in HF as [[Hc [p Hp]] _]. destruct Hbar as [pb Hpb].
      pose proof (stop_root_codes _ _ _ _ _ Hfull Hgen Hroot Hstop Hp) as H1.
      pose proof (stop_root_codes _ _ _ _ _ Hfull Hgen Hroot Hstop Hpb) as H2.
      congruence.
  - exfalso. destruct Hbar as [pb Hpb].
    destruct (generated_code_path _ _ _ _ Hfull Hgen Hpb) as (m & Hp & nd & Hnd & _).
    inversion Hp as [|? nd0 ? ? ? Hnd0 _ _ _]; subst; congruence.
Qed.

Lemma encode_then_decode_witness :
  ∃ enc, encode_string (codes_of tree9) [98; 97] = Ok enc
         ∧ decode_string tree9 None (enc ++ [0xFF; 0x12]) = Ok [98; 97].
Proof.
  apply (encode_then_decode tree9 (codes_of tree9)).
  - apply tree9_full.
  - vm_compute. reflexivity.
  - vm_compute. eauto.
  - repeat constructor; (done || (vm_compute; eauto)).
  - repeat constructor; vm_compute; congruence.
Defined.

End huffman_more.

(** * More on the conversation machine *)
Section machine_more.
Import Py UltimaUnderworldVM VMSpec.
Local Open Scope string_scope.
Local Open Scope Z_scope.
Local Open Scope list_scope.

Section frames.
Context {B : Type} (f : vm → B).

Lemma preserves_ret {A} (a : A) : preserves f (ret a).
Proof. by intros s a' s' [= <- <-]. Qed.

Lemma preserves_bind {A C} (m : M A) (k : A → M C) :
  preserves f m → (∀ a, preserves f (k a)) → preserves f (bind m k).
Proof.
  intros Hm Hk s b s'. unfold bind.
  destruct (m s) as [[a s1]|] eqn:E; [|done].
  intros Hka. rewrite (Hk _ _ _ _ Hka). by eapply Hm.
Qed.

Lemma preserves_raise {A} e : preserves f (@raise A e).
Proof. intros s a s' [=]. Qed.

Lemma preserves_lift {A} (r : result A) : preserves f (lift r).
Proof. intros s a s'. unfold lift. destruct r; [|done]. by intros [= <- <-]. Qed.

Lemma preserves_gets {A} (g : vm → A) : preserves f (gets g).
Proof. by intros s a s' [= <- <-]. Qed.

Lemma preserves_modify (g : vm → vm) :
  (∀ s, f (g s) = f s) → preserves f (modify g).
Proof. intros Hg s a s' [= <- <-]. apply Hg. Qed.

Lemma preserves_get_mem a : preserves f (get_mem a).
Proof.
  intros s v s'. unfold get_mem. destruct (read_mem s a); [|done].
  by intros [= <- <-].
Qed.

Lemma preserves_set_mem a v :
  (∀ m s, f (with_memory m s) = f s) → preserves f (set_mem a v).
Proof.
  intros Hf s u s'. unfold set_mem. cbn zeta. destruct (mem_slot _); [|done].
  intros [= <- <-]. apply Hf.
Qed.

Lemma preserves_operand : preserves f operand.
Proof.
  intros s v s'. unfold operand. destruct (index _ _); [|done].
  by intros [= <- <-].
Qed.

Lemma preserves_input :
  (∀ l s, f (with_stdin l s) = f s) → preserves f input.
Proof.
  intros Hf s v s'. unfold input. destruct (stdin s); [done|].
  intros [= <- <-]. apply Hf.
Qed.

Lemma preserves_randint v :
  (∀ l s, f (with_random_source l s) = f s) → preserves f (randint v).
Proof.
  intros Hf s r s'. unfold randint. case_bool_decide; [done|].
  destruct (random_source s); intros [= <- <-]; [done|apply Hf].
Qed.

Lemma preserves_len_string_block {A} : preserves f (@len_string_block A).
Proof. intros s a s'. unfold len_string_block. by destruct (string_block s). Qed.

Lemma preserves_for_each {A} (l : list A) (body : A → M unit) :
  (∀ x, preserves f (body x)) → preserves f (for_each l body).
Proof.
  intros Hb. induction l as [|x l IH]; cbn [for_each].
  - apply preserves_ret.
  - apply preserves_bind; [apply Hb|intros _; apply IH].
Qed.

Lemma preserves_menu_options fuel p : ∀ i, preserves f (menu_options fuel p i).
Proof.
  induction fuel as [|fuel IH]; intros i; cbn [menu_options].
  - apply preserves_raise.
  - apply preserves_bind; [apply preserves_get_mem|intros x].
    case_bool_decide; [apply preserves_ret|apply IH].
Qed.

Lemma preserves_fmenu_options fuel p q : ∀ i l, preserves f (fmenu_options fuel p q i l).
Proof.
  induction fuel as [|fuel IH]; intros i l; cbn [fmenu_options].
  - apply preserves_raise.
  - apply preserves_bind; [apply preserves_get_mem|intros x].
    case_bool_decide; [apply preserves_ret|].
    apply preserves_bind; [apply preserves_get_mem|intros y]. apply IH.
Qed.

End frames.

(** Decomposition of a computation into its steps; the conditions on the
    part that is kept are equations between records. *)
Ltac preserves_step :=
  match goal with
  | |- preserves _ (bind _ _) => apply preserves_bind; [|intros ?]
  | |- preserves _ (for_each _ _) => apply preserves_for_each; intros ?
  | |- preserves _ (modify _) => apply preserves_modify; intros ?; reflexivity
  | |- preserves _ (set_mem _ _) => apply preserves_set_mem; intros ? ?; reflexivity
  | |- preserves _ input => apply preserves_input; intros ? ?; reflexivity
  | |- preserves _ (randint _) => apply preserves_randint; intros ? ?; reflexivity
  | |- preserves _ (ret _) => apply preserves_ret
  | |- preserves _ (raise _) => apply preserves_raise
  | |- preserves _ (lift _) => apply preserves_lift
  | |- preserves _ (gets _) => apply preserves_gets
  | |- preserves _ (get_mem _) => apply preserves_get_mem
  | |- preserves _ operand => apply preserves_operand
  | |- preserves _ len_string_block => apply preserves_len_string_block
  | |- preserves _ (menu_options _ _ _) => apply preserves_menu_options
  | |- preserves _ (fmenu_options _ _ _ _ _) => apply preserves_fmenu_options
  | |- preserves _ (if ?b then _ else _) => destruct b
  | |- preserves _ (match ?x with _ => _ end) => destruct x
  | |- preserves _ _ => assumption
  end.

Ltac preserves_tac := repeat preserves_step.

Create HintDb machine.
#[local] Hint Unfold push pop advance finish_conversation binary pops
  func_babl_menu func_babl_fmenu func_babl_ask
  func_print func_compare func_contains func_random
  func_length func_get_quest func_set_quest pop2_read2 func_sex func_show_inv
  func_give_to_npc func_give_ptr_npc func_take_from_npc func_take_id_from_npc
  func_identify_inv func_do_offer func_do_demand func_do_inv_create
  func_do_inv_delete func_check_inv_quality func_set_inv_quality func_count_inv
  pop_read_set func_setup_to_barter func_end_barter func_do_judgement
  func_do_decline func_add_to_npc_inv func_remove_talker func_set_likes_dislikes
  func_gronk_door func_set_race_attitude func_place_object func_take_from_npc_inv
  func_set_attitude func_x_skills func_x_traps func_x_obj_stuff func_find_inv
  func_find_barter func_find_barter_total input_int input_starts : machine.

Lemma imported_preserves (id : Z) (g : M unit) :
  imported_functions !! id = Some g → preserves (λ s, (program s, control s)) g.
Proof.
  intros Hg. unfold imported_functions in Hg.
  apply elem_of_list_to_map_2 in Hg.
  repeat (apply elem_of_cons in Hg as [[= -> ->]|Hg];
          [repeat autounfold with machine; preserves_tac|]).
  by apply elem_of_nil in Hg.
Qed.

Lemma calli_preserves_program : preserves program (op_calli imported_functions).
Proof.
  unfold op_calli. apply preserves_bind; [apply preserves_operand|intros id].
  apply preserves_bind.
  - destruct (imported_functions !! id) as [g|] eqn:Hg; [|apply preserves_ret].
    intros s a s' Hs. pose proof (imported_preserves id g Hg s a s' Hs) as E.
    by apply (f_equal fst) in E.
  - intros _. repeat autounfold with machine. preserves_tac.
Qed.

Lemma handler_preserves_program (opcode : Z) (h : M unit) :
  opcode_handlers imported_functions opcode = Some h → preserves program h.
Proof.
  pose proof calli_preserves_program.
  intros Hh. unfold opcode_handlers in Hh.
  repeat match type of Hh with
         | match ?x with _ => _ end = _ => destruct x
         end;
    try discriminate; injection Hh as <-; try assumption;
    unfold op_nop, op_add, op_mul, op_sub, op_div, op_mod, op_or, op_and, op_not,
      op_tstgt, op_tstge, op_tstlt, op_tstle, op_tsteq, op_tstne, op_jmp, op_beq,
      op_bne, op_bra, op_call, op_ret, op_pushi, op_pushi_eff, op_pop, op_swap,
      op_pushbp, op_popbp, op_sptobp, op_bptosp, op_addsp, op_fetchm, op_sto,
      op_offset, op_start, op_save_reg, op_push_reg, op_exit_op, op_say_op,
      op_opneg; repeat autounfold with machine; preserves_tac.
Qed.

Lemma step_preserves_program : preserves program (step imported_functions).
Proof.
  unfold step. apply preserves_bind; [apply preserves_gets|intros pc0].
  apply preserves_bind; [apply preserves_gets|intros cd].
  apply preserves_bind; [apply preserves_lift|intros opcode].
  apply preserves_bind.
  - destruct (opcode_handlers imported_functions opcode) as [h|] eqn:Hh;
      [by apply (handler_preserves_program opcode)|].
    repeat autounfold with machine. preserves_tac.
  - intros _. preserves_tac.
Qed.

Lemma execute_loop_preserves_program fuel : ∀ s s',
  execute_loop imported_functions fuel s = Ok s' → program s' = program s.
Proof.
  induction fuel as [|fuel IH]; intros s s' H; cbn [execute_loop] in H; [done|].
  destruct (running s); [|by injection H as <-].
  destruct (step imported_functions s) as [[[] s1]|] eqn:Hs; [|done].
  rewrite (IH _ _ H). by eapply step_preserves_program.
Qed.

(** X12: running a program changes neither its code nor its
    labels nor the loaded string blocks: when [execute] returns, they are
    as they were. *)
Theorem execution_keeps_program (fuel : nat) (s s' : vm) :
  execute imported_functions fuel s = Ok s' →
  code s' = code s ∧ labels s' = labels s
  ∧ string_blocks s' = string_blocks s
  ∧ current_string_block s' = current_string_block s.
Proof.
  intros H. apply execute_loop_preserves_program in H.
  unfold program in H. cbn in H. by injection H as -> -> -> -> _ _ _.
Qed.

Lemma execution_keeps_program_witness :
  ∃ s', execute imported_functions 5 (loaded_vm bra_program) = Ok s'
        ∧ code s' = code (loaded_vm bra_program)
        ∧ labels s' = labels (loaded_vm bra_program)
        ∧ string_blocks s' = string_blocks (loaded_vm bra_program)
        ∧ current_string_block s' = current_string_block (loaded_vm bra_program).
Proof.
  eexists. split; [vm_compute; reflexivity|].
  apply (execution_keeps_program 5). vm_compute. reflexivity.
Defined.

(** X13: whatever imported function [CALLI] calls, when the
    instruction completes the program counter is two words further, and
    the base pointer, the call level and the finished flag are as
    before: no imported function ends or redirects the program. *)
Theorem calli_returns_to_next_instruction (s s' : vm) :
  op_calli imported_functions s = Ok (tt, s') →
  pc s' = pc s + 2 ∧ base_pointer s' = base_pointer s
  ∧ call_level s' = call_level s ∧ finished s' = finished s.
Proof.
  unfold op_calli. unfold bind at 1.
  destruct (operand s) as [[id s0]|] eqn:Hop; [|done].
  assert (s0 = s) as ->.
  { unfold operand in Hop. destruct (index _ _); [|done]. by injection Hop. }
  unfold bind at 1.
  destruct (match imported_functions !! id with Some g => g | None => ret tt end s)
    as [[[] s1]|] eqn:Hg; [|done].
  assert (control s1 = control s) as Hc.
  { destruct (imported_functions !! id) as [g|] eqn:Hid.
    - pose proof (imported_preserves id g Hid s tt s1 Hg) as E.
      by apply (f_equal snd) in E.
    - by injection Hg as <-. }
  intros H.
  assert (preserves control (r <- gets result_register ;; push r)) as Hp
    by (repeat autounfold with machine; preserves_tac).
  unfold bind at 1 in H.
  destruct (gets result_register s1) as [[r s2]|] eqn:Hr; [|done].
  injection Hr as <- <-. unfold bind at 1 in H.
  destruct (push (result_register s1) s1) as [[[] s3]|] eqn:Hpush; [|done].
  injection H as <-.
  assert (control s3 = control s) as Hc3.
  { rewrite <- Hc. apply (Hp s1 tt s3). unfold bind, gets. by rewrite Hpush. }
  unfold control in Hc3. injection Hc3 as H1 H2 H3 H4. cbn.
  by rewrite H1, H2, H3, H4.
Qed.

Lemma calli_returns_to_next_instruction_witness :
  ∃ s', op_calli imported_functions menu_state = Ok (tt, s')
        ∧ pc s' = pc menu_state + 2 ∧ base_pointer s' = base_pointer menu_state
        ∧ call_level s' = call_level menu_state ∧ finished s' = finished menu_state.
Proof.
  eexists. split; [vm_compute; reflexivity|].
  apply calli_returns_to_next_instruction. vm_compute. reflexivity.
Defined.

(** ** The end of [execute] *)

Lemma step_finished_or_inside (s s' : vm) :
  step imported_functions s = Ok (tt, s') →
  finished s' = true ∨ pc s' < Z.of_nat (length (code s')).
Proof.
  intros H. pose proof (step_preserves_program s tt s' H) as Hp.
  assert (code s' = code s) as Hcode.
  { unfold program in Hp. by injection Hp as -> _ _ _ _ _ _. }
  unfold step in H. unfold bind at 1, gets in H. unfold bind at 1, gets in H.
  unfold bind at 1 in H.
  destruct (lift (index (code s) (pc s)) s) as [[opcode s0]|]; [|done].
  unfold bind at 1 in H.
  destruct (match opcode_handlers imported_functions opcode with
            | Some h => h | None => advance 1 end s0) as [[[] s1]|]; [|done].
  unfold bind at 1, gets in H.
  case_bool_decide as Hpc.
  - injection H as <-. by left.
  - injection H as <-. right. rewrite Hcode. lia.
Qed.

Lemma execute_loop_finished fuel : ∀ s s',
  awake s → finished s = true ∨ pc s < Z.of_nat (length (code s)) →
  execute_loop imported_functions fuel s = Ok s' → finished s' = true.
Proof.
  induction fuel as [|fuel IH]; intros s s' Hw Hin H; cbn [execute_loop] in H; [done|].
  destruct (running s) eqn:Hrun.
  - destruct (step imported_functions s) as [[[] s1]|] eqn:Hs; [|done].
    apply (IH s1);
      [exact (step_keeps_awake s tt s1 Hw Hs)|exact (step_finished_or_inside s s1 Hs)|done].
  - injection H as <-. unfold running in Hrun. unfold awake in Hw. rewrite Hw in Hrun.
    destruct (finished s); [done|]. destruct Hin as [|Hin]; [done|].
    rewrite bool_decide_true in Hrun by done. done.
Qed.

(** X14: started while the machine is not waiting, on a program
    that is not empty, [execute] returns only with the conversation
    finished. *)
Theorem execute_ends_finished (fuel : nat) (s s' : vm) :
  waiting_response s = false → code s ≠ [] →
  execute imported_functions fuel s = Ok s' → finished s' = true.
Proof.
  intros Hw Hcode H. apply (execute_loop_finished fuel (with_pc 0 s)); [done| |done].
  right. cbn. destruct (code s); [done|]. cbn [length]. lia.
Qed.

Lemma execute_ends_finished_witness :
  ∃ s', execute imported_functions 5 (loaded_vm bra_program) = Ok s'
        ∧ finished s' = true.
Proof.
  eexists. split; [vm_compute; reflexivity|].
  apply (execute_ends_finished 5 (loaded_vm bra_program));
    [reflexivity|vm_compute; congruence|vm_compute; reflexivity].
Defined.

(** ** Memory and stack *)

Lemma mem_slot_wraps a :
  -65536 ≤ a < 65536 → mem_slot a = Ok (a `mod` 65536).
Proof.
  intros Ha. unfold mem_slot. cbn zeta. destruct (decide (a < 0)) as [Hneg|Hpos].
  - rewrite (bool_decide_true (a < 0)) by done.
    rewrite bool_decide_true by lia. f_equal.
    apply (Z.mod_unique a 65536 (-1)); lia.
  - rewrite (bool_decide_false (a < 0)) by done.
    rewrite bool_decide_true by lia. f_equal. symmetry. apply Z.mod_small. lia.
Qed.

Lemma set_mem_wraps (s : vm) (address value : Z) :
  -65536 ≤ address < 131072 →
  set_mem address value s
  = Ok (tt, with_memory (<[address `mod` 65536 := value]> (memory s)) s).
Proof.
  intros Ha. unfold set_mem. cbn zeta.
  destruct (decide (address >= 65536)) as [Hge|Hlt].
  - rewrite (bool_decide_true (address >= 65536)) by done.
    rewrite mem_slot_in_range by lia. cbn [mbind result_bind].
    do 4 f_equal. apply (Z.mod_unique address 65536 1); lia.
  - rewrite (bool_decide_false (address >= 65536)) by done.
    rewrite mem_slot_wraps by lia. done.
Qed.

Lemma read_mem_wraps (s : vm) (address : Z) :
  -65536 ≤ address →
  read_mem s address = Ok (default 0 (memory s !! (address `mod` 65536))).
Proof.
  intros Ha. unfold read_mem. cbn zeta.
  destruct (decide (address >= 65536)) as [Hge|Hlt].
  - rewrite (bool_decide_true (address >= 65536)) by done.
    pose proof (Z.mod_pos_bound address 65536).
    rewrite mem_slot_in_range by lia. done.
  - rewrite (bool_decide_false (address >= 65536)) by done.
    rewrite mem_slot_wraps by lia. done.
Qed.

(** X15: for an address from -65536 up to 131071, [set_mem]
    writes the cell [address mod 65536]; [get_mem] at the same address
    reads the value back, and the cells of the other addresses keep their
    values. *)
Theorem set_mem_then_get_mem (s : vm) (address value : Z) :
  -65536 ≤ address < 131072 →
  ∃ s', set_mem address value s = Ok (tt, s')
        ∧ get_mem address s' = Ok (value, s')
        ∧ memory s' = <[address `mod` 65536 := value]> (memory s)
        ∧ ∀ other, -65536 ≤ other → other `mod` 65536 ≠ address `mod` 65536 →
            read_mem s' other = read_mem s other.
Proof.
  intros Ha. rewrite set_mem_wraps by done. eexists. split; [reflexivity|].
  split_and!.
  - unfold get_mem. rewrite read_mem_wraps by lia. cbn. by rewrite lookup_insert_eq.
  - done.
  - intros other Ho Hne. rewrite !read_mem_wraps by done. cbn.
    by rewrite lookup_insert_ne.
Qed.

Lemma set_mem_then_get_mem_witness :
  ∃ s', set_mem 65537 7 (init [] []) = Ok (tt, s')
        ∧ get_mem 65537 s' = Ok (7, s')
        ∧ memory s' = <[65537 `mod` 65536 := 7]> (memory (init [] []))
        ∧ ∀ other, -65536 ≤ other → other `mod` 65536 ≠ 65537 `mod` 65536 →
            read_mem s' other = read_mem (init [] []) other.
Proof. apply set_mem_then_get_mem. lia. Defined.

(** X16: at an address of 131072 or more [set_mem] raises
    [IndexError], while [get_mem] reads the cell [address mod 65536]:
    [set_mem] subtracts 65536 once where [get_mem] reduces modulo
    65536. *)
Theorem set_mem_beyond_two_banks (s : vm) (address value : Z) :
  131072 ≤ address →
  set_mem address value s = Raise IndexError
  ∧ get_mem address s = Ok (default 0 (memory s !! (address `mod` 65536)), s).
Proof.
  intros Ha. split.
  - unfold set_mem, mem_slot. cbn zeta.
    rewrite (bool_decide_true (address >= 65536)) by lia.
    rewrite (bool_decide_false (address - 65536 < 0)) by lia.
    by rewrite bool_decide_false by lia.
  - unfold get_mem. by rewrite read_mem_wraps by lia.
Qed.

Lemma set_mem_beyond_two_banks_witness :
  set_mem 131072 7 (init [] []) = Raise IndexError
  ∧ get_mem 131072 (init [] [])
    = Ok (default 0 (memory (init [] []) !! (131072 `mod` 65536)), init [] []).
Proof. apply set_mem_beyond_two_banks. lia. Defined.

(** X17: [pop] after [push] returns the pushed value and
    restores the stack pointer and the tracking list; the value stays in
    the memory cell above the stack. *)
Theorem push_then_pop (s : vm) (value : Z) :
  0 ≤ stack_pointer s < 65536 →
  ∃ s1 s2, push value s = Ok (tt, s1) ∧ pop s1 = Ok (value, s2)
           ∧ stack_pointer s1 = stack_pointer s + 1
           ∧ stack_pointer s2 = stack_pointer s
           ∧ stack s2 = stack s
           ∧ memory s2 = <[stack_pointer s := value]> (memory s).
Proof.
  intros Hsp. rewrite push_in_range by done. eexists _, _. split; [reflexivity|].
  rewrite pop_in_range by (cbn; lia). cbn.
  replace (stack_pointer s + 1 - 1) with (stack_pointer s) by lia.
  rewrite lookup_insert_eq. split; [reflexivity|]. cbn.
  split_and!; [done|done| |done].
  by rewrite removelast_last.
Qed.

Lemma push_then_pop_witness :
  ∃ s1 s2, push 9 unknown_import_state = Ok (tt, s1) ∧ pop s1 = Ok (9, s2)
           ∧ stack_pointer s1 = stack_pointer unknown_import_state + 1
           ∧ stack_pointer s2 = stack_pointer unknown_import_state
           ∧ stack s2 = stack unknown_import_state
           ∧ memory s2 = <[stack_pointer unknown_import_state := 9]>
                           (memory unknown_import_state).
Proof. apply push_then_pop. vm_compute. split; congruence. Defined.

(** X18: [OPDIV] and [OPMOD] replace the two operands [a]
    (below) and [b] (on top) by the floor quotient and by the remainder
    with the sign of [b]; with [b = 0] they raise nothing and leave 0. *)
Theorem division_by_zero_gives_zero (s : vm) :
  2 ≤ stack_pointer s ≤ 65536 →
  let sp := stack_pointer s in
  let a := default 0 (memory s !! (sp - 2)) in
  let b := default 0 (memory s !! (sp - 1)) in
  (∃ s', op_div s = Ok (tt, s')
         ∧ memory s' = <[sp - 2 := if bool_decide (b = 0) then 0 else a `div` b]> (memory s)
         ∧ stack_pointer s' = sp - 1 ∧ pc s' = pc s + 1)
  ∧ (∃ s', op_mod s = Ok (tt, s')
           ∧ memory s' = <[sp - 2 := if bool_decide (b = 0) then 0 else a `mod` b]> (memory s)
           ∧ stack_pointer s' = sp - 1 ∧ pc s' = pc s + 1).
Proof.
  intros Hsp sp a b. split.
  - apply (binary_in_range (λ a b, if bool_decide (b = 0) then 0 else a `div` b) s Hsp).
  - apply (binary_in_range (λ a b, if bool_decide (b = 0) then 0 else a `mod` b) s Hsp).
Qed.

Lemma division_by_zero_gives_zero_witness :
  let s := zero_divisor_state in
  let sp := stack_pointer s in
  let a := default 0 (memory s !! (sp - 2)) in
  let b := default 0 (memory s !! (sp - 1)) in
  (∃ s', op_div s = Ok (tt, s')
         ∧ memory s' = <[sp - 2 := if bool_decide (b = 0) then 0 else a `div` b]> (memory s)
         ∧ stack_pointer s' = sp - 1 ∧ pc s' = pc s + 1)
  ∧ (∃ s', op_mod s = Ok (tt, s')
           ∧ memory s' = <[sp - 2 := if bool_decide (b = 0) then 0 else a `mod` b]> (memory s)
           ∧ stack_pointer s' = sp - 1 ∧ pc s' = pc s + 1).
Proof.
  apply (division_by_zero_gives_zero zero_divisor_state).
  vm_compute. split; congruence.
Defined.

(** ** Calls and jumps *)

Lemma op_call_in_range (s : vm) (target : Z) :
  index (code s) (pc s + 1) = Ok target → 0 ≤ stack_pointer s < 65536 →
  op_call s
  = Ok (tt, with_call_level (call_level s + 1)
              (with_pc target
                 (with_stack (stack s ++ [pc s + 2])
                    (with_stack_pointer (stack_pointer s + 1)
                       (with_memory (<[stack_pointer s := pc s + 2]> (memory s)) s))))).
Proof.
  intros Hop Hsp. unfold op_call, bind at 1, operand. rewrite Hop. cbn.
  unfold bind at 1, gets. unfold bind at 1. rewrite push_in_range by done.
  reflexivity.
Qed.

Lemma op_ret_in_range (s : vm) :
  0 < call_level s → 1 ≤ stack_pointer s ≤ 65536 →
  op_ret s
  = Ok (tt, with_pc (default 0 (memory s !! (stack_pointer s - 1)))
              (with_stack (removelast (stack s))
                 (with_stack_pointer (stack_pointer s - 1)
                    (with_call_level (call_level s - 1) s)))).
Proof.
  intros Hl Hsp. unfold op_ret, bind at 1, modify. unfold bind at 1, gets. cbn.
  rewrite bool_decide_false by lia. unfold bind at 1.
  rewrite pop_in_range by (cbn; lia). reflexivity.
Qed.

(** X19: [CALL] pushes the address of the next instruction,
    raises the call level and jumps to its operand; a [RET] that finds
    the stack as [CALL] left it continues after the [CALL], with the stack
    pointer and the call level as before the [CALL]. *)
Theorem call_then_ret (s : vm) (target : Z) :
  index (code s) (pc s + 1) = Ok target →
  0 ≤ stack_pointer s < 65536 → 0 ≤ call_level s →
  ∃ s1 s2, op_call s = Ok (tt, s1)
           ∧ pc s1 = target ∧ call_level s1 = call_level s + 1
           ∧ memory s1 = <[stack_pointer s := pc s + 2]> (memory s)
           ∧ op_ret s1 = Ok (tt, s2)
           ∧ pc s2 = pc s + 2 ∧ stack_pointer s2 = stack_pointer s
           ∧ call_level s2 = call_level s ∧ finished s2 = finished s.
Proof.
  intros Hop Hsp Hl. rewrite (op_call_in_range s target Hop Hsp).
  eexists _, _. split; [reflexivity|]. cbn [pc call_level memory with_call_level with_pc
    with_stack with_stack_pointer with_memory].
  do 3 (split; [reflexivity|]).
  rewrite op_ret_in_range by (cbn; lia). split; [reflexivity|]. cbn.
  replace (stack_pointer s + 1 - 1) with (stack_pointer s) by lia.
  rewrite lookup_insert_eq. cbn. split_and!; [done|done|lia|done].
Qed.

Lemma call_then_ret_witness :
  ∃ s1 s2, op_call call_state = Ok (tt, s1)
           ∧ pc s1 = 3 ∧ call_level s1 = call_level call_state + 1
           ∧ memory s1 = <[stack_pointer call_state := pc call_state + 2]>
                           (memory call_state)
           ∧ op_ret s1 = Ok (tt, s2)
           ∧ pc s2 = pc call_state + 2 ∧ stack_pointer s2 = stack_pointer call_state
           ∧ call_level s2 = call_level call_state ∧ finished s2 = finished call_state.
Proof.
  apply (call_then_ret call_state).
  - reflexivity.
  - vm_compute. split; congruence.
  - vm_compute. congruence.
Defined.

(** X20: [JMP] and [CALL] whose operand is the one that [parse_asm]
    computes for the label [L] set the program counter to the address of
    [L]. *)
Theorem jump_to_label_lands_on_label (s : vm) (L name : string) (target : Z) :
  name ∈ ["JMP"; "CALL"] →
  labels s !! L = Some target →
  index (code s) (pc s + 1) = Ok (_resolve_argument (labels s) L name (pc s)) →
  0 ≤ stack_pointer s < 65536 →
  (∃ s', op_jmp s = Ok (tt, s') ∧ pc s' = target)
  ∧ (∃ s', op_call s = Ok (tt, s') ∧ pc s' = target).
Proof.
  intros Hn HL Hop Hsp.
  assert (_resolve_argument (labels s) L name (pc s) = target) as Hres.
  { unfold _resolve_argument. rewrite HL.
    rewrite bool_decide_false.
    - by rewrite bool_decide_true.
    - intros Hb. apply elem_of_cons in Hn as [->|Hn];
        [|apply elem_of_cons in Hn as [->|Hn]; [|by apply elem_of_nil in Hn]];
        repeat (apply elem_of_cons in Hb as [Hb|Hb]; [discriminate|]);
        by apply elem_of_nil in Hb. }
  rewrite Hres in Hop. split.
  - unfold op_jmp, bind, operand, modify. rewrite Hop. cbn. eauto.
  - rewrite (op_call_in_range s target Hop Hsp). eauto.
Qed.

Lemma jump_to_label_lands_on_label_witness :
  labels (loaded_vm jmp_program) !! "L" = Some 4
  ∧ (∃ s', op_jmp (loaded_vm jmp_program) = Ok (tt, s') ∧ pc s' = 4)
  ∧ (∃ s', op_call (loaded_vm jmp_program) = Ok (tt, s') ∧ pc s' = 4).
Proof.
  split; [vm_compute; reflexivity|].
  apply (jump_to_label_lands_on_label (loaded_vm jmp_program) "L" "JMP" 4).
  - by repeat constructor.
  - vm_compute. reflexivity.
  - vm_compute. reflexivity.
  - vm_compute. split; congruence.
Defined.

(** ** Texts *)

Lemma substitute_plain (s : vm) (fuel : nat) : ∀ text,
  contains text "@" = false → substitute s fuel text = text.
Proof.
  induction fuel as [|fuel IH]; intros text Hc; cbn [substitute]; [done|].
  destruct text as [|c text]; [done|].
  cbn [contains] in Hc.
  destruct (String.prefix "@" (String c text)) eqn:Hp; [done|].
  assert (c ≠ "@"%char) as Hne.
  { intros ->. cbn in Hp. by destruct text. }
  assert (match_directive (String c text) = None) as ->.
  { unfold match_directive. destruct c as [[] [] [] [] [] [] [] []]; try done. }
  by rewrite IH.
Qed.

(** X21: a string of the current block that contains no [@] is
    returned by [get_string] as it is stored. *)
Theorem get_string_plain (s : vm) (block : list string) (string_id : Z) (text : string) :
  current_string_block s = Some block →
  0 ≤ string_id → block !! Z.to_nat string_id = Some text →
  contains text "@" = false →
  get_string s string_id = text.
Proof.
  intros Hb Hid Ht Hplain. unfold get_string, block_loaded. rewrite Hb.
  destruct block as [|x l]; [done|].
  apply lookup_lt_Some in Ht as Hlt.
  rewrite bool_decide_true by lia. rewrite Ht. cbn [default from_option id].
  by apply substitute_plain.
Qed.

Lemma get_string_plain_witness : get_string plain_state 1 = "Bye".
Proof. by apply (get_string_plain plain_state ["Hello"; "Bye"]). Defined.

(** ** Stack frames *)

Lemma push_zeros (n : nat) : ∀ (l : list Z) (s : vm),
  length l = n → 0 ≤ stack_pointer s → stack_pointer s + Z.of_nat n ≤ 65536 →
  ∃ s', for_each l (λ _, push 0) s = Ok (tt, s')
        ∧ stack_pointer s' = stack_pointer s + Z.of_nat n
        ∧ pc s' = pc s ∧ base_pointer s' = base_pointer s
        ∧ ∀ k, memory s' !! k
               = if bool_decide (stack_pointer s ≤ k < stack_pointer s + Z.of_nat n)
                 then Some 0 else memory s !! k.
Proof.
  induction n as [|n IH]; intros l s Hl Hsp Hn.
  - destruct l; [|done]. cbn [for_each]. eexists. split; [reflexivity|].
    split_and!; [lia|done|done|]. intros k. by rewrite bool_decide_false by lia.
  - destruct l as [|x l]; [done|]. cbn [for_each]. unfold bind at 1.
    rewrite push_in_range by lia.
    destruct (IH l (with_stack (stack s ++ [0])
                      (with_stack_pointer (stack_pointer s + 1)
                         (with_memory (<[stack_pointer s := 0]> (memory s)) s))))
      as (s' & -> & H1 & H2 & H3 & H4); [by injection Hl|cbn; lia|cbn; lia|].
    cbn in H1, H2, H3, H4. eexists. split; [reflexivity|].
    split_and!; [lia|done|done|]. intros k. rewrite H4.
    destruct (decide (k = stack_pointer s)) as [->|Hk].
    + rewrite bool_decide_false by lia. rewrite lookup_insert_eq.
      by rewrite bool_decide_true by lia.
    + rewrite lookup_insert_ne by done.
      destruct (decide (stack_pointer s + 1 ≤ k < stack_pointer s + 1 + Z.of_nat n)).
      * rewrite !bool_decide_true by lia. done.
      * rewrite !bool_decide_false by lia. done.
Qed.

(** X22: [ADDSP] pops a count and pushes count + 1 zeros: the
    stack pointer rises by the count, the cell of the count and the
    cells above it up to the new stack pointer hold 0, and no other cell
    changes. *)
Theorem addsp_reserves_zeroed_cells (s : vm) :
  let sp := stack_pointer s in
  let count := default 0 (memory s !! (sp - 1)) in
  1 ≤ sp → 0 ≤ count → sp + count ≤ 65536 →
  ∃ s', op_addsp s = Ok (tt, s')
        ∧ stack_pointer s' = sp + count
        ∧ pc s' = pc s + 1
        ∧ ∀ k, memory s' !! k
               = if bool_decide (sp - 1 ≤ k < sp + count) then Some 0
                 else memory s !! k.
Proof.
  intros sp count Hsp Hc Hn. unfold op_addsp, bind at 1.
  rewrite pop_in_range by (fold sp; lia). fold sp count. unfold bind at 1.
  destruct (push_zeros (Z.to_nat (count + 1)) (range (count + 1))
              (with_stack (removelast (stack s)) (with_stack_pointer (sp - 1) s)))
    as (s' & -> & H1 & H2 & H3 & H4).
  { unfold range. by rewrite length_fmap, length_seq. }
  { cbn. lia. }
  { cbn. lia. }
  cbn in H1, H2, H4. unfold advance, modify. eexists. split; [reflexivity|]. cbn.
  split_and!; [lia|lia|].
  intros k. rewrite H4.
  replace (sp - 1 + Z.of_nat (Z.to_nat (count + 1))) with (sp + count) by lia. done.
Qed.

Lemma addsp_reserves_zeroed_cells_witness :
  let s := reserve_state in
  let sp := stack_pointer s in
  let count := default 0 (memory s !! (sp - 1)) in
  ∃ s', op_addsp s = Ok (tt, s')
        ∧ stack_pointer s' = sp + count
        ∧ pc s' = pc s + 1
        ∧ ∀ k, memory s' !! k
               = if bool_decide (sp - 1 ≤ k < sp + count) then Some 0
                 else memory s !! k.
Proof.
  apply (addsp_reserves_zeroed_cells reserve_state); vm_compute; congruence.
Defined.

(** X23: [PUSHBP; SPTOBP] saves the base pointer on the stack and
    moves it to the top of the stack; from any later state with that base
    pointer, the saved cell intact and the stack pointer not below it,
    [BPTOSP; POPBP] restores the base pointer and the stack pointer of
    before the [PUSHBP]. *)
Theorem frame_is_restored (s : vm) :
  0 ≤ stack_pointer s < 65536 →
  ∃ s1, (op_pushbp ;; op_sptobp) s = Ok (tt, s1)
        ∧ base_pointer s1 = stack_pointer s + 1
        ∧ stack_pointer s1 = stack_pointer s + 1
        ∧ memory s1 = <[stack_pointer s := base_pointer s]> (memory s)
        ∧ ∀ s2, base_pointer s2 = base_pointer s1 →
                memory s2 !! stack_pointer s = Some (base_pointer s) →
                base_pointer s1 ≤ stack_pointer s2 →
                ∃ s3, (op_bptosp ;; op_popbp) s2 = Ok (tt, s3)
                      ∧ base_pointer s3 = base_pointer s
                      ∧ stack_pointer s3 = stack_pointer s
                      ∧ memory s3 = memory s2
                      ∧ pc s3 = pc s2 + 2.
Proof.
  intros Hsp. unfold op_pushbp, op_sptobp, advance, bind, gets, modify.
  rewrite push_in_range by done.
  eexists. split; [reflexivity|]. cbn. split_and!; [done|done|done|].
  intros s2 Hbp Hmem Hle. unfold op_bptosp, op_popbp, advance, bind, gets, modify.
  rewrite bool_decide_false by lia.
  rewrite pop_in_range by (cbn; lia). cbn.
  eexists. split; [reflexivity|]. cbn.
  rewrite Hbp. replace (stack_pointer s + 1 - 1) with (stack_pointer s) by lia.
  rewrite Hmem. cbn. split_and!; [done|done|done|lia].
Qed.

Lemma frame_is_restored_witness :
  ∃ s1, (op_pushbp ;; op_sptobp) unknown_import_state = Ok (tt, s1)
        ∧ base_pointer s1 = stack_pointer unknown_import_state + 1
        ∧ stack_pointer s1 = stack_pointer unknown_import_state + 1
        ∧ memory s1 = <[stack_pointer unknown_import_state :=
                          base_pointer unknown_import_state]>
                        (memory unknown_import_state)
        ∧ ∀ s2, base_pointer s2 = base_pointer s1 →
                memory s2 !! stack_pointer unknown_import_state
                = Some (base_pointer unknown_import_state) →
                base_pointer s1 ≤ stack_pointer s2 →
                ∃ s3, (op_bptosp ;; op_popbp) s2 = Ok (tt, s3)
                      ∧ base_pointer s3 = base_pointer unknown_import_state
                      ∧ stack_pointer s3 = stack_pointer unknown_import_state
                      ∧ memory s3 = memory s2
                      ∧ pc s3 = pc s2 + 2.
Proof. apply frame_is_restored. vm_compute. split; congruence. Defined.

End machine_more.

(** * More on texts *)

Section texts_more.
Import Py UltimaUnderworldVM VMSpec.
Local Open Scope string_scope.
Local Open Scope Z_scope.
Local Open Scope list_scope.

(** ** Decimal numerals *)

Lemma pretty_N_char_digit (d : N) :
  (d < 10)%N →
  digit_value 10 (pretty_N_char d) = Some (Z.of_N d)
  ∧ bool_decide (48 ≤ ord (pretty_N_char d) ≤ 57) = true
  ∧ isspace (pretty_N_char d) = false
  ∧ pretty_N_char d ≠ "_"%char ∧ pretty_N_char d ≠ "-"%char
  ∧ pretty_N_char d ≠ "+"%char.
Proof.
  intros Hd.
  assert (d = 0 ∨ d = 1 ∨ d = 2 ∨ d = 3 ∨ d = 4 ∨ d = 5 ∨ d = 6 ∨ d = 7 ∨ d = 8
          ∨ d = 9)%N as H by lia.
  repeat (destruct H as [->|H]; [by vm_compute|]). subst d. by vm_compute.
Qed.

(** The numeral of a positive number in front of [s]: what the digits are
    worth, how far the digits reach, and that no blank is among them. *)
Lemma pretty_N_go_digits (x : N) : ∀ s,
  (0 < x)%N →
  (∀ us seen, digits 10 (pretty_N_go x s) 0 us seen
              = digits 10 s (Z.of_N x) true true)
  ∧ span_digits (pretty_N_go x s)
    = (pretty_N_go x (span_digits s).1, (span_digits s).2)
  ∧ all_chars (λ c, negb (isspace c)) (pretty_N_go x s)
    = all_chars (λ c, negb (isspace c)) s
  ∧ (∃ c t, pretty_N_go x s = String c t ∧ c ≠ "-"%char ∧ c ≠ "+"%char
            ∧ bool_decide (48 ≤ ord c ≤ 57) = true).
Proof.
  induction (N.lt_wf_0 x) as [x _ IH]; intros s Hx.
  rewrite pretty_N_go_step by done.
  destruct (pretty_N_char_digit (x `mod` 10)%N) as (Hv & Hd & Hsp & Hu & Hm & Hp);
    [by apply N.mod_lt|].
  set (c := pretty_N_char (x `mod` 10)) in *.
  assert (∀ acc us seen, digits 10 (String c s) acc us seen
                         = digits 10 s (acc * 10 + Z.of_N (x `mod` 10)) true true) as Hdig.
  { intros acc us seen. cbn [digits]. rewrite bool_decide_false by done. by rewrite Hv. }
  assert (span_digits (String c s) = (String c (span_digits s).1, (span_digits s).2))
    as Hspan.
  { cbn [span_digits]. rewrite Hd. by destruct (span_digits s). }
  destruct (decide (x `div` 10 = 0)%N) as [H0|Hpos].
  - rewrite H0, pretty_N_go_0. split_and!.
    + intros us seen. rewrite Hdig. f_equal.
      pose proof (N.div_mod x 10). lia.
    + rewrite Hspan, (pretty_N_go_step x) by done. by rewrite H0, pretty_N_go_0.
    + cbn [all_chars]. by rewrite Hsp.
    + by exists c, s.
  - destruct (IH (x `div` 10)%N) with (s := String c s) as (H1 & H2 & H3 & H4).
    { apply N.div_lt; lia. }
    { by apply N.neq_0_lt_0. }
    split_and!.
    + intros us seen. rewrite H1, Hdig. f_equal.
      pose proof (N.div_mod x 10). lia.
    + rewrite H2, Hspan. cbn [fst snd]. by rewrite <- pretty_N_go_step by done.
    + rewrite H3. cbn [all_chars]. by rewrite Hsp.
    + done.
Qed.

Lemma strip_nonblank (s : string) :
  all_chars (λ c, negb (isspace c)) s = true → strip s = s.
Proof.
  intros Hs. unfold strip.
  assert (lstrip s = s) as ->.
  { destruct s as [|c s]; [done|]. cbn [all_chars lstrip] in *.
    by destruct (isspace c). }
  induction s as [|c s IH]; [done|].
  cbn [all_chars] in Hs. apply andb_prop in Hs as [Hc Hs].
  cbn [rstrip]. rewrite IH by done.
  destruct s; [|done]. by destruct (isspace c).
Qed.

(** [int(str(n)) == n] *)
Lemma int_str (n : Z) : int (str n) 10 = Ok n.
Proof.
  assert (∀ p, ∃ c t, pretty (Z.pos p) = String c t ∧ c ≠ "-"%char ∧ c ≠ "+"%char
               ∧ all_chars (λ c, negb (isspace c)) (pretty (Z.pos p)) = true
               ∧ unsigned 10 (pretty (Z.pos p)) = Some (Z.pos p)) as Hpos.
  { intros p. unfold pretty, pretty_Z, pretty_positive, pretty, pretty_N.
    rewrite decide_False by done.
    destruct (pretty_N_go_digits (N.pos p) "") as (H1 & _ & H3 & c & t & Hc & Hm & Hp & _);
      [lia|].
    exists c, t. split_and!; [done|done|done|done|].
    unfold unsigned. rewrite bool_decide_false by done.
    cbn [andb]. by rewrite H1. }
  destruct n as [|p|p]; [reflexivity| |].
  - destruct (Hpos p) as (c & t & Hs & Hm & Hp & Hall & Hu).
    unfold int, str. rewrite strip_nonblank by done. rewrite Hs in *.
    destruct c as [[] [] [] [] [] [] [] []]; try done; by rewrite Hu.
  - destruct (Hpos p) as (c & t & Hs & Hm & Hp & Hall & Hu).
    unfold int, str.
    change (pretty (Z.neg p)) with (String "-" (pretty (Z.pos p))).
    rewrite strip_nonblank by (cbn [all_chars]; by rewrite Hall).
    by rewrite Hu.
Qed.

(** ** Directives *)

Lemma pretty_N_go_append (x : N) : ∀ s t,
  pretty_N_go x s +:+ t = pretty_N_go x (s +:+ t).
Proof.
  induction (N.lt_wf_0 x) as [x _ IH]; intros s t.
  destruct (decide (x = 0)%N) as [->|Hx]; [by rewrite !pretty_N_go_0|].
  rewrite (pretty_N_go_step x s), (pretty_N_go_step x (s +:+ t)) by lia.
  rewrite IH; [done|]. apply N.div_lt; lia.
Qed.

Lemma span_digits_numeral (p : positive) (post : string) :
  starts_with_digit post = false →
  span_digits (pretty (Z.pos p) +:+ post) = (pretty (Z.pos p), post)
  ∧ pretty (Z.pos p) ≠ EmptyString
  ∧ ∃ c t, pretty (Z.pos p) +:+ post = String c t ∧ c ≠ "-"%char.
Proof.
  intros Hpost. unfold pretty, pretty_Z, pretty_positive, pretty, pretty_N.
  rewrite decide_False by done.
  destruct (pretty_N_go_digits (N.pos p) post) as (_ & H2 & _ & c & t & Hc & Hm & _);
    [lia|].
  destruct (pretty_N_go_digits (N.pos p) "") as (_ & _ & _ & c' & t' & Hc' & _); [lia|].
  rewrite pretty_N_go_append. change (EmptyString +:+ post) with post.
  assert (span_digits post = (EmptyString, post)) as Hsp.
  { destruct post as [|c0 post]; [done|]. cbn in Hpost. cbn [span_digits].
    by rewrite Hpost. }
  rewrite H2, Hsp. cbn [fst snd]. split_and!; [done|by rewrite Hc'|by exists c, t].
Qed.

Lemma match_directive_numeral (x y : ascii) (n : Z) (post : string) :
  (x = "G" ∨ x = "S" ∨ x = "P")%char → (y = "S" ∨ y = "I")%char →
  starts_with_digit post = false →
  match_directive (String "@" (String x (String y (str n +:+ post))))
  = Some (x, y, str n, post).
Proof.
  intros Hx Hy Hpost. unfold match_directive.
  rewrite !bool_decide_true by done. cbn [andb].
  assert (span_digits post = (EmptyString, post)) as Hsp.
  { destruct post as [|c0 post]; [done|]. cbn in Hpost. cbn [span_digits].
    by rewrite Hpost. }
  destruct n as [|p|p].
  - change (str 0 +:+ post) with (String "0" post).
    cbn [span_digits]. rewrite bool_decide_true by (vm_compute; split; congruence).
    rewrite Hsp. by rewrite bool_decide_false.
  - unfold str. destruct (span_digits_numeral p post Hpost) as (Hs & Hne & c & t & Hc & Hm).
    rewrite Hc in *.
    assert ((match String c t with
             | String "-" t0 => ("-", t0)
             | _ => (EmptyString, String c t)
             end) = (EmptyString, String c t)) as ->.
    { destruct c as [[] [] [] [] [] [] [] []]; done. }
    rewrite Hs. by rewrite bool_decide_false.
  - unfold str.
    change (pretty (Z.neg p) +:+ post) with (String "-" (pretty (Z.pos p) +:+ post)).
    destruct (span_digits_numeral p post Hpost) as (Hs & Hne & _).
    cbn iota. rewrite Hs. by rewrite bool_decide_false.
Qed.

Lemma span_digits_length (s : string) :
  (String.length (span_digits s).2 ≤ String.length s)%nat.
Proof.
  induction s as [|c s IH]; [done|]. cbn [span_digits].
  case_bool_decide; [|done]. destruct (span_digits s). cbn in *. lia.
Qed.

Lemma match_directive_shorter text x y d rest :
  match_directive text = Some (x, y, d, rest) →
  (String.length rest < String.length text)%nat.
Proof.
  unfold match_directive.
  destruct text as [|c0 [|x0 [|y0 s']]]; try done;
    destruct c0 as [[] [] [] [] [] [] [] []]; try done.
  destruct (_ && _); [|done].
  destruct s' as [|c1 t].
  - cbn. done.
  - assert (∀ u, (let '(d0, r) := span_digits u in
                  if bool_decide (d0 = EmptyString) then None
                  else Some (x0, y0, d0, r)) = Some (x, y, d, rest) →
                 String.length rest ≤ String.length u)%nat as Hu.
    { intros u. pose proof (span_digits_length u) as Hl.
      destruct (span_digits u) as [d0 r]. case_bool_decide; [done|].
      intros [= _ _ _ <-]. done. }
    assert (∀ sg u, (let '(d0, r) := span_digits u in
                     if bool_decide (d0 = EmptyString) then None
                     else Some (x0, y0, sg +:+ d0, r)) = Some (x, y, d, rest) →
                    String.length rest ≤ String.length u)%nat as Hu'.
    { intros sg u. pose proof (span_digits_length u) as Hl.
      destruct (span_digits u) as [d0 r]. case_bool_decide; [done|].
      intros [= _ _ _ <-]. done. }
    destruct c1 as [[] [] [] [] [] [] [] []];
      intros H; apply Hu' in H; cbn [String.length] in *; lia.
Qed.

Lemma substitute_fuel (s : vm) (fuel : nat) : ∀ text,
  (String.length text < fuel)%nat →
  substitute s fuel text = substitute s (S (String.length text)) text.
Proof.
  induction (lt_wf fuel) as [fuel _ IH]. intros text Hf.
  destruct fuel as [|fuel]; [lia|]. cbn [substitute].
  destruct (match_directive text) as [[[[x y] d] rest]|] eqn:Hm.
  - apply match_directive_shorter in Hm.
    rewrite (IH fuel) by lia.
    destruct (String.length text) as [|k] eqn:Hk; [lia|].
    rewrite (IH (S k)) by lia. done.
  - destruct text as [|c text]; [done|]. cbn [String.length] in *.
    rewrite (IH fuel) by lia. done.
Qed.

Lemma length_append (a b : string) :
  String.length (a +:+ b) = (String.length a + String.length b)%nat.
Proof.
  induction a as [|c a IH]; [done|].
  change (S (String.length (a +:+ b)) = S (String.length a + String.length b)).
  by rewrite IH.
Qed.

Lemma substitute_step (s : vm) (fuel : nat) (text : string) :
  substitute s (S fuel) text
  = match match_directive text with
    | Some (x, y, d, rest) => substitute_match s x y d +:+ substitute s fuel rest
    | None =>
        match text with
        | String c text' => String c (substitute s fuel text')
        | EmptyString => EmptyString
        end
    end.
Proof. reflexivity. Qed.

Lemma substitute_prefix (s : vm) (pre rest : string) :
  contains pre "@" = false →
  process_text_substitutions s (pre +:+ rest)
  = pre +:+ process_text_substitutions s rest.
Proof.
  intros Hpre. unfold process_text_substitutions.
  induction pre as [|c pre IH]; [done|].
  cbn [contains] in Hpre.
  destruct (String.prefix "@" (String c pre)) eqn:Hp; [done|].
  assert (match_directive (String c (pre +:+ rest)) = None) as Hm.
  { unfold match_directive. destruct c as [[] [] [] [] [] [] [] []]; try done.
    cbn in Hp. by destruct pre. }
  change (String c pre +:+ rest) with (String c (pre +:+ rest)).
  rewrite substitute_step, Hm. cbn [String.length].
  by rewrite IH.
Qed.

Lemma substitute_directive (s : vm) (x y : ascii) (n : Z) (post : string) :
  (x = "G" ∨ x = "S" ∨ x = "P")%char → (y = "S" ∨ y = "I")%char →
  starts_with_digit post = false →
  process_text_substitutions s (String "@" (String x (String y (str n +:+ post))))
  = substitute_match s x y (str n) +:+ process_text_substitutions s post.
Proof.
  intros Hx Hy Hpost. unfold process_text_substitutions.
  rewrite substitute_step, match_directive_numeral by done.
  rewrite substitute_fuel; [done|].
  cbn [String.length]. rewrite length_append. lia.
Qed.

(** X24: in a text, the directive [@SI<n>] after a prefix
    without [@] and before a text that does not start with a digit is
    replaced by the decimal numeral of the cell [BP + n], and [@SS<n>] by
    the raw string whose number that cell holds; the rest of the text is
    processed in the same way. *)
Theorem stack_directive_is_replaced (s : vm) (pre post : string) (n : Z) :
  contains pre "@" = false → starts_with_digit post = false →
  -65536 ≤ base_pointer s + n →
  let value := default 0 (memory s !! ((base_pointer s + n) `mod` 65536)) in
  process_text_substitutions s (pre +:+ "@SI" +:+ str n +:+ post)
  = pre +:+ str value +:+ process_text_substitutions s post
  ∧ process_text_substitutions s (pre +:+ "@SS" +:+ str n +:+ post)
    = pre +:+ get_string_raw s value +:+ process_text_substitutions s post.
Proof.
  intros Hpre Hpost Haddr value.
  assert (∀ y, (y = "S" ∨ y = "I")%char →
            substitute_match s "S" y (str n)
            = if bool_decide (y = "I"%char) then str value else get_string_raw s value)
    as Hsub.
  { intros y Hy. unfold substitute_match. rewrite int_str.
    rewrite bool_decide_true by done. by rewrite read_mem_wraps. }
  split.
  - rewrite substitute_prefix by done. f_equal.
    change ("@SI" +:+ str n +:+ post) with (String "@" (String "S" (String "I" (str n +:+ post)))).
    rewrite substitute_directive by (done || eauto). by rewrite Hsub by eauto.
  - rewrite substitute_prefix by done. f_equal.
    change ("@SS" +:+ str n +:+ post) with (String "@" (String "S" (String "S" (str n +:+ post)))).
    rewrite substitute_directive by (done || eauto). by rewrite Hsub by eauto.
Qed.

Lemma stack_directive_is_replaced_witness :
  let value := default 0 (memory directive_state
                            !! ((base_pointer directive_state + 1) `mod` 65536)) in
  process_text_substitutions directive_state ("HP: " +:+ "@SI" +:+ str 1 +:+ "!")
  = "HP: " +:+ str value +:+ process_text_substitutions directive_state "!"
  ∧ process_text_substitutions directive_state ("HP: " +:+ "@SS" +:+ str 1 +:+ "!")
    = "HP: " +:+ get_string_raw directive_state value
      +:+ process_text_substitutions directive_state "!".
Proof. apply (stack_directive_is_replaced directive_state "HP: " "!" 1); by vm_compute. Defined.

End texts_more.

(** * The assembler *)

Section assembler_more.
Import Py UltimaUnderworldVM VMSpec.
Local Open Scope string_scope.
Local Open Scope Z_scope.
Local Open Scope list_scope.

Lemma split_go_last (sep : string) (fuel : nat) : ∀ s cur,
  ∃ a, split_go fuel sep (Some O) s cur = [a].
Proof.
  induction fuel as [|fuel IH]; intros s cur; [by eexists|].
  destruct s as [|c s]; [by eexists|]. cbn [split_go].
  rewrite bool_decide_false by (by intros H; apply H). cbn [andb]. apply IH.
Qed.

Lemma split_go_two (fuel : nat) : ∀ s cur,
  (String.length s < fuel)%nat → contains s " " = true →
  ∃ a b, split_go fuel " " (Some 1%nat) s cur = [a; b].
Proof.
  induction fuel as [|fuel IH]; intros s cur Hf Hc; [lia|].
  destruct s as [|c s]; [done|]. cbn [split_go].
  rewrite bool_decide_true by done. cbn [andb].
  cbn [contains] in Hc.
  destruct (String.prefix " " (String c s)) eqn:Hp.
  - destruct (split_go_last " " fuel (drop_chars (String.length " ") (String c s)) "")
      as [b Hb].
    cbn [fmap option_fmap option_map pred]. rewrite Hb. by eexists _, _.
  - cbn [String.length] in Hf. apply IH; [lia|done].
Qed.

Lemma split_max_two (s : string) :
  contains s " " = true → ∃ a b, split_max s " " 1 = [a; b].
Proof. intros Hc. unfold split_max. apply split_go_two; [lia|done]. Qed.

Lemma rstrip_head (c : ascii) (s : string) :
  isspace c = false → ∃ t, rstrip (String c s) = String c t.
Proof.
  intros Hc. cbn [rstrip]. destruct (rstrip s); [|by eexists].
  rewrite Hc. by eexists.
Qed.

(** A line that starts with a semicolon is skipped. *)
Lemma semicolon_skipped (l : string) : startswith l ";" = true → skipped l = true.
Proof.
  intros Hs. unfold skipped. apply orb_true_iff. right.
  destruct l as [|c l]; [done|].
  unfold startswith in *. cbn [String.prefix] in Hs.
  destruct (ascii_dec ";" c) as [<-|]; [|by destruct (Ascii.eqb_spec ";" c)].
  unfold strip. cbn [lstrip].
  change (isspace ";") with false. cbn iota.
  destruct (rstrip_head ";" l) as [t ->]; [done|]. 
  cbn [String.prefix]. by destruct t.
Qed.

Lemma first_pass_step (line : string) (ls : list string) (pc : Z)
    (labels : gmap string Z) :
  first_pass (line :: ls) pc labels
  = first_pass ls (pc + words_of line)
      (match label_of line with Some n => <[n := pc]> labels | None => labels end).
Proof.
  cbn [first_pass]. unfold words_of, label_of. cbn zeta.
  destruct (skipped (strip line)) eqn:Hsk; [by rewrite Z.add_0_r|].
  destruct (is_label (strip line)); [by rewrite Z.add_0_r|].
  destruct (startswith (strip line) ";") eqn:Hs.
  { apply semicolon_skipped in Hs. congruence. }
  cbn [negb]. by destruct (contains (strip line) " ").
Qed.

Lemma second_pass_step (lbls : gmap string Z) (line : string) (pc : Z) :
  ∃ ws, Z.of_nat (length ws) = words_of line
        ∧ ∀ ls code, second_pass lbls (line :: ls) pc code
                     = second_pass lbls ls (pc + words_of line) (code ++ ws).
Proof.
  unfold words_of. cbn zeta. cbn [second_pass].
  destruct (skipped (strip line)).
  { exists []. split; [done|]. intros. by rewrite Z.add_0_r, app_nil_r. }
  destruct (is_label (strip line)).
  { exists []. split; [done|]. intros. by rewrite Z.add_0_r, app_nil_r. }
  destruct (contains (strip line) " ") eqn:Hc.
  - destruct (split_max_two _ Hc) as (a & b & ->). by eexists [_; _].
  - by eexists [_].
Qed.

Lemma first_pass_app (l1 l2 : list string) : ∀ pc labels,
  first_pass (l1 ++ l2) pc labels
  = first_pass l2 (pc + words l1) (first_pass l1 pc labels).
Proof.
  induction l1 as [|line l1 IH]; intros pc labels.
  - cbn. by rewrite Z.add_0_r.
  - rewrite <- app_comm_cons, !first_pass_step, IH. cbn [words foldr].
    by rewrite Z.add_assoc.
Qed.

Lemma second_pass_acc (lbls : gmap string Z) (l : list string) : ∀ pc code,
  second_pass lbls l pc code = code ++ second_pass lbls l pc [].
Proof.
  induction l as [|line l IH]; intros pc code.
  - cbn. by rewrite app_nil_r.
  - destruct (second_pass_step lbls line pc) as (ws & _ & Hws).
    rewrite !Hws, (IH _ (code ++ ws)), (IH _ ([] ++ ws)).
    by rewrite app_assoc.
Qed.

Lemma second_pass_length (lbls : gmap string Z) (l : list string) : ∀ pc,
  Z.of_nat (length (second_pass lbls l pc [])) = words l.
Proof.
  induction l as [|line l IH]; intros pc; [done|].
  destruct (second_pass_step lbls line pc) as (ws & Hlen & Hws).
  rewrite Hws, second_pass_acc, length_app, Nat2Z.inj_add, IH.
  change (words (line :: l)) with (words_of line + words l).
  cbn [app]. lia.
Qed.

Lemma second_pass_app (lbls : gmap string Z) (l1 l2 : list string) : ∀ pc,
  second_pass lbls (l1 ++ l2) pc []
  = second_pass lbls l1 pc [] ++ second_pass lbls l2 (pc + words l1) [].
Proof.
  induction l1 as [|line l1 IH]; intros pc.
  - cbn. by rewrite Z.add_0_r.
  - destruct (second_pass_step lbls line pc) as (ws & _ & Hws).
    rewrite <- app_comm_cons, !Hws.
    rewrite (second_pass_acc _ (l1 ++ l2)), (second_pass_acc _ l1), IH.
    change (words (line :: l1)) with (words_of line + words l1).
    by rewrite app_assoc, Z.add_assoc.
Qed.

Lemma first_pass_other (name : string) (l : list string) :
  Forall (λ line, label_of line ≠ Some name) l →
  ∀ pc labels, first_pass l pc labels !! name = labels !! name.
Proof.
  induction 1 as [|line l Hline _ IH]; intros pc labels; [done|].
  rewrite first_pass_step, IH.
  destruct (label_of line) as [n|]; [|done].
  rewrite lookup_insert_ne; [done|congruence].
Qed.

Lemma label_words (line name : string) : label_of line = Some name → words_of line = 0.
Proof.
  unfold label_of, words_of. cbn zeta.
  destruct (skipped (strip line)); [done|]. by destruct (is_label (strip line)).
Qed.

(** X25: after [parse_asm], the address of a label that no
    later line defines again is the number of code words assembled from the
    lines before it, and the code from that address on is the code of the
    lines after the label. *)
Theorem label_address_is_code_position (s s' : vm) (before after : list string)
    (line name : string) :
  label_of line = Some name →
  Forall (λ l, label_of l ≠ Some name) after →
  parse_asm (before ++ line :: after) s = Ok s' →
  ∃ a, labels s' !! name = Some a
       ∧ a = Z.of_nat (length (second_pass (labels s') before 0 []))
       ∧ code s' = second_pass (labels s') before 0 []
                   ++ second_pass (labels s') after a [].
Proof.
  intros Hline Hafter Hparse. unfold parse_asm in Hparse.
  destruct (foldl _ _ _) as [s0|]; [|done]. cbn in Hparse.
  injection Hparse as <-. cbn [labels code with_code with_labels].
  set (lbls := first_pass (before ++ line :: after) 0 ∅).
  exists (words before). split_and!.
  - unfold lbls. rewrite first_pass_app, first_pass_step, Hline.
    rewrite first_pass_other by done. by rewrite lookup_insert_eq.
  - by rewrite second_pass_length.
  - rewrite second_pass_app. f_equal.
    destruct (second_pass_step lbls line (0 + words before)) as (ws & Hlen & Hws).
    rewrite Hws. rewrite (label_words _ _ Hline) in *.
    destruct ws; [|done]. by rewrite Z.add_0_r.
Qed.

Lemma label_address_is_code_position_witness :
  ∃ a, labels (assembled_vm jmp_program) !! "L" = Some a
       ∧ a = Z.of_nat (length (second_pass (labels (assembled_vm jmp_program))
                                 ["JMP L"; "NOP"; "NOP"] 0 []))
       ∧ code (assembled_vm jmp_program)
         = second_pass (labels (assembled_vm jmp_program)) ["JMP L"; "NOP"; "NOP"] 0 []
           ++ second_pass (labels (assembled_vm jmp_program)) ["EXIT_OP"] a [].
Proof.
  apply (label_address_is_code_position (init [] []) (assembled_vm jmp_program)
           ["JMP L"; "NOP"; "NOP"] ["EXIT_OP"] "L:" "L").
  - by vm_compute.
  - repeat constructor. by vm_compute.
  - by vm_compute.
Defined.

End assembler_more.

(** * The code generator *)

Section temporaries.
Import CompilerSpec.
Import Py UWScript.
Local Open Scope Z_scope.
Local Open Scope list_scope.

Lemma next_free_ge (allocated : gset Z) (fuel : nat) : ∀ v : Z,
  v ≤ next_free fuel allocated v.
Proof.
  induction fuel as [|fuel IH]; intros v; [done|]. cbn [next_free].
  case_bool_decide; [|done]. specialize (IH (v + 1)). lia.
Qed.

Lemma next_free_fresh (allocated : gset Z) (fuel : nat) : ∀ v : Z,
  (size (filter (λ x, (v ≤ x)%Z) allocated) < fuel)%nat →
  next_free fuel allocated v ∉ allocated.
Proof.
  induction fuel as [|fuel IH]; intros v Hsize; [lia|]. cbn [next_free].
  case_bool_decide as Hv; [|done]. apply IH.
  assert (filter (λ x, v + 1 ≤ x) allocated ⊂ filter (λ x, v ≤ x) allocated) as Hsub.
  { split.
    - intros x Hx. apply elem_of_filter in Hx as [Hx1 Hx2].
      apply elem_of_filter. split; [lia|done].
    - intros Hsub. specialize (Hsub v).
      rewrite !elem_of_filter in Hsub. destruct Hsub as [Hlt _]; [by split|]. lia. }
  apply subset_size in Hsub. lia.
Qed.

Lemma foldr_min_elem (x : Z) (l : list Z) : foldr Z.min x l ∈ x :: l.
Proof.
  induction l as [|y l IH]; [by left|]. cbn [foldr].
  destruct (Z.min_spec y (foldr Z.min x l)) as [[_ ->]|[_ ->]].
  - right. by left.
  - apply elem_of_cons in IH as [->|IH]; [by left|]. right. by right.
Qed.

Lemma add_to_scope_ok (v : Z) (scopes : list (gset Z)) :
  base_temp_var ≤ v →
  Forall (λ scope : gset Z, ∀ x, x ∈ scope → base_temp_var ≤ x) scopes →
  Forall (λ scope : gset Z, ∀ x, x ∈ scope → base_temp_var ≤ x) (add_to_scope v scopes).
Proof.
  intros Hv Hs. unfold add_to_scope.
  destruct (last scopes) as [scope|] eqn:Hlast; [|done].
  apply last_Some in Hlast as [l' ->]. rewrite removelast_last.
  rewrite Forall_app, Forall_singleton in Hs. destruct Hs as [Hl' Hscope].
  rewrite Forall_app, Forall_singleton. split; [done|].
  intros x Hx. apply elem_of_union in Hx as [Hx|Hx]; [by apply Hscope|].
  apply elem_of_singleton in Hx. by subst.
Qed.

Lemma foldr_min_le (x : Z) (l : list Z) (y : Z) : y ∈ x :: l → foldr Z.min x l ≤ y.
Proof.
  induction l as [|z l IH]; intros Hy.
  - apply elem_of_cons in Hy as [->|Hy]; [done|]. by apply elem_of_nil in Hy.
  - cbn [foldr]. apply elem_of_cons in Hy as [->|Hy].
    + specialize (IH ltac:(by left)). lia.
    + apply elem_of_cons in Hy as [->|Hy]; [lia|].
      specialize (IH ltac:(by right)). lia.
Qed.

(** The variable that [allocate_temp_var] returns. *)
Lemma allocate_temp_var_spec (t : TempVariableManager) :
  temps_ok t →
  (fst (allocate_temp_var t) ∉ allocated_temps t)
  ∧ base_temp_var ≤ fst (allocate_temp_var t)
  ∧ temps_ok (snd (allocate_temp_var t)).
Proof.
  intros (Hdisj & Hbase & Hscopes). unfold allocate_temp_var.
  destruct (elements (freed_temps t)) as [|x l] eqn:Hel.
  - apply elements_empty_inv in Hel. apply leibniz_equiv in Hel.
    cbn [fst snd].
    set (v := next_free _ _ _).
    assert (v ∉ allocated_temps t) as Hfresh.
    { apply next_free_fresh.
      pose proof (subseteq_size (filter (λ x, base_temp_var ≤ x) (allocated_temps t))
                    (allocated_temps t)) as Hle.
      assert (filter (λ x, base_temp_var ≤ x) (allocated_temps t) ⊆ allocated_temps t)
        as Hsub by (intros y Hy; by apply elem_of_filter in Hy as [_ Hy]).
      apply Hle in Hsub. lia. }
    assert (base_temp_var ≤ v) as Hge by apply next_free_ge.
    clearbody v. split; [done|]. split; [done|]. unfold temps_ok. split_and!.
    + cbn [allocated_temps freed_temps scoped_temp_vars]. rewrite Hel. set_solver.
    + cbn [allocated_temps freed_temps scoped_temp_vars]. intros y Hy. rewrite Hel in *.
      apply elem_of_union in Hy as [Hy|Hy]; [|set_solver].
      apply elem_of_union in Hy as [Hy|Hy]; [apply Hbase; set_solver|].
      apply elem_of_singleton in Hy. by subst.
    + cbn [allocated_temps freed_temps scoped_temp_vars]. by apply add_to_scope_ok.
  - cbn [fst snd]. set (v := foldr Z.min x l).
    assert (v ∈ freed_temps t) as Hv.
    { apply elem_of_elements. rewrite Hel. apply foldr_min_elem. }
    assert (base_temp_var ≤ v) as Hge by (apply Hbase, elem_of_union; by right).
    assert (v ∉ allocated_temps t) as Hfresh by (intros Ha; by apply (Hdisj v)).
    clearbody v. split; [done|]. split; [done|]. unfold temps_ok.
    cbn [allocated_temps freed_temps scoped_temp_vars]. split_and!.
    + intros y Hy Hy'. apply elem_of_difference in Hy' as [Hy' Hne].
      apply elem_of_union in Hy as [Hy|Hy]; [by apply (Hdisj y)|done].
    + intros y Hy. apply elem_of_union in Hy as [Hy|Hy].
      * apply elem_of_union in Hy as [Hy|Hy].
        -- apply Hbase, elem_of_union. by left.
        -- apply elem_of_singleton in Hy. by subst.
      * apply elem_of_difference in Hy as [Hy _].
        apply Hbase, elem_of_union. by right.
    + by apply add_to_scope_ok.
Qed.

Lemma enter_scope_ok (t : TempVariableManager) : temps_ok t → temps_ok (enter_scope t).
Proof.
  intros (Hdisj & Hbase & Hscopes). unfold temps_ok, enter_scope.
  cbn [allocated_temps freed_temps scoped_temp_vars]. split_and!; [done|done|].
  rewrite Forall_app, Forall_singleton. split; [done|].
  intros y Hy. by apply not_elem_of_empty in Hy.
Qed.

Lemma exit_scope_ok (t : TempVariableManager) : temps_ok t → temps_ok (exit_scope t).
Proof.
  intros (Hdisj & Hbase & Hscopes). unfold exit_scope.
  destruct (last (scoped_temp_vars t)) as [scope|] eqn:Hlast; [|done].
  apply last_Some in Hlast as [l' Hl]. rewrite Hl in *.
  rewrite Forall_app, Forall_singleton in Hscopes. destruct Hscopes as [Hl' Hscope].
  unfold temps_ok. cbn [allocated_temps freed_temps scoped_temp_vars]. split_and!.
  - intros y Hy Hy'. apply elem_of_difference in Hy as [Hy Hne].
    apply elem_of_union in Hy' as [Hy'|Hy']; [by apply (Hdisj y)|done].
  - intros y Hy. apply elem_of_union in Hy as [Hy|Hy].
    + apply elem_of_difference in Hy as [Hy _]. apply Hbase, elem_of_union. by left.
    + apply elem_of_union in Hy as [Hy|Hy]; [|by apply Hscope].
      apply Hbase, elem_of_union. by right.
  - by rewrite removelast_last.
Qed.

Lemma reachable_ok (t : TempVariableManager) : reachable t → temps_ok t.
Proof.
  induction 1 as [|t _ IH|t _ IH|t _ IH].
  - split_and!; cbn [temp_reset allocated_temps freed_temps scoped_temp_vars].
    + intros y Hy. by apply not_elem_of_empty in Hy.
    + intros y Hy. apply elem_of_union in Hy as [Hy|Hy]; by apply not_elem_of_empty in Hy.
    + done.
  - by apply enter_scope_ok.
  - by apply exit_scope_ok.
  - by apply allocate_temp_var_spec.
Qed.

(** X26: in every state that the manager reaches from a reset
    by [enter_scope], [exit_scope] and [allocate_temp_var], the variable
    that [allocate_temp_var] returns is not among the allocated ones and
    is at least [base_temp_var]; when freed variables exist it is the
    least of them. *)
Theorem allocate_temp_var_fresh (t : TempVariableManager) :
  reachable t →
  (fst (allocate_temp_var t) ∉ allocated_temps t)
  ∧ base_temp_var ≤ fst (allocate_temp_var t)
  ∧ (freed_temps t ≠ ∅ →
     fst (allocate_temp_var t) ∈ freed_temps t
     ∧ ∀ x, x ∈ freed_temps t → fst (allocate_temp_var t) ≤ x).
Proof.
  intros Ht. apply reachable_ok in Ht.
  destruct (allocate_temp_var_spec t Ht) as (H1 & H2 & _).
  split_and!; [done|done|]. intros Hne. unfold allocate_temp_var.
  destruct (elements (freed_temps t)) as [|x l] eqn:Hel.
  { apply elements_empty_inv in Hel. apply leibniz_equiv in Hel. done. }
  cbn [fst]. split.
  - apply elem_of_elements. rewrite Hel. apply foldr_min_elem.
  - intros y Hy. apply elem_of_elements in Hy. rewrite Hel in Hy.
    by apply foldr_min_le.
Qed.

Lemma allocate_temp_var_fresh_witness :
  (fst (allocate_temp_var recycled_temps) ∉ allocated_temps recycled_temps)
  ∧ base_temp_var ≤ fst (allocate_temp_var recycled_temps)
  ∧ (freed_temps recycled_temps ≠ ∅ →
     fst (allocate_temp_var recycled_temps) ∈ freed_temps recycled_temps
     ∧ ∀ x, x ∈ freed_temps recycled_temps → fst (allocate_temp_var recycled_temps) ≤ x).
Proof.
  apply (allocate_temp_var_fresh recycled_temps).
  apply reach_exit, reach_allocate, reach_enter, reach_reset.
Defined.

End temporaries.

Section variables_more.
Import CompilerSpec.
Import Py UWScript.
Local Open Scope string_scope.
Local Open Scope Z_scope.
Local Open Scope list_scope.

Lemma dict_get_set {V} (d : dict V) (k k' : string) (v : V) :
  dict_get (dict_set d k v) k' = if bool_decide (k = k') then Some v else dict_get d k'.
Proof.
  induction d as [|[k0 v0] d IH]; cbn [dict_set dict_get].
  - done.
  - destruct (decide (k0 = k)) as [->|Hne].
    + rewrite bool_decide_true by done. cbn [dict_get]. by case_bool_decide.
    + rewrite bool_decide_false by done. cbn [dict_get]. rewrite IH.
      repeat case_bool_decide; congruence.
Qed.

Lemma dict_set_set {V} (d : dict V) (k : string) (v : V) :
  dict_set (dict_set d k v) k v = dict_set d k v.
Proof.
  induction d as [|[k0 v0] d IH]; cbn [dict_set].
  - by rewrite bool_decide_true.
  - case_bool_decide; cbn [dict_set].
    + by rewrite bool_decide_true.
    + rewrite bool_decide_false by done. by rewrite IH.
Qed.

(** X27: after [_allocate_variable] for a name,
    [_get_variable_offset] finds the returned offset under that name, and
    allocating the name again returns the same offset and changes nothing,
    in a function scope and in the global scope. *)
Theorem allocate_then_get_offset (g : gen) (name : string) (size : Z) :
  let '(offset, g') := _allocate_variable name size g in
  _get_variable_offset g' name = Some offset
  ∧ ∀ size', _allocate_variable name size' g' = (offset, g').
Proof.
  unfold _allocate_variable, _get_variable_offset.
  destruct (current_scope g) as [[f sc]|] eqn:Hsc.
  - assert (current_function g = Some f ∧ f ≠ EmptyString) as [Hf Hne].
    { unfold current_scope in Hsc. destruct (current_function g) as [f'|]; [|done].
      case_bool_decide; [done|]. destruct (dict_get _ f'); [|done].
      by injection Hsc as -> _. }
    assert (∀ sc', current_scope
              (with_function_scopes (dict_set (function_scopes g) f sc') g)
            = Some (f, sc')) as Hcur.
    { intros sc'. unfold current_scope.
      cbn [current_function function_scopes with_function_scopes].
      rewrite Hf, bool_decide_false by done.
      rewrite dict_get_set, bool_decide_true by done. done. }
    unfold allocate_local_var.
    destruct (dict_get (local_variables sc) name) as [offset|] eqn:Hget.
    + rewrite Hcur. cbn [mbind option_bind]. rewrite Hget. split; [done|].
      intros size'. cbn [function_scopes with_function_scopes].
      by rewrite dict_set_set.
    + rewrite Hcur. cbn [mbind option_bind local_variables].
      rewrite dict_get_set, bool_decide_true by done. split; [done|].
      intros size'. cbn [local_variables].
      cbn [function_scopes with_function_scopes]. by rewrite dict_set_set.
  - destruct (dict_get (global_variables g) name) as [offset|] eqn:Hget.
    + rewrite Hsc. cbn [mbind option_bind]. by rewrite Hget.
    + assert (∀ g0, current_function g0 = current_function g →
                    function_scopes g0 = function_scopes g →
                    current_scope g0 = None) as Hcur.
      { intros g0 H1 H2. unfold current_scope in *. by rewrite H1, H2. }
      rewrite !Hcur by done. cbn [mbind option_bind].
      cbn [global_variables with_next_global_var with_global_variables].
      rewrite dict_get_set, bool_decide_true by done. done.
Qed.

Lemma allocate_keeps_scope (g : gen) (name : string) (size : Z) :
  current_function g = None →
  current_function (snd (_allocate_variable name size g)) = None.
Proof.
  intros Hf. unfold _allocate_variable, current_scope. rewrite Hf.
  by destruct (dict_get (global_variables g) name).
Qed.

Lemma declared_ok (g : gen) :
  declared g →
  current_function g = None
  ∧ 0 ≤ next_global_var g
  ∧ (∀ n o, dict_get (global_variables g) n = Some o → 0 ≤ o < next_global_var g)
  ∧ (∀ n1 n2 o, dict_get (global_variables g) n1 = Some o →
                dict_get (global_variables g) n2 = Some o → n1 = n2).
Proof.
  induction 1 as [|g name size _ (Hf & Hpos & Hlt & Hinj) Hsize].
  - split_and!; [done|done|done|done].
  - split; [by apply allocate_keeps_scope|].
    unfold _allocate_variable, current_scope. rewrite Hf.
    destruct (dict_get (global_variables g) name) as [offset|] eqn:Hget; [done|].
    cbn [snd global_variables next_global_var with_next_global_var
         with_global_variables].
    split_and!.
    + lia.
    + intros n o. rewrite dict_get_set. case_bool_decide.
      * intros [= <-]. lia.
      * intros Hn. apply Hlt in Hn. lia.
    + intros n1 n2 o. rewrite !dict_get_set. repeat case_bool_decide.
      * congruence.
      * intros [= <-] Hn. apply Hlt in Hn. lia.
      * intros Hn [= <-]. apply Hlt in Hn. lia.
      * apply Hinj.
Qed.

(** X28: in a generator that global declarations with
    positive sizes lead to, two different global names have different
    offsets, and the offsets lie below [next_global_var]. *)
Theorem globals_have_distinct_offsets (g : gen) (n1 n2 : string) (o1 o2 : Z) :
  declared g →
  dict_get (global_variables g) n1 = Some o1 →
  dict_get (global_variables g) n2 = Some o2 →
  n1 ≠ n2 →
  o1 ≠ o2 ∧ 0 ≤ o1 < next_global_var g.
Proof.
  intros Hg H1 H2 Hne. destruct (declared_ok g Hg) as (_ & _ & Hlt & Hinj).
  split; [|by apply (Hlt n1)]. intros <-. by apply Hne, (Hinj n1 n2 o1).
Qed.

Lemma globals_have_distinct_offsets_witness :
  0 ≠ 1 ∧ 0 ≤ 0 < next_global_var two_globals.
Proof.
  apply (globals_have_distinct_offsets two_globals "hp" "gold" 0 1).
  - apply declared_allocate; [|done]. apply declared_allocate; [|done].
    apply declared_new.
  - reflexivity.
  - reflexivity.
  - discriminate.
Defined.

(** ** Parameters *)

Lemma foldl_params (params : list string) : ∀ (k : nat) (d : dict Z) (p : string),
  dict_get (foldl (λ d '(i, param), dict_set d param (- (Z.of_nat i + 2))) d
                  (imap (λ i param, ((k + i)%nat, param)) params)) p
  = match last (filter (λ '(i, q), q = p) (imap (λ i param, ((k + i)%nat, param)) params)) with
    | Some (i, _) => Some (- (Z.of_nat i + 2))
    | None => dict_get d p
    end.
Proof.
  induction params as [|q params IH] using rev_ind; intros k d p; [done|].
  rewrite imap_app, foldl_app, filter_app. cbn [imap foldl].
  rewrite dict_get_set. rewrite filter_cons, filter_nil.
  destruct (decide (q = p)) as [->|Hne].
  - rewrite bool_decide_true by done. by rewrite last_snoc.
  - rewrite bool_decide_false by done. rewrite app_nil_r. apply IH.
Qed.

Lemma filter_imap_none (f : nat → string → nat * string) (l : list string)
    (p : string) :
  (∀ i q, snd (f i q) = q) → p ∉ l →
  filter (λ '(_, q), q = p) (imap f l) = [].
Proof.
  revert f. induction l as [|q l IH]; intros f Hf Hp; [done|].
  cbn [imap]. rewrite filter_cons.
  specialize (Hf 0%nat q) as Hq. destruct (f 0%nat q) as [k q']. cbn in Hq. subst q'.
  destruct (decide (q = p)) as [->|Hne].
  - exfalso. apply Hp. by left.
  - apply IH; [|intros Hin; apply Hp; by right]. intros i0 q0. apply Hf.
Qed.

(** X29: the scope of a function gives the parameter at position
    [i] the offset [-(i + 2)]; of a name that occurs more than once the
    last position counts. *)
Theorem parameter_offsets (name : string) (parameters : list string) (i : nat)
    (param : string) :
  parameters !! i = Some param →
  param ∉ drop (S i) parameters →
  dict_get (local_variables (new_scope name parameters)) param
  = Some (- (Z.of_nat i + 2)).
Proof.
  intros Hi Hlast. unfold new_scope. cbn [local_variables].
  change (imap (λ i param, (i, param)) parameters)
    with (imap (λ i param, ((0 + i)%nat, param)) parameters).
  rewrite (foldl_params parameters 0 [] param).
  rewrite <- (take_drop_middle parameters i param Hi) at 1.
  rewrite imap_app, filter_app. cbn [imap]. rewrite filter_cons.
  destruct (decide (param = param)) as [_|]; [|done].
  rewrite (filter_imap_none _ (drop (S i) parameters) param) by done.
  rewrite last_snoc. cbn. rewrite Nat.add_0_r.
  rewrite length_take_le; [done|]. apply lookup_lt_Some in Hi. lia.
Qed.

Lemma parameter_offsets_witness :
  dict_get (local_variables two_parameters) "b" = Some (- (Z.of_nat 1 + 2)).
Proof.
  apply (parameter_offsets "f" ["a"; "b"] 1 "b"); [reflexivity|].
  cbn [drop]. apply not_elem_of_nil.
Defined.

End variables_more.

(** * The strings file *)

Section strings_file.
Import TextSpec.
Import Py UltimaUnderworldVM UWScript Scenario.
Local Open Scope string_scope.
Local Open Scope Z_scope.
Local Open Scope list_scope.

(** ** Texts *)

Lemma append_cons (c : ascii) (a b : string) : String c a +:+ b = String c (a +:+ b).
Proof. reflexivity. Qed.

Lemma append_nil_l (a : string) : EmptyString +:+ a = a.
Proof. reflexivity. Qed.

Lemma append_nil_r (a : string) : a +:+ EmptyString = a.
Proof. induction a as [|c a IH]; [done|]. by rewrite append_cons, IH. Qed.

Lemma text_append_assoc (a b c : string) : (a +:+ b) +:+ c = a +:+ (b +:+ c).
Proof. induction a as [|x a IH]; [done|]. by rewrite !append_cons, IH. Qed.

Lemma rev_app_append (cur a b : string) :
  String.rev_app cur a +:+ b = String.rev_app cur (a +:+ b).
Proof.
  revert a. induction cur as [|c cur IH]; intros a; [done|].
  cbn [String.rev_app]. by rewrite IH.
Qed.

Lemma all_chars_append (p : ascii → bool) (a b : string) :
  all_chars p (a +:+ b) = all_chars p a && all_chars p b.
Proof.
  induction a as [|c a IH]; [done|].
  rewrite append_cons. cbn [all_chars]. by rewrite IH, andb_assoc.
Qed.

Lemma all_chars_impl (p q : ascii → bool) (s : string) :
  (∀ c, p c = true → q c = true) → all_chars p s = true → all_chars q s = true.
Proof.
  intros Hpq. induction s as [|c s IH]; [done|]. cbn [all_chars].
  intros [Hc Hs]%andb_prop. by rewrite (Hpq c Hc), IH.
Qed.

(** ** Stripping *)

Lemma rstrip_cons (c : ascii) (s : string) :
  isspace c = false → rstrip (String c s) = String c (rstrip s).
Proof. intros Hc. cbn [rstrip]. destruct (rstrip s); [by rewrite Hc|done]. Qed.

Lemma rstrip_append (a t : string) :
  rstrip t ≠ EmptyString → rstrip (a +:+ t) = a +:+ rstrip t.
Proof.
  intros Ht. induction a as [|c a IH]; [done|].
  rewrite !append_cons. cbn [rstrip]. rewrite IH.
  destruct (a +:+ rstrip t) eqn:Ha; [|done].
  destruct a; [|done]. by rewrite append_nil_l in Ha.
Qed.

Lemma rstrip_idem (s : string) : rstrip (rstrip s) = rstrip s.
Proof.
  induction s as [|c s IH]; [done|]. cbn [rstrip].
  destruct (rstrip s) as [|c' t] eqn:Hs.
  - destruct (isspace c) eqn:Hc; [done|]. cbn [rstrip]. by rewrite Hc.
  - cbn [rstrip] in *. rewrite IH. done.
Qed.

Lemma lstrip_rstrip (s : string) : lstrip (rstrip s) = rstrip (lstrip s).
Proof.
  induction s as [|c s IH]; [done|]. cbn [lstrip].
  destruct (isspace c) eqn:Hc.
  - rewrite <- IH. cbn [rstrip]. destruct (rstrip s) as [|c' t].
    + by rewrite Hc.
    + cbn [lstrip]. by rewrite Hc.
  - rewrite rstrip_cons by done. cbn [lstrip]. by rewrite Hc.
Qed.

(** Stripping a text whose first character is no blank. *)
Lemma strip_cons (c : ascii) (s : string) :
  isspace c = false → strip (String c s) = String c (rstrip s).
Proof. intros Hc. unfold strip. cbn [lstrip]. rewrite Hc. by apply rstrip_cons. Qed.

(** A line that starts and ends with other characters than blanks. *)
Lemma strip_line (c : ascii) (a t : string) :
  isspace c = false → rstrip t = t → t ≠ EmptyString →
  strip (String c a +:+ t) = String c a +:+ t.
Proof.
  intros Hc Ht Hne. rewrite append_cons, strip_cons by done.
  rewrite rstrip_append by (by rewrite Ht). by rewrite Ht.
Qed.

Lemma strip_rstrip_blank (e : string) : strip (rstrip (String " " e)) = strip e.
Proof.
  unfold strip. rewrite lstrip_rstrip, rstrip_idem. done.
Qed.

(** ** Splitting at a character *)

Lemma prefix_char (c x : ascii) (s : string) :
  String.prefix (String c EmptyString) (String x s) = bool_decide (c = x).
Proof.
  cbn [String.prefix]. destruct (ascii_dec c x) as [->|Hne].
  - rewrite bool_decide_true by done. by destruct s.
  - by rewrite bool_decide_false.
Qed.

(** No more splits: the rest is one piece. *)
Lemma split_go_none (sep : string) (fuel : nat) : ∀ s cur,
  (String.length s < fuel)%nat →
  split_go fuel sep (Some O) s cur = [String.rev_app cur s].
Proof.
  induction fuel as [|fuel IH]; intros s cur Hf; [lia|].
  destruct s as [|x s]; [done|]. cbn [split_go].
  rewrite bool_decide_false by (by intros H; apply H). cbn [andb].
  cbn [String.length] in Hf. rewrite IH by lia. done.
Qed.

(** A text without the separator is one piece. *)
Lemma split_go_end (c : ascii) (maxsplit : option nat) (D : string) :
  without c D = true →
  ∀ fuel cur, (String.length D < fuel)%nat →
  split_go fuel (String c EmptyString) maxsplit D cur = [String.rev_app cur D].
Proof.
  induction D as [|x D IH]; intros HD fuel cur Hf.
  - destruct fuel; [lia|done].
  - destruct fuel as [|fuel]; [lia|]. cbn [split_go].
    unfold without in HD. cbn [all_chars] in HD. apply andb_prop in HD as [Hx HD].
    apply negb_true_iff, bool_decide_eq_false in Hx.
    rewrite prefix_char, (bool_decide_false (c = x)) by congruence.
    rewrite andb_false_r. cbn [String.length] in Hf. rewrite IH by (done || lia). done.
Qed.

(** The first piece ends at the first separator. *)
Lemma split_go_char (c : ascii) (maxsplit : option nat) (D : string) :
  without c D = true → maxsplit ≠ Some O →
  ∀ fuel cur R, (String.length (D +:+ String c R) < fuel)%nat →
  split_go fuel (String c EmptyString) maxsplit (D +:+ String c R) cur
  = String.rev_app cur D
    :: split_go (fuel - S (String.length D)) (String c EmptyString)
         (pred <$> maxsplit) R EmptyString.
Proof.
  intros HD Hmax. induction D as [|x D IH]; intros fuel cur R Hf.
  - destruct fuel as [|fuel]; [lia|]. rewrite append_nil_l. cbn [split_go].
    rewrite prefix_char, !bool_decide_true by done. cbn [andb].
    cbn [String.length drop_chars].
    by replace (S fuel - 1)%nat with fuel by lia.
  - destruct fuel as [|fuel]; [lia|]. rewrite append_cons. cbn [split_go].
    unfold without in HD. cbn [all_chars] in HD. apply andb_prop in HD as [Hx HD].
    apply negb_true_iff, bool_decide_eq_false in Hx.
    rewrite prefix_char, (bool_decide_false (c = x)) by congruence.
    rewrite andb_false_r. rewrite append_cons in Hf. cbn [String.length] in Hf.
    rewrite IH by (done || lia).
    by replace (S fuel - S (String.length (String x D)))%nat
      with (fuel - S (String.length D))%nat by (cbn [String.length]; lia).
Qed.

(** [a.split(c, 1)] of a text with the character [c] *)
Lemma split_max_char (c : ascii) (D R : string) :
  without c D = true →
  split_max (D +:+ String c R) (String c EmptyString) 1 = [D; R].
Proof.
  intros HD. unfold split_max. rewrite split_go_char by (done || lia).
  cbn [fmap option_fmap option_map pred String.rev_app]. f_equal.
  rewrite split_go_none; [done|].
  rewrite length_append. cbn [String.length]. lia.
Qed.

(** [a.split(c)[0]] of a text with the character [c] *)
Lemma split_head (c : ascii) (D R : string) :
  without c D = true →
  head (split (D +:+ String c R) (String c EmptyString)) = Some D.
Proof.
  intros HD. unfold split. by rewrite split_go_char by (done || lia).
Qed.

(** Splitting the joined lines gives the lines. *)
Lemma split_concat (c : ascii) (L : list string) :
  Forall (λ a, without c a = true) L → L ≠ [] →
  ∀ fuel, (String.length (String.concat (String c EmptyString) L) < fuel)%nat →
  split_go fuel (String c EmptyString) None
    (String.concat (String c EmptyString) L) EmptyString = L.
Proof.
  induction 1 as [|a L Ha HL IH]; intros Hne fuel Hf; [done|].
  destruct L as [|b L].
  - cbn [String.concat] in *. by rewrite split_go_end.
  - change (String.concat (String c EmptyString) (a :: b :: L))
      with (a +:+ String c (String.concat (String c EmptyString) (b :: L))) in *.
    rewrite split_go_char by done. cbn [String.rev_app fmap option_fmap option_map].
    f_equal. apply IH; [done|].
    rewrite length_append in Hf. cbn [String.length] in Hf. lia.
Qed.

(** ** Numerals and escapes *)

Lemma decimal_char_facts (c : ascii) :
  decimal_char c = true →
  isspace c = false ∧ isdigit_char c = true ∧ c ≠ ":"%char ∧ c ≠ "b"%char
  ∧ c ≠ ascii_of_nat 10.
Proof.
  unfold decimal_char, isspace, isdigit_char. intros Hc.
  apply bool_decide_eq_true in Hc. split_and!.
  - apply bool_decide_eq_false. lia.
  - apply bool_decide_eq_true. lia.
  - intros ->. vm_compute in Hc. destruct Hc as [_ Hc]. by apply Hc.
  - intros ->. vm_compute in Hc. destruct Hc as [_ Hc]. by apply Hc.
  - intros ->. vm_compute in Hc. destruct Hc as [Hc _]. by apply Hc.
Qed.

Lemma pretty_N_go_decimal (x : N) : ∀ s,
  all_chars decimal_char (pretty_N_go x s) = all_chars decimal_char s.
Proof.
  induction (N.lt_wf_0 x) as [x _ IH]; intros s.
  destruct (decide (x = 0)%N) as [->|Hx]; [by rewrite pretty_N_go_0|].
  rewrite pretty_N_go_step by lia. rewrite IH by (apply N.div_lt; lia).
  cbn [all_chars].
  destruct (pretty_N_char_digit (x `mod` 10)%N) as (_ & Hd & _); [by apply N.mod_lt|].
  unfold decimal_char at 1. by rewrite Hd.
Qed.

(** The numeral of a natural number: digits, and at least one. *)
Lemma str_decimal (i : nat) :
  all_chars decimal_char (str (Z.of_nat i)) = true
  ∧ ∃ d t, str (Z.of_nat i) = String d t.
Proof.
  unfold str. destruct (Z.of_nat i) as [|p|p] eqn:Hi; [|split|lia].
  - split; [done|]. by eexists _, _.
  - unfold pretty, pretty_Z, pretty_positive, pretty, pretty_N.
    rewrite decide_False by done. by rewrite pretty_N_go_decimal.
  - unfold pretty, pretty_Z, pretty_positive, pretty, pretty_N.
    rewrite decide_False by done.
    destruct (pretty_N_go_digits (N.pos p) EmptyString) as (_ & _ & _ & c & t & Hc & _);
      [lia|].
    by exists c, t.
Qed.

Lemma decimal_without (c : ascii) (D : string) :
  decimal_char c = false → all_chars decimal_char D = true → without c D = true.
Proof.
  intros Hc. apply all_chars_impl. intros x Hx.
  apply negb_true_iff, bool_decide_eq_false. intros ->. congruence.
Qed.

Lemma escape_without_newline (s : string) :
  without (ascii_of_nat 10) (replace_char (ascii_of_nat 10) "\n" s) = true.
Proof.
  induction s as [|c s IH]; [done|]. cbn [replace_char].
  case_bool_decide as Hc.
  - change ("\n" +:+ ?x) with (String "\" (String "n" x)).
    unfold without in *. cbn [all_chars]. by rewrite IH.
  - unfold without in *. cbn [all_chars]. rewrite IH.
    by rewrite bool_decide_false.
Qed.

(** The header of a block with an id below 4096: what the loader reads
    from it. *)
Lemma header_facts (block_id : Z) :
  0 ≤ block_id < 4096 →
  without ";" ("block: " +:+ hex04 block_id) = true
  ∧ without (ascii_of_nat 10) (hex04 block_id) = true
  ∧ ∃ id_str,
      second (split (strip ("block: " +:+ hex04 block_id)) ":") = Ok id_str
      ∧ int (strip id_str) (if startswith (strip id_str) "0" then 16 else 10)
        = Ok block_id.
Proof.
  intros Hid.
  pose (check := λ id : Z,
    without ";" ("block: " +:+ hex04 id)
    && without (ascii_of_nat 10) (hex04 id)
    && match second (split (strip ("block: " +:+ hex04 id)) ":") with
       | Ok id_str =>
           match int (strip id_str) (if startswith (strip id_str) "0" then 16 else 10) with
           | Ok v => bool_decide (v = id)
           | Raise _ => false
           end
       | Raise _ => false
       end).
  assert (forallb check (seqZ 0 4096) = true) as Hall by (vm_compute; reflexivity).
  rewrite forallb_forall in Hall. specialize (Hall block_id).
  assert (check block_id = true) as Hc.
  { apply Hall. apply list_elem_of_In, elem_of_seqZ. lia. }
  unfold check in Hc. apply andb_prop in Hc as [Hc H3]. apply andb_prop in Hc as [H1 H2].
  split_and!; [done|done|].
  destruct (second _) as [id_str|]; [|done]. exists id_str. split; [done|].
  destruct (int _ _) as [v|]; [|done]. apply bool_decide_eq_true in H3. by subst.
Qed.

(** ** The loop of the loader *)

Lemma contains_char (c : ascii) (D R : string) :
  contains (D +:+ String c R) (String c EmptyString) = true.
Proof.
  induction D as [|x D IH].
  - rewrite append_nil_l. cbn [contains]. by rewrite prefix_char, bool_decide_true.
  - rewrite append_cons. cbn [contains]. rewrite IH. by destruct (String.prefix _ _).
Qed.

(** The line of the entry [i] with the text [e], stripped. *)
Lemma strip_entry (i : nat) (e : string) :
  strip (str (Z.of_nat i) +:+ ": " +:+ e)
  = str (Z.of_nat i) +:+ String ":" (rstrip (String " " e)).
Proof.
  destruct (str_decimal i) as (HD & d & D & Hd). rewrite Hd in *.
  cbn [all_chars] in HD. apply andb_prop in HD as [Hdc HD].
  destruct (decimal_char_facts d Hdc) as (Hsp & _).
  change (": " +:+ e) with (String ":" (String " " e)).
  rewrite !append_cons, strip_cons by done. f_equal.
  rewrite rstrip_append; rewrite rstrip_cons by done; done.
Qed.

(** One entry of a block. *)
Lemma load_lines_entry (i : nat) (e : string) (ls : list string) (id : Z)
    (cb : list string) (blocks : gmap Z (list string)) :
  load_lines ((str (Z.of_nat i) +:+ ": " +:+ e) :: ls) (Some id) cb blocks
  = load_lines ls (Some id)
      (<[i := strip e]> (cb ++ replicate (S i - length cb) EmptyString)) blocks.
Proof.
  cbn [load_lines]. rewrite strip_entry.
  destruct (str_decimal i) as (HD & d & D & Hd).
  assert (startswith (str (Z.of_nat i) +:+ String ":" (rstrip (String " " e))) "block:"
          = false) as ->.
  { rewrite Hd in *. cbn [all_chars] in HD. apply andb_prop in HD as [Hdc _].
    destruct (decimal_char_facts d Hdc) as (_ & _ & _ & Hb & _).
    rewrite append_cons. unfold startswith. cbn [String.prefix].
    by destruct (ascii_dec "b" d). }
  rewrite contains_char.
  rewrite split_max_char by (by apply decimal_without).
  assert (strip (str (Z.of_nat i)) = str (Z.of_nat i)) as ->.
  { apply strip_nonblank. revert HD. apply all_chars_impl. intros c Hc.
    destruct (decimal_char_facts c Hc) as (-> & _). done. }
  assert (isdigit (str (Z.of_nat i)) = true) as ->.
  { unfold isdigit. rewrite bool_decide_true by (by rewrite Hd). cbn [andb].
    revert HD. apply all_chars_impl. intros c Hc.
    by destruct (decimal_char_facts c Hc) as (_ & -> & _). }
  rewrite int_str, Nat2Z.id, strip_rstrip_blank. done.
Qed.

(** The entries of a block, numbered from [k]. *)
Lemma load_lines_entries (id : Z) (blocks : gmap Z (list string)) (tail : list string)
    (f : string → string) (strings : list string) : ∀ (k : nat) (cb : list string),
  length cb = Nat.max 1 k →
  load_lines (imap (λ i s, str (Z.of_nat (k + i)) +:+ ": " +:+ f s) strings ++ tail)
    (Some id) cb blocks
  = load_lines tail (Some id)
      (match strings with
       | [] => cb
       | _ => take k cb ++ ((λ s, strip (f s)) <$> strings)
       end) blocks.
Proof.
  induction strings as [|s strings IH]; intros k cb Hlen; [done|].
  cbn [imap app]. rewrite Nat.add_0_r, load_lines_entry.
  rewrite (imap_ext _ (λ i s, str (Z.of_nat (S k + i)) +:+ ": " +:+ f s))
    by (intros; unfold compose; by rewrite Nat.add_succ_r).
  assert (<[k := strip (f s)]> (cb ++ replicate (S k - length cb) EmptyString)
          = take k cb ++ [strip (f s)]) as ->.
  { destruct k as [|k].
    - destruct cb as [|x [|y cb]]; cbn in Hlen; try lia. done.
    - rewrite Hlen. replace (S (S k) - Nat.max 1 (S k))%nat with 1%nat by lia.
      cbn [replicate]. rewrite take_ge by lia.
      rewrite insert_app_r_alt by lia.
      replace (S k - length cb)%nat with 0%nat by lia. done. }
  rewrite IH.
  - destruct strings as [|s' strings]; [done|].
    rewrite take_app_ge; rewrite length_take; [|lia].
    replace (S k - k `min` length cb)%nat with 1%nat by lia.
    cbn [take fmap list_fmap]. by rewrite <- app_assoc.
  - rewrite length_app, length_take. cbn [length]. lia.
Qed.

(** The header of a block. *)
Lemma load_lines_header (block_id : Z) (N : string) (ls : list string)
    (cid : option Z) (cb : list string) (blocks : gmap Z (list string)) :
  0 ≤ block_id < 4096 →
  load_lines (("block: " +:+ hex04 block_id +:+ "; " +:+ N +:+ " strings.") :: ls)
    cid cb blocks
  = load_lines ls (Some block_id) [EmptyString] (save_block cid cb blocks).
Proof.
  intros Hid. destruct (header_facts block_id Hid) as (H1 & _ & id_str & H2 & H3).
  assert (strip ("block: " +:+ hex04 block_id +:+ "; " +:+ N +:+ " strings.")
          = ("block: " +:+ hex04 block_id)
            +:+ String ";" (String " " (N +:+ " strings."))) as Hstrip.
  { assert (rstrip (N +:+ " strings.") = N +:+ " strings.") as HN.
    { rewrite rstrip_append; [done|]. by vm_compute. }
    rewrite <- text_append_assoc.
    change ("; " +:+ N +:+ " strings.")
      with (String ";" (String " " (N +:+ " strings."))).
    apply (strip_line "b" ("lock: " +:+ hex04 block_id)); [done| |done].
    rewrite rstrip_cons by done. f_equal. cbn [rstrip]. rewrite HN.
    destruct N; done. }
  cbn [load_lines]. rewrite Hstrip.
  assert (startswith (("block: " +:+ hex04 block_id)
                      +:+ String ";" (String " " (N +:+ " strings."))) "block:" = true)
    as -> by reflexivity.
  rewrite split_head by done. cbn [default]. unfold id.
  rewrite H2, H3. done.
Qed.

(** X30: the strings file that the compiler writes for a
    block id below 4096, read back line by line, loads as one block under
    that id; its entry [i] is the string [i] with the newlines escaped and
    the blanks at both ends stripped (one empty entry when there are no
    strings), and the other blocks stay.  The strings hold no carriage
    return, which reading a text file would take for the end of a line. *)
Theorem strings_file_is_loaded (s : vm) (strings : list string) (block_id : Z) :
  0 ≤ block_id < 4096 →
  Forall (λ x, without (ascii_of_nat 13) x = true) strings →
  string_blocks
    (load_string_blocks
       (readlines (join_lines (generate_strings_file strings block_id))) s)
  = <[block_id :=
        match strings with
        | [] => [EmptyString]
        | _ => (λ x, strip (replace_char (ascii_of_nat 10) "\n" x)) <$> strings
        end]> (string_blocks s).
Proof.
  intros Hid _.
  set (f := replace_char (ascii_of_nat 10) "\n").
  set (h2 := "block: " +:+ hex04 block_id +:+ "; "
             +:+ str (Z.of_nat (length strings)) +:+ " strings.").
  set (entries := imap (λ i x, str (Z.of_nat i) +:+ ": " +:+ f x) strings).
  assert (readlines (join_lines (generate_strings_file strings block_id))
          = "STRINGS.PAK: 1 string blocks." :: EmptyString :: h2
            :: entries ++ [EmptyString]) as ->.
  { unfold readlines, join_lines, split.
    change (String.concat newline (generate_strings_file strings block_id))
      with (String.concat (String (ascii_of_nat 10) EmptyString)
              ("STRINGS.PAK: 1 string blocks." :: EmptyString :: h2
               :: entries ++ [EmptyString])).
    apply split_concat; [|done|lia].
    destruct (header_facts block_id Hid) as (_ & Hhex & _).
    destruct (str_decimal (length strings)) as (HN & _).
    repeat apply Forall_cons_2; [done|done| |].
    - unfold h2, without. rewrite !all_chars_append.
      fold (without (ascii_of_nat 10) (hex04 block_id)). rewrite Hhex.
      fold (without (ascii_of_nat 10) (str (Z.of_nat (length strings)))).
      by rewrite decimal_without.
    - apply Forall_app. split; [|by apply Forall_singleton].
      unfold entries.
      assert (∀ (g : nat → nat) (l : list string),
                Forall (λ a, without (ascii_of_nat 10) a = true)
                  (imap (λ i x, str (Z.of_nat (g i)) +:+ ": " +:+ f x) l)) as Hgen.
      { intros g l. revert g. induction l as [|x l IH]; intros g; [done|].
        cbn [imap]. apply Forall_cons_2; [|apply (IH (g ∘ S))].
        unfold without. rewrite !all_chars_append.
        destruct (str_decimal (g 0%nat)) as (HD & _).
        fold (without (ascii_of_nat 10) (str (Z.of_nat (g 0%nat)))).
        rewrite decimal_without by done.
        fold (without (ascii_of_nat 10) (f x)). unfold f.
        by rewrite escape_without_newline. }
      apply (Hgen (λ i, i)). }
  unfold load_string_blocks. cbn [string_blocks with_string_blocks].
  change (load_lines ("STRINGS.PAK: 1 string blocks." :: EmptyString :: h2
                      :: entries ++ [EmptyString]) None [] (string_blocks s))
    with (load_lines (h2 :: entries ++ [EmptyString]) None [] (string_blocks s)).
  unfold h2. rewrite load_lines_header by done. cbn [save_block].
  unfold entries.
  rewrite (load_lines_entries block_id (string_blocks s) [EmptyString] f strings 0)
    by done.
  cbn [take app]. by destruct strings.
Qed.

Lemma strings_file_is_loaded_witness :
  string_blocks
    (load_string_blocks
       (readlines (join_lines (generate_strings_file ["Hello"; "Bye"] 1)))
       (init [] []))
  = <[1 := (λ x, strip (replace_char (ascii_of_nat 10) "\n" x)) <$> ["Hello"; "Bye"]]>
      (string_blocks (init [] [])).
Proof.
  apply (strings_file_is_loaded (init [] []) ["Hello"; "Bye"] 1); [lia|].
  repeat constructor.
Defined.

End strings_file.
